(** * UIDAI identity-health pipeline: a shallow embedding of [src/src/analyzer.py]

    The pipeline is a sequence of table transformations carried out with
    pandas, numpy and scikit-learn, driven by [src/main.py].  Numeric cells
    are float64 in the program; here a cell is a real number or one of the
    three special values of the format ([NaN], the two infinities).
    Rounding, overflow and the sign of zero are not part of this reading:
    finite arithmetic is exact.  Where rounding decides a property, the
    computation is written a second time on binary64 numbers (module
    [Binary64]).  Every place where pandas produces or consumes a
    missing value (sample standard deviation of a single observation,
    [skipna] sums, [fillna], division by zero, comparisons with NaN) is
    written out.  The counters of the cleaned domain tables are numbers;
    reading and cleaning the CSV shards and drawing the charts are outside
    the model, and the k-means clustering of scikit-learn is a parameter of
    the scorer. *)

From Stdlib Require Import Reals Lra Lia Psatz.
From Stdlib Require Import String Ascii ZArith Bool List Permutation.
From Stdlib Require Import Sorted OrderedTypeEx.
From Stdlib Require PrimFloat.
Import ListNotations.

Local Open Scope R_scope.

(** ** float64 cells *)

Inductive f64 : Type :=
| Fin (x : R)
| PInf
| NInf
| NaN.

Definition Rgtb (a b : R) : bool := if Rlt_dec b a then true else false.
Definition Reqb (a b : R) : bool := if Req_dec_T a b then true else false.

Module F64.

Definition add (a b : f64) : f64 :=
  match a, b with
  | NaN, _ | _, NaN => NaN
  | Fin x, Fin y => Fin (x + y)
  | PInf, NInf | NInf, PInf => NaN
  | PInf, _ | _, PInf => PInf
  | NInf, _ | _, NInf => NInf
  end.

Definition neg (a : f64) : f64 :=
  match a with
  | Fin x => Fin (- x)
  | PInf => NInf
  | NInf => PInf
  | NaN => NaN
  end.

Definition sub (a b : f64) : f64 := add a (neg b).

(** [x / 0] is NaN for [x = 0] and an infinity otherwise; no exception is
    raised by numpy or pandas arithmetic. *)
Definition div (a b : f64) : f64 :=
  match a, b with
  | NaN, _ | _, NaN => NaN
  | Fin x, Fin y =>
      if Reqb y 0 then
        if Reqb x 0 then NaN else if Rgtb x 0 then PInf else NInf
      else Fin (x / y)
  | Fin _, (PInf | NInf) => Fin 0
  | (PInf | NInf), (PInf | NInf) => NaN
  | PInf, Fin y => if Rgtb 0 y then NInf else PInf
  | NInf, Fin y => if Rgtb 0 y then PInf else NInf
  end.

(** [a > b]; every comparison with NaN is false. *)
Definition gtb (a b : f64) : bool :=
  match a, b with
  | NaN, _ | _, NaN => false
  | Fin x, Fin y => Rgtb x y
  | PInf, (Fin _ | NInf) => true
  | Fin _, NInf => true
  | _, _ => false
  end.

Definition isnan (a : f64) : bool :=
  match a with NaN => true | _ => false end.

(** [fillna(0)] on one cell. *)
Definition fillna0 (a : f64) : f64 :=
  match a with NaN => Fin 0 | _ => a end.

End F64.

(** ** Reductions of a numeric column *)

Fixpoint Rsum (l : list R) : R :=
  match l with
  | [] => 0
  | x :: l' => x + Rsum l'
  end.

(** [Series.mean()]: NaN on an empty column. *)
Definition series_mean (l : list R) : f64 :=
  match l with
  | [] => NaN
  | _ => Fin (Rsum l / INR (length l))
  end.

(** Sum of squared deviations from [m]. *)
Definition sq_dev (m : R) (l : list R) : R :=
  Rsum (map (fun x => (m - x) * (m - x)) l).

(** [Series.std()] and the group-by [std]: sample standard deviation
    ([ddof = 1]); NaN when there are fewer than two observations. *)
Definition series_std (l : list R) : f64 :=
  match l with
  | [] | [_] => NaN
  | _ => Fin (sqrt (sq_dev (Rsum l / INR (length l)) l
                    / (INR (length l) - 1)))
  end.

(** Row-wise [DataFrame.sum(axis=1)]: [skipna] is on, a NaN cell counts as 0. *)
Fixpoint nansum (l : list f64) : f64 :=
  match l with
  | [] => Fin 0
  | NaN :: l' => nansum l'
  | x :: l' => F64.add x (nansum l')
  end.

(** ** Group-by

    [DataFrame.groupby(keys)] with its default [sort=True]: one group per
    distinct key, groups in ascending key order, the rows of a group in their
    original order. *)

Section GroupBy.
Context {K V : Type} (cmp : K -> K -> comparison).

Fixpoint group_insert (k : K) (v : V) (gs : list (K * list V))
  : list (K * list V) :=
  match gs with
  | [] => [(k, [v])]
  | (k', vs) :: gs' =>
      match cmp k k' with
      | Lt => (k, [v]) :: gs
      | Eq => (k', v :: vs) :: gs'
      | Gt => (k', vs) :: group_insert k v gs'
      end
  end.

Fixpoint groupby (rows : list (K * V)) : list (K * list V) :=
  match rows with
  | [] => []
  | (k, v) :: rows' => group_insert k v (groupby rows')
  end.
End GroupBy.

(** ** National anomaly detector ([analyze_fraud_spikes]) *)

(** One record of a demographic shard restricted to the three columns the
    detector reads.  [dr_date] is the result of [pd.to_datetime(...,
    errors='coerce')]: a day number, or [None] for NaT. *)
Record demo_raw : Type := {
  dr_date : option Z;
  demo_age_5_17 : R;
  demo_age_17_ : R
}.

Definition dated (raw_df : list demo_raw) : list (Z * demo_raw) :=
  flat_map (fun r => match dr_date r with
                     | Some d => [(d, r)]
                     | None => []
                     end) raw_df.

(** [raw_df.groupby('date')[[...]].sum().sum(axis=1).reset_index()];
    rows whose date is NaT belong to no group. *)
Definition daily_national_volume (raw_df : list demo_raw) : list (Z * R) :=
  map (fun g => (fst g,
                 Rsum (map demo_age_5_17 (snd g))
                 + Rsum (map demo_age_17_ (snd g))))
      (groupby Z.compare (dated raw_df)).

Record daily_row : Type := {
  date : Z;
  total_vol : R;
  z_score : f64
}.

(** Lines 298-300: mean, sample standard deviation and z-score column. *)
Definition with_z_score (daily_ts : list (Z * R)) : list daily_row :=
  let mean_vol := series_mean (map snd daily_ts) in
  let std_vol := series_std (map snd daily_ts) in
  map (fun r => {| date := fst r;
                   total_vol := snd r;
                   z_score := F64.div (F64.sub (Fin (snd r)) mean_vol) std_vol |})
      daily_ts.

(** Line 303: [daily_ts[daily_ts['z_score'] > 3]]. *)
Definition detect_anomalies (daily_ts : list (Z * R)) : list daily_row :=
  filter (fun r => F64.gtb (z_score r) (Fin 3)) (with_z_score daily_ts).

(** The detector from the shards that could be read.  [None] is the early
    return taken when no shard was loaded. *)
Definition analyze_fraud_spikes (dfs : list (list demo_raw))
  : option (list daily_row) :=
  match dfs with
  | [] => None
  | _ => Some (detect_anomalies (daily_national_volume (concat dfs)))
  end.


(** ** Tables

    A data frame whose first three columns are the spatial key
    [state, district, pincode]; [columns] names the remaining, numeric
    columns and every row carries one cell per name.  [pd.DataFrame()] is the
    frame without columns and rows. *)

Definition key : Type := (string * string * Z)%type.

Definition key_compare (a b : key) : comparison :=
  let '(s1, d1, p1) := a in
  let '(s2, d2, p2) := b in
  match String.compare s1 s2 with
  | Eq => match String.compare d1 d2 with
          | Eq => Z.compare p1 p2
          | c => c
          end
  | c => c
  end.

Definition key_eqb (a b : key) : bool :=
  match key_compare a b with Eq => true | _ => false end.

Record frame : Type := {
  columns : list string;
  rows : list (key * list f64)
}.

Definition key_columns : list string := ["state"; "district"; "pincode"]%string.

Definition empty_frame : frame := {| columns := []; rows := [] |}.

(** [df.empty] *)
Definition is_empty (f : frame) : bool :=
  match rows f with [] => true | _ => false end.

(** The cell of column [c] in a row, [None] when the frame has no such
    column (pandas raises [KeyError]). *)
Fixpoint lookup (cols : list string) (cells : list f64) (c : string)
  : option f64 :=
  match cols, cells with
  | n :: cols', v :: cells' =>
      if String.eqb n c then Some v else lookup cols' cells' c
  | _, _ => None
  end.

(** [df[names]] on one row. *)
Definition select (cols : list string) (cells : list f64)
           (names : list string) : list f64 :=
  flat_map (fun c => match lookup cols cells c with
                     | Some v => [v]
                     | None => []
                     end) names.

Fixpoint set_cell (cols : list string) (cells : list f64) (c : string)
         (v : f64) : list f64 :=
  match cols, cells with
  | n :: cols', x :: cells' =>
      if String.eqb n c then v :: cells' else x :: set_cell cols' cells' c v
  | _, _ => [v]
  end.

Definition has_column (cols : list string) (c : string) : bool :=
  existsb (String.eqb c) cols.

(** [df[c] = g(row)]: overwrites the column when it exists, appends it
    otherwise. *)
Definition assign (f : frame) (c : string) (g : key * list f64 -> f64)
  : frame :=
  {| columns := if has_column (columns f) c then columns f
                else columns f ++ [c];
     rows := map (fun r => (fst r, set_cell (columns f) (snd r) c (g r)))
                 (rows f) |}.

(** Python's [pat in s] on strings. *)
Fixpoint contains (pat s : string) : bool :=
  if String.prefix pat s then true
  else match s with
       | EmptyString => false
       | String _ s' => contains pat s'
       end.

(** ** Pincode feature builder ([process_domain_features]) *)

(** A record of a normalized domain table: the spatial key and the value of
    every counter column. *)
Record norm_row : Type := {
  nr_state : string;
  nr_district : string;
  nr_pincode : Z;
  nr_cell : string -> R
}.

Definition nr_key (r : norm_row) : key :=
  (nr_state r, nr_district r, nr_pincode r).

(** Line 106: the flattened names, [c_sum] and [c_std] for each value
    column. *)
Definition agg_names (val_cols : list string) : list string :=
  flat_map (fun c => [c ++ "_sum"; c ++ "_std"]%string) val_cols.

(** Line 103: [.agg(['sum', 'std'])] on one group. *)
Definition agg_cells (val_cols : list string) (g : list norm_row)
  : list f64 :=
  flat_map (fun c => let col := map (fun r => nr_cell r c) g in
                     [Fin (Rsum col); series_std col]) val_cols.

(** Lines 117-119: [np.where(total_vol > 0, 1 / (total_std / (total_vol + 1)
    + 0.1), 0)] on one row. *)
Definition stability (total_std total_vol : f64) : f64 :=
  if F64.gtb total_vol (Fin 0)
  then F64.div (Fin 1)
               (F64.add (F64.div total_std (F64.add total_vol (Fin 1)))
                        (Fin (1 / 10)))
  else Fin 0.

(** Lines 99-120.  The sum and the standard-deviation columns are chosen by
    name among all columns of [stats], the key columns included; the row-wise
    sums skip NaN cells. *)
Definition process_domain_features (df : list norm_row) (prefix : string)
           (val_cols : list string) : frame :=
  match df with
  | [] => empty_frame
  | _ =>
      let stats :=
        {| columns := agg_names val_cols;
           rows := map (fun g => (fst g, agg_cells val_cols (snd g)))
                       (groupby key_compare
                                (map (fun r => (nr_key r, r)) df)) |} in
      let sum_cols :=
        filter (contains "sum") (key_columns ++ columns stats) in
      let stats :=
        assign stats (prefix ++ "_total_vol")
               (fun r => nansum (select (columns stats) (snd r) sum_cols)) in
      let std_cols :=
        filter (contains "std") (key_columns ++ columns stats) in
      assign stats (prefix ++ "_stability")
             (fun r =>
                let total_std :=
                  nansum (select (columns stats) (snd r) std_cols) in
                match lookup (columns stats) (snd r)
                             (prefix ++ "_total_vol") with
                | Some total_vol => stability total_std total_vol
                | None => NaN
                end)
  end.

(** The three domains and the arguments of the three calls in
    [load_and_engineer_data] (lines 141-143). *)
Inductive domain : Type := Enrol | Bio | Demo.

Definition prefix_of (d : domain) : string :=
  match d with
  | Enrol => "enrol"
  | Bio => "bio"
  | Demo => "demo"
  end.

Definition val_cols_of (d : domain) : list string :=
  match d with
  | Enrol => ["enrol_child"; "enrol_adult"]
  | Bio => ["bio_child"; "bio_adult"]
  | Demo => ["demo_child"; "demo_adult"]
  end%string.

Definition domain_features (d : domain) (df : list norm_row) : frame :=
  process_domain_features df (prefix_of d) (val_cols_of d).

(** What the group-by standard deviation can be: missing, or a non-negative
    number. *)
Definition std_shape (sd : f64) : Prop :=
  sd = NaN \/ exists s, sd = Fin s /\ 0 <= s.

(** A small normalized enrolment table: two records of one pincode and a
    single record of another. *)
Definition sample_enrol_table : list norm_row :=
  [ {| nr_state := "Goa"; nr_district := "North Goa"; nr_pincode := 403001;
       nr_cell := fun c => if String.eqb c "enrol_child" then 5 else 7 |};
    {| nr_state := "Goa"; nr_district := "North Goa"; nr_pincode := 403001;
       nr_cell := fun c => if String.eqb c "enrol_child" then 9 else 7 |};
    {| nr_state := "Goa"; nr_district := "South Goa"; nr_pincode := 403601;
       nr_cell := fun c => if String.eqb c "enrol_child" then 4 else 0 |} ].

(** ** Domain merger (lines 147-161 of [load_and_engineer_data]) *)

Definition keys_of (f : frame) : list key := map fst (rows f).

(** Insertion into an ascending list of distinct keys. *)
Fixpoint key_insert (k : key) (ks : list key) : list key :=
  match ks with
  | [] => [k]
  | k' :: ks' =>
      match key_compare k k' with
      | Lt => k :: ks
      | Eq => ks
      | Gt => k' :: key_insert k ks'
      end
  end.

Definition sorted_keys (ks : list key) : list key :=
  fold_right key_insert [] ks.

(** The rows of [f] under key [k]. *)
Definition rows_of (f : frame) (k : key) : list (list f64) :=
  map snd (filter (fun r => key_eqb (fst r) k) (rows f)).

(** The rows a frame contributes to the join under key [k]: its own rows,
    or one row of missing values when the key is absent from it. *)
Definition side (f : frame) (k : key) : list (list f64) :=
  match rows_of f k with
  | [] => [repeat NaN (length (columns f))]
  | l => l
  end.

(** A column name shared by both frames receives the suffix of its side. *)
Definition suffixed (other : list string) (sfx c : string) : string :=
  if has_column other c then (c ++ sfx)%string else c.

(** [pd.merge(left, right, on=['state', 'district', 'pincode'],
    how='outer')]: the union of the keys in lexicographic order, the columns
    of the left frame followed by those of the right one, overlapping names
    suffixed with [_x] and [_y]. *)
Definition merge_outer (left right : frame) : frame :=
  {| columns := map (suffixed (columns right) "_x") (columns left)
                ++ map (suffixed (columns left) "_y") (columns right);
     rows := flat_map
               (fun k =>
                  flat_map (fun l => map (fun r => (k, l ++ r))
                                         (side right k))
                           (side left k))
               (sorted_keys (keys_of left ++ keys_of right)) |}.

(** [df.fillna(0)] *)
Definition fillna (f : frame) : frame :=
  {| columns := columns f;
     rows := map (fun r => (fst r, map F64.fillna0 (snd r))) (rows f) |}.

Definition merge_features (feat_enrol feat_bio feat_demo : frame) : frame :=
  let master := feat_enrol in
  let master :=
    if is_empty master then feat_bio
    else if negb (is_empty feat_bio) then merge_outer master feat_bio
         else master in
  let master :=
    if is_empty master then feat_demo
    else if negb (is_empty feat_demo) then merge_outer master feat_demo
         else master in
  fillna master.

(** [load_and_engineer_data] from the three cleaned domain tables. *)
Definition load_and_engineer_data (df_enrol df_bio df_demo : list norm_row)
  : frame :=
  merge_features (domain_features Enrol df_enrol)
                 (domain_features Bio df_bio)
                 (domain_features Demo df_demo).

(** The cell of column [c] in the first row of [f] under key [k]. *)
Definition cell (f : frame) (k : key) (c : string) : option f64 :=
  match find (fun r => key_eqb (fst r) k) (rows f) with
  | Some r => lookup (columns f) (snd r) c
  | None => None
  end.

(** ** Column reductions on float64 cells *)

Definition dropna (l : list f64) : list f64 :=
  filter (fun x => negb (F64.isnan x)) l.

(** The numbers of a column when all its cells are finite. *)
Fixpoint reals_of (l : list f64) : option (list R) :=
  match l with
  | [] => Some []
  | Fin x :: l' => option_map (cons x) (reals_of l')
  | _ => None
  end.

(** [Series.mean()] with [skipna]. *)
Definition nan_mean (l : list f64) : f64 :=
  match dropna l with
  | [] => NaN
  | xs => F64.div (fold_right F64.add (Fin 0) xs) (Fin (INR (length xs)))
  end.

(** [Series.std()] with [skipna]; an infinite cell makes the deviations
    NaN. *)
Definition nan_std (l : list f64) : f64 :=
  match reals_of (dropna l) with
  | Some xs => series_std xs
  | None => NaN
  end.

(** [Series.idxmax()]: the label of the first greatest cell, NaN skipped;
    [None] when there is no cell to choose from (pandas raises). *)
Fixpoint idxmax_from {K : Type} (best : K * f64) (l : list (K * f64)) : K :=
  match l with
  | [] => fst best
  | kv :: l' =>
      if F64.gtb (snd kv) (snd best) then idxmax_from kv l'
      else idxmax_from best l'
  end.

Definition idxmax {K : Type} (l : list (K * f64)) : option K :=
  match filter (fun kv => negb (F64.isnan (snd kv))) l with
  | [] => None
  | kv :: l' => Some (idxmax_from kv l')
  end.

(** Stable insertion sort; [before x y] says that [x] may stand in front
    of [y]. *)
Section Sort.
Context {A : Type} (before : A -> A -> bool).

Fixpoint sort_insert (x : A) (l : list A) : list A :=
  match l with
  | [] => [x]
  | y :: l' => if before x y then x :: l else y :: sort_insert x l'
  end.

Definition sort_by (l : list A) : list A := fold_right sort_insert [] l.
End Sort.

(** Order of [sort_values(ascending=False)] on cells: greater first, NaN
    last. *)
Definition f64_desc (a b : f64) : bool :=
  match a, b with
  | _, NaN => true
  | NaN, _ => false
  | _, _ => negb (F64.gtb b a)
  end.

(** ** District keys *)

Definition district_key : Type := (string * string)%type.

Definition district_of (k : key) : district_key := fst k.

Definition district_compare (a b : district_key) : comparison :=
  match String.compare (fst a) (fst b) with
  | Eq => String.compare (snd a) (snd b)
  | c => c
  end.

Definition district_eqb (a b : district_key) : bool :=
  String.eqb (fst a) (fst b) && String.eqb (snd a) (snd b).

(** [df[c]] restricted to the rows [rs] of a frame with columns [cols]; a
    row without the column has no cell to give. *)
Definition column_values (cols : list string) (c : string)
           (rs : list (key * list f64)) : list f64 :=
  flat_map (fun r => match lookup cols (snd r) c with
                     | Some v => [v]
                     | None => []
                     end) rs.

(** [df.groupby(['state', 'district'])] *)
Definition by_district (f : frame)
  : list (district_key * list (key * list f64)) :=
  groupby district_compare (map (fun r => (district_of (fst r), r)) (rows f)).

(** What a call leaves behind besides the state of its arguments: an
    exception, or the value it returned. *)
Inductive outcome (A : Type) : Type :=
| Raised
| Returned (a : A).
Arguments Raised {A}.
Arguments Returned {A} a.

(** ** Intra-district variance reporter ([analyze_pincode_variance]) *)

(** What the reporter computes before it draws: the selected district,
    the rows of [subset.head(30)] as they are handed to [sns.barplot]
    (pincode and [total_load], in the order of the sorted selection), and
    the coefficient of variation of the annotation.  How the plotting library
    arranges the bars on the axis is not part of the record. *)
Record variance_report : Type := {
  top_state : string;
  top_district : string;
  bars : list (Z * f64);
  cv : f64
}.

(** Line 341 on one row. *)
Definition total_load_of (cols : list string) (cells : list f64)
  : option f64 :=
  match lookup cols cells "enrol_total_vol",
        lookup cols cells "bio_total_vol",
        lookup cols cells "demo_total_vol" with
  | Some e, Some b, Some d => Some (F64.add (F64.add e b) d)
  | _, _, _ => None
  end.

(** Lines 365-367. *)
Definition coefficient_of_variation (loads : list f64) : f64 :=
  let std_dev := nan_std loads in
  let mean_val := nan_mean loads in
  if F64.gtb mean_val (Fin 0) then F64.div std_dev mean_val else Fin 0.

(** Line 341: [df['total_load'] = ...], an assignment into the table that
    was passed in. *)
Definition with_total_load (df : frame) : frame :=
  assign df "total_load"
         (fun r => match total_load_of (columns df) (snd r) with
                   | Some v => v
                   | None => NaN
                   end).

(** The [total_load] cell of a row. *)
Definition row_load (cols : list string) (r : key * list f64) : f64 :=
  match lookup cols (snd r) "total_load" with
  | Some v => v
  | None => NaN
  end.

(** Line 344: the district with the greatest summed load. *)
Definition busiest_district (df : frame) : option district_key :=
  idxmax (map (fun g => (fst g,
                         nansum (column_values (columns df) "total_load"
                                               (snd g))))
              (by_district df)).

(** Line 347 *)
Definition district_rows (df : frame) (d : district_key)
  : list (key * list f64) :=
  filter (fun r => district_eqb (district_of (fst r)) d) (rows df).

(** The reporter receives the caller's table by reference.  The first
    component of the result is that table as the caller finds it after the
    call, the second what the call itself produced ([Returned None] is the
    early return on an empty selection, the report holds what the call
    hands to the plotting library). *)
Definition analyze_pincode_variance (df : frame)
  : frame * outcome (option variance_report) :=
  if has_column (columns df) "enrol_total_vol"
     && has_column (columns df) "bio_total_vol"
     && has_column (columns df) "demo_total_vol"
  then
    let df := with_total_load df in
    match busiest_district df with
    | None => (df, Raised)
    | Some top =>
        match district_rows df top with
        | [] => (df, Returned None)
        | subset =>
            let subset :=
              sort_by (fun a b => f64_desc (row_load (columns df) a)
                                           (row_load (columns df) b))
                      subset in
            (df, Returned (Some
               {| top_state := fst top;
                  top_district := snd top;
                  bars := map (fun r => (snd (fst r), row_load (columns df) r))
                              (firstn 30 subset);
                  cv := coefficient_of_variation
                          (column_values (columns df) "total_load" subset)
               |}))
        end
    end
  else (df, Raised).

(** ** District health scorer ([generate_health_index]) *)

(** One row of [dist_stats] after the group-by of lines 175-183. *)
Record district_row : Type := {
  state : string;
  district : string;
  enrol_total_vol : R;
  enrol_stability : R;
  bio_total_vol : R;
  bio_stability : R;
  demo_total_vol : R;
  enrol_child_sum : R;
  bio_child_sum : R
}.

Definition as_real (x : f64) : option R :=
  match x with Fin r => Some r | _ => None end.

Definition bind {A B : Type} (o : option A) (f : A -> option B) : option B :=
  match o with Some a => f a | None => None end.

Notation "x <- o ;; k" := (bind o (fun x => k))
  (at level 61, o at next level, right associativity).

Fixpoint sequence {A : Type} (l : list (option A)) : option (list A) :=
  match l with
  | [] => Some []
  | o :: l' => a <- o ;; r <- sequence l' ;; Some (a :: r)
  end.

Definition agg_columns : list string :=
  ["enrol_total_vol"; "enrol_stability"; "bio_total_vol"; "bio_stability";
   "demo_total_vol"; "enrol_child_sum"; "bio_child_sum"]%string.

(** The district-level aggregation.  [None] stands for the exceptions of
    the scorer on its input: a column of the aggregation is missing
    ([KeyError]), or an aggregate is not a finite number, which the scaler
    (infinity) or the clustering (NaN) rejects with [ValueError]. *)
Definition district_stats (df : frame) : option (list district_row) :=
  if forallb (has_column (columns df)) agg_columns then
    sequence
      (map (fun g =>
              let col c := column_values (columns df) c (snd g) in
              etv <- as_real (nansum (col "enrol_total_vol"%string)) ;;
              est <- as_real (nan_mean (col "enrol_stability"%string)) ;;
              btv <- as_real (nansum (col "bio_total_vol"%string)) ;;
              bst <- as_real (nan_mean (col "bio_stability"%string)) ;;
              dtv <- as_real (nansum (col "demo_total_vol"%string)) ;;
              ecs <- as_real (nansum (col "enrol_child_sum"%string)) ;;
              bcs <- as_real (nansum (col "bio_child_sum"%string)) ;;
              Some {| state := fst (fst g); district := snd (fst g);
                      enrol_total_vol := etv; enrol_stability := est;
                      bio_total_vol := btv; bio_stability := bst;
                      demo_total_vol := dtv; enrol_child_sum := ecs;
                      bio_child_sum := bcs |})
           (by_district df))
  else None.

(** *** [sklearn.preprocessing.MinMaxScaler] with its default range (0, 1)

    The steps of the scaler and of the formula, carried out in exact
    arithmetic; module [Binary64] below carries out the same steps on
    binary64 numbers. *)

Definition Rlist_min (l : list R) : R :=
  match l with
  | [] => 0
  | x :: l' => fold_left Rmin l' x
  end.

Definition Rlist_max (l : list R) : R :=
  match l with
  | [] => 0
  | x :: l' => fold_left Rmax l' x
  end.

(** Machine epsilon of float64. *)
Definition eps : R := / 2 ^ 52.

(** A range below [10 * eps] is taken as constant and scaled by 1. *)
Definition handle_zeros_in_scale (scale : R) : R :=
  if Rgtb (10 * eps) scale then 1 else scale.

Definition fit_transform (col : list R) : list R :=
  let data_min := Rlist_min col in
  let data_max := Rlist_max col in
  let data_range := data_max - data_min in
  let scale_ := (1 - 0) / handle_zeros_in_scale data_range in
  let min_ := 0 - data_min * scale_ in
  map (fun x => x * scale_ + min_) col.

(** Lines 190-192. *)
Definition score_enrol (dist_stats : list district_row) : list R :=
  let s_enrol_vol := fit_transform (map enrol_total_vol dist_stats) in
  let s_enrol_stab := fit_transform (map enrol_stability dist_stats) in
  map (fun '(v, s) => 5 / 10 * v + 5 / 10 * s)
      (combine s_enrol_vol s_enrol_stab).

(** Lines 197-201. *)
Definition mbu_ratio (r : district_row) : R :=
  if Rgtb (enrol_child_sum r) 0
  then bio_child_sum r / enrol_child_sum r
  else 0.

Definition score_bio (dist_stats : list district_row) : list R :=
  fit_transform (map mbu_ratio dist_stats).

(** Lines 205-206. *)
Definition score_demo (dist_stats : list district_row) : list R :=
  fit_transform (map demo_total_vol dist_stats).

(** Lines 210-214. *)
Definition score_infra (dist_stats : list district_row) : list R :=
  fit_transform
    (map (fun r => enrol_total_vol r + bio_total_vol r + demo_total_vol r)
         dist_stats).

(** Lines 218-223. *)
Definition health_index (dist_stats : list district_row) : list R :=
  map (fun '(e, b, d, i) =>
         (30 / 100 * e + 35 / 100 * b + 25 / 100 * d + 10 / 100 * i) * 100)
      (combine (combine (combine (score_enrol dist_stats)
                                 (score_bio dist_stats))
                        (score_demo dist_stats))
               (score_infra dist_stats)).

(** *** The same steps in binary64

    numpy and scikit-learn compute lines 185-223 in IEEE 754 binary64, every
    operation rounded to nearest; the scaler is built with its default
    [clip=False].  The operations are those of the source, in the order in
    which numpy evaluates them; the decimal constants are the binary64
    numbers Python reads them as. *)
Module Binary64.
Import PrimFloat.

Record district_row : Type := {
  enrol_total_vol : float;
  enrol_stability : float;
  bio_total_vol : float;
  bio_stability : float;
  demo_total_vol : float;
  enrol_child_sum : float;
  bio_child_sum : float
}.

Definition list_min (l : list float) : float :=
  match l with
  | [] => 0%float
  | x :: l' => fold_left (fun a b => if PrimFloat.ltb b a then b else a) l' x
  end.

Definition list_max (l : list float) : float :=
  match l with
  | [] => 0%float
  | x :: l' => fold_left (fun a b => if PrimFloat.ltb a b then b else a) l' x
  end.

(** [np.finfo(np.float64).eps] *)
Definition eps : float := 0x1p-52%float.

Definition handle_zeros_in_scale (scale : float) : float :=
  if PrimFloat.ltb scale (10 * eps)%float then 1%float else scale.

(** [fit]: [scale_ = (1 - 0) / range], [min_ = 0 - data_min * scale_];
    [transform]: [X *= scale_; X += min_], and no clipping. *)
Definition fit_transform (col : list float) : list float :=
  let data_min := list_min col in
  let data_max := list_max col in
  let data_range := (data_max - data_min)%float in
  let scale_ := ((1 - 0) / handle_zeros_in_scale data_range)%float in
  let min_ := (0 - data_min * scale_)%float in
  map (fun x => (x * scale_ + min_)%float) col.

(** Lines 190-192; 0.5 is a binary64 number. *)
Definition score_enrol (dist_stats : list district_row) : list float :=
  let s_enrol_vol := fit_transform (map enrol_total_vol dist_stats) in
  let s_enrol_stab := fit_transform (map enrol_stability dist_stats) in
  map (fun '(v, s) => (0.5 * v + 0.5 * s)%float)
      (combine s_enrol_vol s_enrol_stab).

(** Lines 197-201. *)
Definition mbu_ratio (r : district_row) : float :=
  if PrimFloat.ltb 0%float (enrol_child_sum r)
  then (bio_child_sum r / enrol_child_sum r)%float
  else 0%float.

Definition score_bio (dist_stats : list district_row) : list float :=
  fit_transform (map mbu_ratio dist_stats).

(** Lines 205-206. *)
Definition score_demo (dist_stats : list district_row) : list float :=
  fit_transform (map demo_total_vol dist_stats).

(** Lines 210-214. *)
Definition score_infra (dist_stats : list district_row) : list float :=
  fit_transform
    (map (fun r => (enrol_total_vol r + bio_total_vol r
                    + demo_total_vol r)%float)
         dist_stats).

(** The weights as Python reads [0.30], [0.35], [0.25] and [0.10]. *)
Definition w_enrol : float := 0x1.3333333333333p-2%float.
Definition w_bio : float := 0x1.6666666666666p-2%float.
Definition w_demo : float := 0x1p-2%float.
Definition w_infra : float := 0x1.999999999999ap-4%float.

(** Lines 218-223. *)
Definition health_index (dist_stats : list district_row) : list float :=
  map (fun '(e, b, d, i) =>
         ((w_enrol * e + w_bio * b + w_demo * d + w_infra * i) * 100)%float)
      (combine (combine (combine (score_enrol dist_stats)
                                 (score_bio dist_stats))
                        (score_demo dist_stats))
               (score_infra dist_stats)).




End Binary64.

(** *** Clustering and ranking (lines 226-233) *)

Inductive risk_category : Type := Critical_Risk | Moderate | Healthy.

(** Position of a label in the fixed order Critical Risk, Moderate,
    Healthy. *)
Definition risk_rank (c : risk_category) : nat :=
  match c with
  | Critical_Risk => 0
  | Moderate => 1
  | Healthy => 2
  end.

Definition Rleb (a b : R) : bool := if Rle_dec a b then true else false.

(** [dist_stats.groupby('cluster')['health_index'].mean()] *)
Definition cluster_means (labels : list nat) (health : list R)
  : list (nat * R) :=
  map (fun g => (fst g, Rsum (snd g) / INR (length (snd g))))
      (groupby Nat.compare (combine labels health)).

(** [... .sort_values().index] *)
Definition cluster_rank (labels : list nat) (health : list R) : list nat :=
  map fst (sort_by (fun a b => Rleb (snd a) (snd b))
                   (cluster_means labels health)).

(** Line 232; fewer than three clusters make the indexing fail. *)
Definition rank_map (cluster_rank : list nat)
  : option (list (nat * risk_category)) :=
  match cluster_rank with
  | c0 :: c1 :: c2 :: _ =>
      Some [(c0, Critical_Risk); (c1, Moderate); (c2, Healthy)]
  | _ => None
  end.

(** [Series.map(rank_map)] on one label; a label outside the map gives a
    missing value. *)
Fixpoint map_label (m : list (nat * risk_category)) (c : nat)
  : option risk_category :=
  match m with
  | [] => None
  | (c', r) :: m' => if Nat.eqb c' c then Some r else map_label m' c
  end.

Record health_row : Type := {
  hr_stats : district_row;
  hr_health_index : R;
  hr_cluster : nat;
  hr_risk_category : option risk_category
}.

(** The scorer.  [kmeans] stands for [KMeans(n_clusters=3, random_state=42,
    n_init=10).fit_predict] of scikit-learn: it receives the rows of [X] and
    returns one label per row, or raises.  The result is [None] when the
    scorer raises. *)
Definition generate_health_index
           (kmeans : list (R * R * R) -> option (list nat)) (df : frame)
  : option (list health_row) :=
  dist_stats <- district_stats df ;;
  match dist_stats with
  | [] => None
  | _ =>
      let health := health_index dist_stats in
      let X := combine (combine (score_enrol dist_stats)
                                (score_bio dist_stats))
                       (score_demo dist_stats) in
      labels <- kmeans X ;;
      if negb (Nat.eqb (length labels) (length dist_stats)) then None
      else
        rank_map <- rank_map (cluster_rank labels health) ;;
        Some (sort_by
                (fun a b => Rleb (hr_health_index a) (hr_health_index b))
                (map (fun '(r, h, c) =>
                        {| hr_stats := r;
                           hr_health_index := h;
                           hr_cluster := c;
                           hr_risk_category := map_label rank_map c |})
                     (combine (combine dist_stats health) labels)))
  end.

(** ** Child-gap reporter ([analyze_mbu_gap]) *)

(** The ten districts with the largest gap between child enrolments and
    child biometric updates; [None] is the early return when the table has
    no enrolment column, [Raised] the [KeyError] on a missing biometric
    column. *)
Definition analyze_mbu_gap (df : frame)
  : outcome (option (list (string * f64))) :=
  if negb (has_column (columns df) "enrol_child_sum") then Returned None
  else if negb (has_column (columns df) "bio_child_sum") then Raised
  else
    let dist :=
      map (fun g =>
             (fst g,
              F64.sub
                (nansum (column_values (columns df) "enrol_child_sum" (snd g)))
                (nansum (column_values (columns df) "bio_child_sum" (snd g)))))
          (groupby String.compare
                   (map (fun r => (snd (district_of (fst r)), r)) (rows df))) in
    Returned (Some (firstn 10 (sort_by (fun a b => f64_desc (snd a) (snd b))
                                       dist))).

(** ** The batch run ([main]) *)

(** What the later stages of a run were handed and what they produced. *)
Record run : Type := {
  run_variance : option variance_report;
  run_health_input : frame;
  run_health : list health_row;
  run_gap_input : frame;
  run_gap : option (list (string * f64))
}.

(** [main] from the cleaned domain tables up to the child-gap stage.  The
    one table [df_pincode_features] is passed to every stage; the state in
    which the variance reporter leaves it is what the later stages read.
    [Returned None] is the early return on an empty feature set, [Raised] an
    exception escaping from a stage. *)
Definition main (kmeans : list (R * R * R) -> option (list nat))
           (df_enrol df_bio df_demo : list norm_row) : outcome (option run) :=
  let df_pincode_features := load_and_engineer_data df_enrol df_bio df_demo in
  if is_empty df_pincode_features then Returned None
  else
    let '(df_pincode_features, variance) :=
      analyze_pincode_variance df_pincode_features in
    match variance with
    | Raised => Raised
    | Returned variance =>
        match generate_health_index kmeans df_pincode_features with
        | None => Raised
        | Some health_df =>
            match analyze_mbu_gap df_pincode_features with
            | Raised => Raised
            | Returned gap =>
                Returned (Some {| run_variance := variance;
                                  run_health_input := df_pincode_features;
                                  run_health := health_df;
                                  run_gap_input := df_pincode_features;
                                  run_gap := gap |})
            end
        end
    end.

(** ** A small merged table

    Three districts with one pincode each, every pincode with a single
    record per domain, in the layout the merger produces for the three
    domains: North Goa enrols 4 children and 5 adults, South Goa enrols one
    child and updates the demographics of 2 children and 2 adults, Idukki
    enrols one child and updates the biometrics of 4 adults. *)
Definition merged_columns : list string :=
  ["enrol_child_sum"; "enrol_child_std"; "enrol_adult_sum"; "enrol_adult_std";
   "enrol_total_vol"; "enrol_stability";
   "bio_child_sum"; "bio_child_std"; "bio_adult_sum"; "bio_adult_std";
   "bio_total_vol"; "bio_stability";
   "demo_child_sum"; "demo_child_std"; "demo_adult_sum"; "demo_adult_std";
   "demo_total_vol"; "demo_stability"]%string.

Definition sample_merged : frame :=
  {| columns := merged_columns;
     rows :=
       [ (("Goa", "North Goa", 403001%Z)%string,
          [Fin 4; Fin 0; Fin 5; Fin 0; Fin 9; Fin 10;
           Fin 0; Fin 0; Fin 0; Fin 0; Fin 0; Fin 0;
           Fin 0; Fin 0; Fin 0; Fin 0; Fin 0; Fin 0]);
         (("Goa", "South Goa", 403601%Z)%string,
          [Fin 1; Fin 0; Fin 0; Fin 0; Fin 1; Fin 10;
           Fin 0; Fin 0; Fin 0; Fin 0; Fin 0; Fin 0;
           Fin 2; Fin 0; Fin 2; Fin 0; Fin 4; Fin 10]);
         (("Kerala", "Idukki", 685501%Z)%string,
          [Fin 1; Fin 0; Fin 0; Fin 0; Fin 1; Fin 10;
           Fin 0; Fin 0; Fin 4; Fin 0; Fin 4; Fin 10;
           Fin 0; Fin 0; Fin 0; Fin 0; Fin 0; Fin 0]) ] |}.

Definition sample_stats : list district_row :=
  [ {| state := "Goa"; district := "North Goa";
       enrol_total_vol := 9; enrol_stability := 10;
       bio_total_vol := 0; bio_stability := 0;
       demo_total_vol := 0; enrol_child_sum := 4; bio_child_sum := 0 |};
    {| state := "Goa"; district := "South Goa";
       enrol_total_vol := 1; enrol_stability := 10;
       bio_total_vol := 0; bio_stability := 0;
       demo_total_vol := 4; enrol_child_sum := 1; bio_child_sum := 0 |};
    {| state := "Kerala"; district := "Idukki";
       enrol_total_vol := 1; enrol_stability := 10;
       bio_total_vol := 4; bio_stability := 10;
       demo_total_vol := 0; enrol_child_sum := 1; bio_child_sum := 0 |} ].

(** On three distinct points and three clusters k-means gives every point a
    cluster of its own; which label a point gets is immaterial. *)
Definition singleton_clusters (X : list (R * R * R)) : option (list nat) :=
  Some (seq 0 (length X)).

(** A merged table with a single pincode: the first row of the sample. *)
Definition single_pincode_table : frame :=
  {| columns := merged_columns; rows := firstn 1 (rows sample_merged) |}.

(** A merged table of one district with two pincodes of the same load. *)
Definition uniform_district_table : frame :=
  {| columns := merged_columns;
     rows :=
       [ (("Goa", "North Goa", 403001%Z)%string,
          [Fin 4; Fin 0; Fin 5; Fin 0; Fin 9; Fin 10;
           Fin 0; Fin 0; Fin 0; Fin 0; Fin 0; Fin 0;
           Fin 0; Fin 0; Fin 0; Fin 0; Fin 0; Fin 0]);
         (("Goa", "North Goa", 403002%Z)%string,
          [Fin 4; Fin 0; Fin 5; Fin 0; Fin 9; Fin 10;
           Fin 0; Fin 0; Fin 0; Fin 0; Fin 0; Fin 0;
           Fin 0; Fin 0; Fin 0; Fin 0; Fin 0; Fin 0]) ] |}.

(** The values grouped under key [k], none when the key has no group. *)
Definition group_of {K V : Type} (cmp : K -> K -> comparison) (k : K)
           (gs : list (K * list V)) : list V :=
  match find (fun g => match cmp k (fst g) with Eq => true | _ => false end)
             gs with
  | Some g => snd g
  | None => []
  end.

(** [mean(health_index | cluster = c)] over the rows the scorer returns. *)
Definition cluster_mean_of (out : list health_row) (c : nat) : R :=
  let hs := map hr_health_index
                (filter (fun r => Nat.eqb (hr_cluster r) c) out) in
  Rsum hs / INR (length hs).

(** ** Notions for the statements about the merger *)

(** The cells of the row under key [k], a row of missing values when the
    frame has no such row: what the frame contributes to an outer join. *)
Definition pad (f : frame) (k : key) : list f64 :=
  match find (fun r => key_eqb (fst r) k) (rows f) with
  | Some r => snd r
  | None => repeat NaN (length (columns f))
  end.

(** A feature table as the feature builder produces it: one row per key,
    one cell per column in every row, distinct column names, and no columns
    at all when there are no rows ([pd.DataFrame()]). *)
Definition well_formed (f : frame) : Prop :=
  NoDup (keys_of f)
  /\ NoDup (columns f)
  /\ Forall (fun r => length (snd r) = length (columns f)) (rows f)
  /\ (rows f = [] -> columns f = []).

Definition disjoint_columns (f g : frame) : Prop :=
  forall c, In c (columns f) -> ~ In c (columns g).


(** Successive outer joins of a list of frames. *)
Definition join_all (l : list frame) : frame :=
  match l with
  | [] => empty_frame
  | x :: l' => fold_left merge_outer l' x
  end.

Definition key_lt (a b : key) : Prop := key_compare a b = Lt.

(** A run of named cells inside a row, and two runs without a common
    name. *)
Definition block : Type := (list string * list f64)%type.

Definition block_disjoint (b1 b2 : block) : Prop :=
  forall c, In c (fst b1) -> ~ In c (fst b2).

(** A small normalized biometric table, with a pincode the enrolment sample
    does not have. *)
Definition sample_bio_table : list norm_row :=
  [ {| nr_state := "Goa"; nr_district := "North Goa"; nr_pincode := 403001;
       nr_cell := fun c => if String.eqb c "bio_child" then 2 else 3 |};
    {| nr_state := "Kerala"; nr_district := "Idukki"; nr_pincode := 685501;
       nr_cell := fun c => if String.eqb c "bio_child" then 0 else 4 |} ].

(** ** Samples for the further properties *)

(** Eleven days: ten ordinary days of 100 and one day of 10,000. *)
Definition eleven_day_series : list (Z * R) :=
  [(1%Z, 100); (2%Z, 100); (3%Z, 100); (4%Z, 100); (5%Z, 100);
   (6%Z, 100); (7%Z, 100); (8%Z, 100); (9%Z, 100); (10%Z, 100);
   (11%Z, 10000)].

(** The first and the second value column of a domain. *)
Definition child_col (d : domain) : string := nth 0 (val_cols_of d) ""%string.
Definition adult_col (d : domain) : string := nth 1 (val_cols_of d) ""%string.

(** The six cells the feature builder derives from the records [g] of one
    pincode: sum and standard deviation of the two value columns, total
    volume and stability. *)
Definition feature_cells (d : domain) (g : list norm_row) : list f64 :=
  let child := map (fun r => nr_cell r (child_col d)) g in
  let adult := map (fun r => nr_cell r (adult_col d)) g in
  [Fin (Rsum child); series_std child; Fin (Rsum adult); series_std adult;
   nansum [Fin (Rsum child); Fin (Rsum adult)];
   stability (nansum [series_std child; series_std adult])
             (nansum [Fin (Rsum child); Fin (Rsum adult)])].

(** The enrolment sample with other infant counters. *)
Definition sample_enrol_table_infants : list norm_row :=
  map (fun r => {| nr_state := nr_state r; nr_district := nr_district r;
                   nr_pincode := nr_pincode r;
                   nr_cell := fun c => if String.eqb c "enrol_infant" then 99
                                       else nr_cell r c |})
      sample_enrol_table.

(** The cleaned table of a domain among the three tables of a run. *)
Definition table_of (d : domain) (df_enrol df_bio df_demo : list norm_row)
  : list norm_row :=
  match d with
  | Enrol => df_enrol
  | Bio => df_bio
  | Demo => df_demo
  end.

(** The summed load of a district in a table with a [total_load] column. *)
Definition district_load (df : frame) (d : district_key) : f64 :=
  nansum (column_values (columns df) "total_load" (district_rows df d)).

(** A merged table of two districts, the second one the busier. *)
Definition two_district_table : frame :=
  {| columns := merged_columns;
     rows :=
       [ (("Goa", "North Goa", 403001%Z)%string,
          [Fin 1; Fin 0; Fin 0; Fin 0; Fin 1; Fin 10;
           Fin 0; Fin 0; Fin 4; Fin 0; Fin 4; Fin 10;
           Fin 0; Fin 0; Fin 0; Fin 0; Fin 0; Fin 0]);
         (("Goa", "South Goa", 403601%Z)%string,
          [Fin 4; Fin 0; Fin 5; Fin 0; Fin 9; Fin 10;
           Fin 0; Fin 0; Fin 0; Fin 0; Fin 0; Fin 0;
           Fin 0; Fin 0; Fin 0; Fin 0; Fin 0; Fin 0]) ] |}.

(** ** State names ([clean_standardize], lines 44 to 50)

    The [state] column holds Python strings, or a missing value ([None]).
    The model covers names written in ASCII ([ascii_only]); on these
    [str.title], [str.strip] and the pattern [\d] act as below. *)

Definition code (c : ascii) : nat := nat_of_ascii c.

Definition is_upper (c : ascii) : bool :=
  ((65 <=? code c) && (code c <=? 90))%nat.

Definition is_lower (c : ascii) : bool :=
  ((97 <=? code c) && (code c <=? 122))%nat.

Definition is_cased (c : ascii) : bool := is_upper c || is_lower c.

Definition to_upper (c : ascii) : ascii :=
  if is_lower c then ascii_of_nat (code c - 32) else c.

Definition to_lower (c : ascii) : ascii :=
  if is_upper c then ascii_of_nat (code c + 32) else c.

(** [str.isspace] on ASCII: tab to carriage return, the four separators
    28 to 31, and the space. *)
Definition is_space (c : ascii) : bool :=
  ((9 <=? code c) && (code c <=? 13) || (28 <=? code c) && (code c <=? 32))%nat.

Definition is_digit (c : ascii) : bool :=
  ((48 <=? code c) && (code c <=? 57))%nat.

Fixpoint ascii_only (s : string) : bool :=
  match s with
  | EmptyString => true
  | String c r => (code c <? 128)%nat && ascii_only r
  end.

(** [str.title]: a character that follows a cased character is lowered,
    any other one is raised. *)
Fixpoint title_from (previous_is_cased : bool) (s : string) : string :=
  match s with
  | EmptyString => EmptyString
  | String c r =>
      String (if previous_is_cased then to_lower c else to_upper c)
             (title_from (is_cased c) r)
  end.

Definition title (s : string) : string := title_from false s.

Fixpoint lstrip (s : string) : string :=
  match s with
  | EmptyString => EmptyString
  | String c r => if is_space c then lstrip r else s
  end.

Fixpoint rstrip (s : string) : string :=
  match s with
  | EmptyString => EmptyString
  | String c r =>
      match rstrip r with
      | EmptyString => if is_space c then EmptyString else String c EmptyString
      | r' => String c r'
      end
  end.

(** [str.strip()] *)
Definition strip (s : string) : string := rstrip (lstrip s).

(** [re.search(r'\d', s)] finds a match. *)
Fixpoint has_digit (s : string) : bool :=
  match s with
  | EmptyString => false
  | String c r => is_digit c || has_digit r
  end.

Definition state_map : list (string * string) :=
  [("Westbengal", "West Bengal"); ("Orissa", "Odisha");
   ("Uttaranchal", "Uttarakhand"); ("Delhi", "NCT Of Delhi");
   ("Tamilnadu", "Tamil Nadu")]%string.

(** [Series.replace(m)] on one value: a value equal to a key is replaced. *)
Definition replace_value (m : list (string * string)) (s : string) : string :=
  match find (fun kv => String.eqb (fst kv) s) m with
  | Some kv => snd kv
  | None => s
  end.

(** The [state] column after lines 45 to 50: title case and strip, the rows
    whose state holds a digit dropped, the known variants renamed.  A
    missing state stays missing and its row is kept ([na=False]). *)
Definition clean_states (state : list (option string))
  : list (option string) :=
  let state := map (option_map (fun s => strip (title s))) state in
  let state := filter (fun o => match o with
                                | Some s => negb (has_digit s)
                                | None => true
                                end) state in
  map (option_map (replace_value state_map)) state.

(** A column differs from another one only in the case of its letters. *)
Fixpoint lower (s : string) : string :=
  match s with
  | EmptyString => EmptyString
  | String c r => String (to_lower c) (lower r)
  end.

Definition ascii_column (state : list (option string)) : Prop :=
  Forall (fun o => match o with
                   | Some s => ascii_only s = true
                   | None => True
                   end) state.

(** Three cleaned domain tables whose merged table is [sample_merged]: one
    enrolment record for each of the three pincodes, one biometric record
    for Idukki and one demographic record for South Goa. *)
Definition run_enrol_table : list norm_row :=
  [ {| nr_state := "Goa"; nr_district := "North Goa"; nr_pincode := 403001;
       nr_cell := fun c => if String.eqb c "enrol_child" then 4 else 5 |};
    {| nr_state := "Goa"; nr_district := "South Goa"; nr_pincode := 403601;
       nr_cell := fun c => if String.eqb c "enrol_child" then 1 else 0 |};
    {| nr_state := "Kerala"; nr_district := "Idukki"; nr_pincode := 685501;
       nr_cell := fun c => if String.eqb c "enrol_child" then 1 else 0 |} ].

Definition run_bio_table : list norm_row :=
  [ {| nr_state := "Kerala"; nr_district := "Idukki"; nr_pincode := 685501;
       nr_cell := fun c => if String.eqb c "bio_child" then 0 else 4 |} ].

Definition run_demo_table : list norm_row :=
  [ {| nr_state := "Goa"; nr_district := "South Goa"; nr_pincode := 403601;
       nr_cell := fun c => if String.eqb c "demo_child" then 2 else 2 |} ].

(** ** Records with a missing key

    A cleaned domain table can hold records whose state, district or
    pincode is missing: the cleaner keeps a row without a state (line 47,
    [na=False]) and looks at neither of the other two key columns.  The
    group-by of line 103, with its default [dropna=True], leaves such
    records out. *)
Record clean_row : Type := {
  cr_state : option string;
  cr_district : option string;
  cr_pincode : option Z;
  cr_cell : string -> R
}.

(** The key of a record, when none of its components is missing. *)
Definition cr_key (r : clean_row) : option key :=
  match cr_state r, cr_district r, cr_pincode r with
  | Some s, Some d, Some p => Some (s, d, p)
  | _, _, _ => None
  end.

(** The records the group-by of line 103 keeps. *)
Definition grouped_records (df : list clean_row) : list norm_row :=
  flat_map (fun r => match cr_key r with
                     | Some (s, d, p) =>
                         [{| nr_state := s; nr_district := d;
                             nr_pincode := p; nr_cell := cr_cell r |}]
                     | None => []
                     end) df.

(** Lines 103-119: the table built from the records of the group-by. *)
Definition pincode_stats (df : list norm_row) (prefix : string)
           (val_cols : list string) : frame :=
  let stats :=
    {| columns := agg_names val_cols;
       rows := map (fun g => (fst g, agg_cells val_cols (snd g)))
                   (groupby key_compare
                            (map (fun r => (nr_key r, r)) df)) |} in
  let sum_cols :=
    filter (contains "sum") (key_columns ++ columns stats) in
  let stats :=
    assign stats (prefix ++ "_total_vol")
           (fun r => nansum (select (columns stats) (snd r) sum_cols)) in
  let std_cols :=
    filter (contains "std") (key_columns ++ columns stats) in
  assign stats (prefix ++ "_stability")
         (fun r =>
            let total_std :=
              nansum (select (columns stats) (snd r) std_cols) in
            match lookup (columns stats) (snd r)
                         (prefix ++ "_total_vol") with
            | Some total_vol => stability total_std total_vol
            | None => NaN
            end).

Module WithMissingKeys.

(** Lines 99-120 on a table whose records can lack a key component: the
    emptiness test of line 99 sees every record, the group-by only those
    with a full key. *)
Definition process_domain_features (df : list clean_row) (prefix : string)
           (val_cols : list string) : frame :=
  match df with
  | [] => empty_frame
  | _ => pincode_stats (grouped_records df) prefix val_cols
  end.

Definition domain_features (d : domain) (df : list clean_row) : frame :=
  process_domain_features df (prefix_of d) (val_cols_of d).

(** Lines 141-161. *)
Definition load_and_engineer_data (df_enrol df_bio df_demo : list clean_row)
  : frame :=
  merge_features (domain_features Enrol df_enrol)
                 (domain_features Bio df_bio)
                 (domain_features Demo df_demo).

End WithMissingKeys.

(** The volume of a record as the group-by sees it. *)
Definition grouped_volume (d : domain) (r : clean_row) : R :=
  match cr_key r with
  | Some _ => cr_cell r (child_col d) + cr_cell r (adult_col d)
  | None => 0
  end.

(** A cleaned enrolment table with a record whose state is missing. *)
Definition stateless_enrol_table : list clean_row :=
  [ {| cr_state := Some "Goa"%string; cr_district := Some "North Goa"%string;
       cr_pincode := Some 403001%Z;
       cr_cell := fun c => if String.eqb c "enrol_child" then 4 else 5 |};
    {| cr_state := None; cr_district := Some "North Goa"%string;
       cr_pincode := Some 403001%Z;
       cr_cell := fun c => if String.eqb c "enrol_child" then 7 else 2 |} ].
(* ===================================================================== *)
(** * Properties *)

(** ** Real-number helpers *)

Lemma Rgtb_true (a b : R) : Rgtb a b = true <-> b < a.
Proof. unfold Rgtb. destruct (Rlt_dec b a); split; intros; try easy. Qed.

Lemma Rgtb_false (a b : R) : Rgtb a b = false <-> a <= b.
Proof.
  unfold Rgtb. destruct (Rlt_dec b a); split; intros; try easy; lra.
Qed.

Lemma Reqb_true (a b : R) : Reqb a b = true <-> a = b.
Proof. unfold Reqb. destruct (Req_dec_T a b); split; intros; easy. Qed.

Lemma Reqb_false (a b : R) : Reqb a b = false <-> a <> b.
Proof. unfold Reqb. destruct (Req_dec_T a b); split; intros; easy. Qed.

Lemma Rsum_app (l1 l2 : list R) : Rsum (l1 ++ l2) = Rsum l1 + Rsum l2.
Proof. induction l1 as [|x l1 IH]; simpl; [lra | rewrite IH; lra]. Qed.

Lemma Rsum_const (v : R) (l : list R) :
  (forall x, In x l -> x = v) -> Rsum l = INR (length l) * v.
Proof.
  induction l as [|x l IH]; intros H.
  - simpl. lra.
  - change (length (x :: l)) with (S (length l)). rewrite S_INR.
    simpl Rsum. rewrite IH by (intros; apply H; now right).
    rewrite (H x) by now left. lra.
Qed.

Lemma sq_dev_nonneg (m : R) (l : list R) : 0 <= sq_dev m l.
Proof.
  unfold sq_dev. induction l as [|x l IH]; simpl; [lra|].
  pose proof (Rle_0_sqr (m - x)) as Hs. unfold Rsqr in Hs. lra.
Qed.

Lemma sq_dev_In (m x : R) (l : list R) :
  In x l -> (x - m) * (x - m) <= sq_dev m l.
Proof.
  unfold sq_dev. induction l as [|y l IH]; simpl; [easy|].
  intros [->|H].
  - pose proof (sq_dev_nonneg m l) as Hn. unfold sq_dev in Hn. nra.
  - specialize (IH H).
    pose proof (Rle_0_sqr (m - y)) as Hs. unfold Rsqr in Hs. lra.
Qed.

Lemma sq_dev_const (v : R) (l : list R) :
  (forall x, In x l -> x = v) -> sq_dev v l = 0.
Proof.
  unfold sq_dev. induction l as [|x l IH]; intros H; simpl; [lra|].
  rewrite IH by (intros; apply H; now right).
  rewrite (H x) by now left. lra.
Qed.

(** ** National anomaly detector *)

Lemma detect_anomalies_nil_iff (daily_ts : list (Z * R)) :
  (forall r, In r (with_z_score daily_ts) -> F64.gtb (z_score r) (Fin 3) = false)
  -> detect_anomalies daily_ts = [].
Proof.
  unfold detect_anomalies. intros H.
  induction (with_z_score daily_ts) as [|r l IH]; simpl; [reflexivity|].
  rewrite (H r) by now left. apply IH. intros; apply H; now right.
Qed.

Lemma z_score_shape (daily_ts : list (Z * R)) (r : daily_row) :
  In r (with_z_score daily_ts) ->
  In (total_vol r) (map snd daily_ts) /\
  z_score r = F64.div (F64.sub (Fin (total_vol r))
                               (series_mean (map snd daily_ts)))
                      (series_std (map snd daily_ts)).
Proof.
  unfold with_z_score. rewrite in_map_iff. intros [p [<- Hp]]. simpl.
  split; [|reflexivity]. apply in_map_iff. now exists p.
Qed.

(** The z-score against a sample standard deviation of [n] observations is
    bounded: [(n - 1) * var] is the whole sum of squared deviations, so a
    single squared deviation never exceeds [(n - 1) * var]. *)
Lemma z_score_not_above_3 (vols : list R) (x : R) :
  (length vols <= 10)%nat -> In x vols ->
  F64.gtb (F64.div (F64.sub (Fin x) (series_mean vols)) (series_std vols))
          (Fin 3) = false.
Proof.
  intros Hlen Hx.
  destruct vols as [|a [|b vols]]; [easy | reflexivity |].
  set (l := a :: b :: vols) in *.
  assert (Hn2 : (2 <= length l)%nat) by (subst l; simpl; lia).
  assert (Hn : 2 <= INR (length l) <= 10).
  { pose proof (le_INR _ _ Hn2) as H1. pose proof (le_INR _ _ Hlen) as H2.
    replace (INR 2) with 2 in H1 by (simpl; lra).
    replace (INR 10) with 10 in H2 by (simpl; lra). lra. }
  unfold series_mean, series_std. fold l.
  change (match l with [] | [_] => NaN | _ => ?e end) with e.
  change (match l with [] => NaN | _ => ?e end) with e.
  set (m := Rsum l / INR (length l)).
  set (q := sq_dev m l / (INR (length l) - 1)).
  pose proof (sq_dev_In m x l Hx) as Hdev.
  pose proof (sq_dev_nonneg m l) as Hss.
  assert (Hq : 0 <= q).
  { unfold q. apply Rmult_le_pos; [assumption|].
    apply Rlt_le, Rinv_0_lt_compat. lra. }
  assert (Hqss : sq_dev m l <= 9 * q).
  { unfold q. unfold Rdiv.
    assert (Hinv : / 9 <= / (INR (length l) - 1)).
    { apply Rinv_le_contravar; lra. }
    nra. }
  simpl F64.sub. unfold F64.div.
  destruct (Reqb (sqrt q) 0) eqn:Hs0.
  - apply Reqb_true in Hs0. apply sqrt_eq_0 in Hs0; [|assumption].
    assert (Hxm : x + - m = 0) by nra.
    rewrite Hxm. unfold Reqb. destruct (Req_dec_T 0 0); [reflexivity | lra].
  - apply Reqb_false in Hs0. simpl. apply Rgtb_false.
    pose proof (sqrt_pos q) as Hsp.
    assert (Hs : 0 < sqrt q) by lra.
    pose proof (sqrt_sqrt q Hq) as Hsq.
    apply Rnot_lt_le. intros Hgt.
    assert (Hx3 : 3 * sqrt q < x + - m).
    { apply (Rmult_lt_compat_r (sqrt q)) in Hgt; [|assumption].
      unfold Rdiv in Hgt. rewrite Rmult_assoc, Rinv_l in Hgt by lra. lra. }
    assert (Hsq9 : 9 * q < (x - m) * (x - m)) by nra.
    lra.
Qed.

Lemma short_series_no_anomaly (daily_ts : list (Z * R)) :
  (length daily_ts <= 10)%nat -> detect_anomalies daily_ts = [].
Proof.
  intros Hlen. apply detect_anomalies_nil_iff. intros r Hr.
  apply z_score_shape in Hr. destruct Hr as [Hin ->].
  apply z_score_not_above_3; [now rewrite length_map | assumption].
Qed.

Lemma constant_series_z_nan (vols : list R) (x : R) :
  (forall a b, In a vols -> In b vols -> a = b) -> In x vols ->
  F64.gtb (F64.div (F64.sub (Fin x) (series_mean vols)) (series_std vols))
          (Fin 3) = false.
Proof.
  intros Hconst Hx.
  assert (Hall : forall a, In a vols -> a = x) by (intros; now apply Hconst).
  destruct vols as [|a [|b vols]]; [easy | reflexivity |].
  set (l := a :: b :: vols) in *.
  assert (Hn : 2 <= INR (length l)).
  { assert (H2 : (2 <= length l)%nat) by (subst l; simpl; lia).
    apply le_INR in H2. replace (INR 2) with 2 in H2 by (simpl; lra). lra. }
  unfold series_mean, series_std. fold l.
  change (match l with [] | [_] => NaN | _ => ?e end) with e.
  change (match l with [] => NaN | _ => ?e end) with e.
  rewrite (Rsum_const x l Hall).
  replace (INR (length l) * x / INR (length l)) with x by (field; lra).
  rewrite (sq_dev_const x l Hall).
  replace (0 / (INR (length l) - 1)) with 0 by (field; lra).
  rewrite sqrt_0. simpl F64.sub. unfold F64.div.
  replace (x + - x) with 0 by ring.
  unfold Reqb. destruct (Req_dec_T 0 0); [reflexivity | lra].
Qed.

(** C5: a daily national volume series in which all days carry the same value
    (fewer than two distinct values, the empty and the one-day series
    included) yields no anomalous day.  The standard deviation is 0, or NaN
    for fewer than two days, the z-score is NaN, and [NaN > 3] is false; the
    detector is a total function, the division raises nothing. *)
Theorem C5_constant_series_no_anomaly (daily_ts : list (Z * R)) :
  (forall r1 r2, In r1 daily_ts -> In r2 daily_ts -> snd r1 = snd r2) ->
  detect_anomalies daily_ts = [].
Proof.
  intros Hconst. apply detect_anomalies_nil_iff. intros r Hr.
  apply z_score_shape in Hr. destruct Hr as [Hin ->].
  apply constant_series_z_nan; [|assumption].
  intros a b Ha Hb. apply in_map_iff in Ha, Hb.
  destruct Ha as [ra [<- Ha]], Hb as [rb [<- Hb]]. now apply Hconst.
Qed.

Lemma C5_witness :
  detect_anomalies [(1%Z, 250); (2%Z, 250); (3%Z, 250)] = [].
Proof.
  apply C5_constant_series_no_anomaly.
  intros r1 r2 H1 H2. simpl in H1, H2.
  repeat (destruct H1 as [<-|H1]); try easy;
    repeat (destruct H2 as [<-|H2]); try easy.
Defined.

(** The ten-day series of the scenario: nine ordinary days and one spike. *)
Lemma C7_counterexample :
  ~ exists r,
      In r (detect_anomalies
              [(1%Z, 100); (2%Z, 100); (3%Z, 100); (4%Z, 100); (5%Z, 100);
               (6%Z, 100); (7%Z, 100); (8%Z, 100); (9%Z, 100);
               (10%Z, 10000)])
      /\ total_vol r = 10000.
Proof.
  rewrite short_series_no_anomaly by (simpl; lia).
  intros [r [[] _]].
Qed.

(** C7 (amended): in a ten-day series with nine values in [90, 110] and one
    value of 10,000 the detector flags no day at all.  The z-score is taken
    against the sample standard deviation of the full series, spike included,
    which keeps every z-score of a ten-point series at or below 3; the other
    nine days are not flagged either. *)
Theorem C7_ten_day_spike_not_flagged
        (before after : list (Z * R)) (d : Z) :
  (length before + length after = 9)%nat ->
  (forall r, In r (before ++ after) -> 90 <= snd r <= 110) ->
  detect_anomalies (before ++ (d, 10000) :: after) = [].
Proof.
  intros Hlen _. apply short_series_no_anomaly.
  rewrite length_app. simpl. lia.
Qed.

Lemma C7_witness :
  detect_anomalies
    ([(1%Z, 90); (2%Z, 110); (3%Z, 100)]
       ++ (4%Z, 10000)
       :: [(5%Z, 95); (6%Z, 105); (7%Z, 100); (8%Z, 100); (9%Z, 90);
           (10%Z, 110)]) = [].
Proof.
  apply C7_ten_day_spike_not_flagged.
  - reflexivity.
  - intros r Hr. simpl in Hr.
    repeat (destruct Hr as [<-|Hr]; [simpl; lra|]). destruct Hr.
Defined.

(** ** Pincode feature builder *)

Lemma series_std_shape (l : list R) : std_shape (series_std l).
Proof.
  destruct l as [|a [|b l]]; [now left | now left |].
  right. eexists. split; [reflexivity | apply sqrt_pos].
Qed.

Lemma domain_features_columns (d : domain) (df : list norm_row) :
  df <> [] ->
  columns (domain_features d df) =
  agg_names (val_cols_of d)
    ++ [(prefix_of d ++ "_total_vol")%string;
        (prefix_of d ++ "_stability")%string].
Proof.
  destruct df as [|r0 df]; [easy|]. intros _. destruct d; reflexivity.
Qed.

Lemma domain_features_row (d : domain) (df : list norm_row)
      (r : key * list f64) :
  In r (rows (domain_features d df)) ->
  exists (x1 x2 : R) (sd1 sd2 : f64),
    std_shape sd1 /\ std_shape sd2 /\
    snd r = [Fin x1; sd1; Fin x2; sd2;
             nansum [Fin x1; Fin x2];
             stability (nansum [sd1; sd2]) (nansum [Fin x1; Fin x2])].
Proof.
  destruct df as [|r0 df]; [intros []|].
  unfold domain_features, process_domain_features.
  set (gs := groupby key_compare (map (fun r => (nr_key r, r)) (r0 :: df))).
  unfold assign. cbn [rows columns].
  rewrite !map_map. rewrite in_map_iff. intros [g [<- _]]. cbn [fst snd].
  destruct d; cbn [val_cols_of prefix_of agg_cells agg_names flat_map app].
  all: do 4 eexists; split; [apply series_std_shape|];
    split; [apply series_std_shape|]; reflexivity.
Qed.

Lemma nansum_std_pair (sd1 sd2 : f64) :
  std_shape sd1 -> std_shape sd2 ->
  exists t, nansum [sd1; sd2] = Fin t /\ 0 <= t.
Proof.
  intros [->|[s1 [-> H1]]] [->|[s2 [-> H2]]]; simpl;
    eexists; (split; [reflexivity | lra]).
Qed.

Lemma div_fin (a b : R) : b <> 0 -> F64.div (Fin a) (Fin b) = Fin (a / b).
Proof.
  intros Hb. unfold F64.div. apply Reqb_false in Hb. now rewrite Hb.
Qed.

Lemma stability_positive_volume (t v : R) :
  0 <= t -> 0 < v ->
  exists s, stability (Fin t) (Fin v) = Fin s /\ 0 < s <= 10.
Proof.
  intros Ht Hv. unfold stability.
  change (F64.gtb (Fin v) (Fin 0)) with (Rgtb v 0).
  assert (Hg : Rgtb v 0 = true) by now apply Rgtb_true.
  rewrite Hg.
  change (F64.add (Fin v) (Fin 1)) with (Fin (v + 1)).
  rewrite div_fin by lra.
  change (F64.add (Fin (t / (v + 1))) (Fin (1 / 10)))
    with (Fin (t / (v + 1) + 1 / 10)).
  assert (Hq : 0 <= t / (v + 1)).
  { apply Rmult_le_pos; [assumption|]. apply Rlt_le, Rinv_0_lt_compat. lra. }
  rewrite div_fin by lra.
  eexists. split; [reflexivity|].
  set (den := t / (v + 1) + 1 / 10) in *.
  assert (Hden : 1 / 10 <= den) by (unfold den; lra).
  split.
  - apply Rdiv_lt_0_compat; lra.
  - apply (Rmult_le_reg_r den); [lra|].
    unfold Rdiv. rewrite Rmult_assoc, Rinv_l by lra. lra.
Qed.

Lemma stability_no_volume (ts : f64) (v : R) :
  v <= 0 -> stability ts (Fin v) = Fin 0.
Proof.
  intros Hv. unfold stability. simpl F64.gtb.
  assert (Hg : Rgtb v 0 = false) by now apply Rgtb_false.
  now rewrite Hg.
Qed.

(** C8: in every row of the feature table of a non-empty domain table, the
    [{domain}_total_vol] cell is the sum of the row's [{c}_sum] cells, [c]
    ranging over the value columns of the domain. *)
Theorem C8_total_vol_is_sum_of_sums
        (d : domain) (df : list norm_row) (r : key * list f64) :
  df <> [] ->
  In r (rows (domain_features d df)) ->
  exists sums : list R,
    map (fun c => lookup (columns (domain_features d df)) (snd r)
                         (c ++ "_sum")%string)
        (val_cols_of d)
    = map (fun s => Some (Fin s)) sums
    /\ lookup (columns (domain_features d df)) (snd r)
              (prefix_of d ++ "_total_vol")%string
       = Some (Fin (Rsum sums)).
Proof.
  intros Hne Hr. rewrite (domain_features_columns d df Hne).
  destruct (domain_features_row d df r Hr)
    as [x1 [x2 [sd1 [sd2 [_ [_ ->]]]]]].
  exists [x1; x2]. destruct d; split; reflexivity.
Qed.

Lemma C8_witness :
  exists r sums,
    In r (rows (domain_features Enrol sample_enrol_table))
    /\ map (fun c => lookup (columns (domain_features Enrol sample_enrol_table))
                            (snd r) (c ++ "_sum")%string)
           (val_cols_of Enrol)
       = map (fun s => Some (Fin s)) sums
    /\ lookup (columns (domain_features Enrol sample_enrol_table)) (snd r)
              "enrol_total_vol"%string
       = Some (Fin (Rsum sums)).
Proof.
  eexists.
  assert (Hin : In (hd (("", "", 0%Z)%string, [])
                       (rows (domain_features Enrol sample_enrol_table)))
                   (rows (domain_features Enrol sample_enrol_table)))
    by (left; reflexivity).
  destruct (C8_total_vol_is_sum_of_sums Enrol sample_enrol_table _
              ltac:(discriminate) Hin) as [sums [H1 H2]].
  exists sums. split; [exact Hin|]. split; assumption.
Defined.

(** C2: in every row of the feature table of a non-empty domain table the
    [{domain}_stability] cell is a number, never a missing value: it lies in
    (0, 10] when the row's [{domain}_total_vol] is positive and is 0 when
    the volume is 0.  A pincode with a single record has NaN standard
    deviations; the row-wise sum skips them, so they do not reach the
    stability formula. *)
Theorem C2_stability_range
        (d : domain) (df : list norm_row) (r : key * list f64) :
  df <> [] ->
  In r (rows (domain_features d df)) ->
  exists v s : R,
    lookup (columns (domain_features d df)) (snd r)
           (prefix_of d ++ "_total_vol")%string = Some (Fin v)
    /\ lookup (columns (domain_features d df)) (snd r)
              (prefix_of d ++ "_stability")%string = Some (Fin s)
    /\ (0 < v -> 0 < s <= 10)
    /\ (v = 0 -> s = 0).
Proof.
  intros Hne Hr. rewrite (domain_features_columns d df Hne).
  destruct (domain_features_row d df r Hr)
    as [x1 [x2 [sd1 [sd2 [Hs1 [Hs2 ->]]]]]].
  destruct (nansum_std_pair sd1 sd2 Hs1 Hs2) as [t [-> Ht]].
  change (nansum [Fin x1; Fin x2]) with (Fin (x1 + (x2 + 0))).
  set (v := x1 + (x2 + 0)).
  destruct (Rlt_dec 0 v) as [Hv|Hv].
  - destruct (stability_positive_volume t v Ht Hv) as [s [Hs Hb]].
    exists v, s. rewrite Hs.
    repeat split; try (destruct d; reflexivity); try tauto. lra.
  - exists v, 0. rewrite stability_no_volume by lra.
    repeat split; try (destruct d; reflexivity); try lra.
Qed.

Lemma C2_witness :
  exists r v s,
    In r (rows (domain_features Enrol sample_enrol_table))
    /\ lookup (columns (domain_features Enrol sample_enrol_table)) (snd r)
              "enrol_total_vol"%string = Some (Fin v)
    /\ lookup (columns (domain_features Enrol sample_enrol_table)) (snd r)
              "enrol_stability"%string = Some (Fin s)
    /\ (0 < v -> 0 < s <= 10)
    /\ (v = 0 -> s = 0).
Proof.
  eexists.
  assert (Hin : In (hd (("", "", 0%Z)%string, [])
                       (rows (domain_features Enrol sample_enrol_table)))
                   (rows (domain_features Enrol sample_enrol_table)))
    by (left; reflexivity).
  destruct (C2_stability_range Enrol sample_enrol_table _
              ltac:(discriminate) Hin) as [v [s H]].
  exists v, s. split; [exact Hin | exact H].
Defined.

(** ** Domain merger *)

Lemma is_empty_fillna (f : frame) : is_empty (fillna f) = is_empty f.
Proof. unfold is_empty, fillna. simpl. now destruct (rows f). Qed.

Lemma fillna0_id (x : f64) : F64.isnan x = false -> F64.fillna0 x = x.
Proof. now destruct x. Qed.

Lemma fillna_id (f : frame) :
  (forall r x, In r (rows f) -> In x (snd r) -> F64.isnan x = false) ->
  fillna f = f.
Proof.
  destruct f as [cols rs]. unfold fillna. simpl. intros H. f_equal.
  induction rs as [|[k cells] rs IH]; [reflexivity|]. simpl. f_equal.
  - f_equal. assert (Hc : forall x, In x cells -> F64.isnan x = false).
    { intros x Hx. apply (H (k, cells)); [now left | exact Hx]. }
    clear H IH. induction cells as [|x cells IH]; [reflexivity|].
    simpl. rewrite fillna0_id by (apply Hc; now left).
    f_equal. apply IH. intros; apply Hc; now right.
  - apply IH. intros r x Hr. apply H. now right.
Qed.

(** The feature table of the sample has a pincode with a single record; its
    standard-deviation cells are NaN and the merger replaces them. *)
Lemma C4_counterexample :
  is_empty (domain_features Enrol sample_enrol_table) = false
  /\ merge_features (domain_features Enrol sample_enrol_table)
                    empty_frame empty_frame
     <> domain_features Enrol sample_enrol_table.
Proof.
  split; [reflexivity|]. intros H.
  apply (f_equal (fun f => map (fun r => F64.isnan (nth 1 (snd r) (Fin 0)))
                               (rows f))) in H.
  discriminate H.
Qed.

(** C4 (amended): when all three feature tables are empty the merger returns
    an empty table; when exactly one is non-empty no join is performed and
    the merger returns that table after [fillna(0)], that is with every NaN
    cell replaced by 0, and unchanged when it holds no NaN cell. *)
Theorem C4_merge_degenerate (feat_enrol feat_bio feat_demo : frame) :
  (is_empty feat_enrol = true -> is_empty feat_bio = true ->
   is_empty feat_demo = true ->
   is_empty (merge_features feat_enrol feat_bio feat_demo) = true)
  /\ (is_empty feat_enrol = false -> is_empty feat_bio = true ->
      is_empty feat_demo = true ->
      merge_features feat_enrol feat_bio feat_demo = fillna feat_enrol)
  /\ (is_empty feat_enrol = true -> is_empty feat_bio = false ->
      is_empty feat_demo = true ->
      merge_features feat_enrol feat_bio feat_demo = fillna feat_bio)
  /\ (is_empty feat_enrol = true -> is_empty feat_bio = true ->
      is_empty feat_demo = false ->
      merge_features feat_enrol feat_bio feat_demo = fillna feat_demo)
  /\ (forall f,
         (forall r x, In r (rows f) -> In x (snd r) -> F64.isnan x = false) ->
         fillna f = f).
Proof.
  unfold merge_features.
  repeat split; try (intros He Hb Hd; rewrite ?He, ?Hb, ?Hd; simpl;
                     rewrite ?He, ?Hb, ?Hd, ?is_empty_fillna; simpl;
                     rewrite ?He, ?Hb, ?Hd; reflexivity).
  apply fillna_id.
Qed.

(** ** District health scorer: the index *)

Lemma fold_left_Rmin_le (l : list R) (a : R) :
  fold_left Rmin l a <= a /\ forall x, In x l -> fold_left Rmin l a <= x.
Proof.
  revert a. induction l as [|y l IH]; intros a; simpl.
  - split; [lra | intros x []].
  - destruct (IH (Rmin a y)) as [H1 H2].
    pose proof (Rmin_l a y). pose proof (Rmin_r a y).
    split; [lra|]. intros x [<-|Hx]; [lra | now apply H2].
Qed.

Lemma fold_left_Rmax_ge (l : list R) (a : R) :
  a <= fold_left Rmax l a /\ forall x, In x l -> x <= fold_left Rmax l a.
Proof.
  revert a. induction l as [|y l IH]; intros a; simpl.
  - split; [lra | intros x []].
  - destruct (IH (Rmax a y)) as [H1 H2].
    pose proof (Rmax_l a y). pose proof (Rmax_r a y).
    split; [lra|]. intros x [<-|Hx]; [lra | now apply H2].
Qed.

Lemma Rlist_min_le (l : list R) (x : R) : In x l -> Rlist_min l <= x.
Proof.
  destruct l as [|a l]; [intros []|]. simpl.
  destruct (fold_left_Rmin_le l a) as [H1 H2].
  intros [<-|Hx]; [assumption | now apply H2].
Qed.

Lemma Rlist_max_ge (l : list R) (x : R) : In x l -> x <= Rlist_max l.
Proof.
  destruct l as [|a l]; [intros []|]. simpl.
  destruct (fold_left_Rmax_ge l a) as [H1 H2].
  intros [<-|Hx]; [assumption | now apply H2].
Qed.

Lemma eps_bounds : 0 < eps /\ 10 * eps <= 1.
Proof.
  unfold eps.
  assert (H : 16 <= 2 ^ 52).
  { replace 16 with (2 ^ 4) by (simpl; lra).
    apply Rle_pow; [lra | lia]. }
  assert (Hp : 0 < / 2 ^ 52) by (apply Rinv_0_lt_compat; lra).
  split; [assumption|].
  assert (Hi : / 2 ^ 52 <= / 16) by (apply Rinv_le_contravar; lra).
  lra.
Qed.


Lemma fit_transform_length (col : list R) :
  length (fit_transform col) = length col.
Proof. unfold fit_transform. apply length_map. Qed.



Lemma score_enrol_length (dist_stats : list district_row) :
  length (score_enrol dist_stats) = length dist_stats.
Proof.
  unfold score_enrol.
  rewrite length_map, length_combine, !fit_transform_length, !length_map.
  apply Nat.min_id.
Qed.

Lemma health_index_length (dist_stats : list district_row) :
  length (health_index dist_stats) = length dist_stats.
Proof.
  unfold health_index, score_bio, score_demo, score_infra.
  rewrite length_map, !length_combine, score_enrol_length,
    !fit_transform_length, !length_map.
  rewrite !Nat.min_id. reflexivity.
Qed.

Lemma sort_insert_perm {A : Type} (before : A -> A -> bool) (x : A)
      (l : list A) :
  Permutation (sort_insert before x l) (x :: l).
Proof.
  induction l as [|y l IH]; simpl; [reflexivity|].
  destruct (before x y); [reflexivity|].
  rewrite IH. apply perm_swap.
Qed.

Lemma sort_by_perm {A : Type} (before : A -> A -> bool) (l : list A) :
  Permutation (sort_by before l) l.
Proof.
  induction l as [|x l IH]; simpl; [reflexivity|].
  rewrite sort_insert_perm. now constructor.
Qed.

Lemma as_real_Fin (x : R) (y : R) : x = y -> as_real (Fin x) = Some y.
Proof. now intros ->. Qed.

Lemma sample_district_stats : district_stats sample_merged = Some sample_stats.
Proof.
  unfold district_stats, sample_stats.
  cbn -[as_real F64.div Rplus INR].
  unfold nan_mean. cbn -[as_real F64.div Rplus INR].
  rewrite !div_fin by (simpl; lra).
  cbn [as_real bind sequence].
  repeat f_equal; simpl; try field; try lra.
Qed.

Lemma generate_health_index_rows
      (kmeans : list (R * R * R) -> option (list nat)) (df : frame)
      (out : list health_row) :
  generate_health_index kmeans df = Some out ->
  exists dist_stats labels m,
    district_stats df = Some dist_stats
    /\ kmeans (combine (combine (score_enrol dist_stats)
                                (score_bio dist_stats))
                       (score_demo dist_stats)) = Some labels
    /\ length labels = length dist_stats
    /\ rank_map (cluster_rank labels (health_index dist_stats)) = Some m
    /\ Permutation out
         (map (fun '(r, h, c) =>
                 {| hr_stats := r; hr_health_index := h; hr_cluster := c;
                    hr_risk_category := map_label m c |})
              (combine (combine dist_stats (health_index dist_stats))
                       labels)).
Proof.
  unfold generate_health_index.
  destruct (district_stats df) as [dist_stats|]; [|discriminate].
  cbn [bind]. destruct dist_stats as [|r0 rs]; [discriminate|].
  set (ds := r0 :: rs).
  destruct (kmeans _) as [labels|] eqn:Hk; [|discriminate]. cbn [bind].
  destruct (Nat.eqb (length labels) (length ds)) eqn:Hlen; [|discriminate].
  cbn [negb]. apply Nat.eqb_eq in Hlen.
  destruct (rank_map _) as [m|] eqn:Hm; [|discriminate]. cbn [bind].
  intros [= <-]. exists ds, labels, m.
  repeat split; try assumption; try reflexivity.
  apply sort_by_perm.
Qed.




Lemma C4_witness :
  is_empty (merge_features empty_frame empty_frame empty_frame) = true
  /\ merge_features (domain_features Enrol sample_enrol_table)
                    empty_frame empty_frame
     = fillna (domain_features Enrol sample_enrol_table).
Proof.
  split.
  - apply (C4_merge_degenerate empty_frame empty_frame empty_frame);
      reflexivity.
  - apply (C4_merge_degenerate (domain_features Enrol sample_enrol_table)
                               empty_frame empty_frame); reflexivity.
Defined.

(** ** Assignment of a column *)

Lemma has_column_cons (n : string) (cols : list string) (c : string) :
  has_column (n :: cols) c = (String.eqb n c || has_column cols c)%bool.
Proof. unfold has_column. simpl. now rewrite String.eqb_sym. Qed.

Lemma has_column_app (l1 l2 : list string) (c : string) :
  has_column (l1 ++ l2) c = (has_column l1 c || has_column l2 c)%bool.
Proof. unfold has_column. apply existsb_app. Qed.

Lemma has_column_lookup (cols : list string) (cells : list f64) (c : string) :
  length cells = length cols ->
  has_column cols c = true -> exists v, lookup cols cells c = Some v.
Proof.
  revert cells. induction cols as [|n cols IH]; intros cells Hlen Hc.
  - discriminate.
  - destruct cells as [|x cells]; [discriminate|].
    rewrite has_column_cons in Hc. simpl.
    destruct (String.eqb n c); [now exists x|].
    simpl in Hc. apply IH; [now injection Hlen | assumption].
Qed.

Lemma lookup_set_cell_same (cols : list string) (cells : list f64)
      (c : string) (v : f64) :
  length cells = length cols ->
  lookup (if has_column cols c then cols else cols ++ [c])
         (set_cell cols cells c v) c = Some v.
Proof.
  revert cells. induction cols as [|n cols IH]; intros cells Hlen.
  - destruct cells; [|discriminate]. simpl. now rewrite String.eqb_refl.
  - destruct cells as [|x cells]; [discriminate|].
    injection Hlen as Hlen. specialize (IH cells Hlen).
    rewrite has_column_cons. simpl.
    destruct (String.eqb n c) eqn:Hn; simpl.
    + now rewrite Hn.
    + destruct (has_column cols c); simpl; now rewrite Hn.
Qed.

Lemma lookup_set_cell_other (cols : list string) (cells : list f64)
      (c c' : string) (v : f64) :
  c' <> c -> length cells = length cols ->
  lookup (if has_column cols c then cols else cols ++ [c])
         (set_cell cols cells c v) c' = lookup cols cells c'.
Proof.
  intros Hne. revert cells.
  induction cols as [|n cols IH]; intros cells Hlen.
  - destruct cells; [|discriminate]. simpl.
    apply String.eqb_neq in Hne. rewrite String.eqb_sym in Hne. now rewrite Hne.
  - destruct cells as [|x cells]; [discriminate|].
    injection Hlen as Hlen. specialize (IH cells Hlen).
    rewrite has_column_cons. simpl.
    destruct (String.eqb n c) eqn:Hn; simpl.
    + apply String.eqb_eq in Hn. subst n.
      apply String.eqb_neq in Hne. rewrite String.eqb_sym in Hne.
      now rewrite Hne.
    + destruct (has_column cols c); simpl;
        destruct (String.eqb n c'); try reflexivity; exact IH.
Qed.

Lemma has_column_assign (f : frame) (c c' : string)
      (g : key * list f64 -> f64) :
  has_column (columns (assign f c g)) c' =
  (String.eqb c c' || has_column (columns f) c')%bool.
Proof.
  unfold assign. cbn [columns].
  destruct (has_column (columns f) c) eqn:Hc.
  - destruct (String.eqb c c') eqn:Hcc; [|reflexivity].
    apply String.eqb_eq in Hcc. subst c'. now rewrite Hc.
  - rewrite has_column_app. unfold has_column at 2. simpl.
    rewrite orb_false_r, (String.eqb_sym c' c). apply orb_comm.
Qed.

(** ** Intra-district variance reporter *)

Lemma variance_state (df : frame) :
  fst (analyze_pincode_variance df) =
  if has_column (columns df) "enrol_total_vol"
     && has_column (columns df) "bio_total_vol"
     && has_column (columns df) "demo_total_vol"
  then with_total_load df else df.
Proof.
  unfold analyze_pincode_variance.
  destruct (_ && _ && _)%bool; [|reflexivity].
  destruct (busiest_district _); [|reflexivity].
  destruct (district_rows _ _); reflexivity.
Qed.

Lemma has_total_load (df : frame) :
  has_column (columns (with_total_load df)) "total_load" = true.
Proof.
  unfold with_total_load. rewrite has_column_assign.
  now rewrite String.eqb_refl.
Qed.

Lemma variance_returned (df df' : frame) (o : option variance_report) :
  analyze_pincode_variance df = (df', Returned o) ->
  df' = with_total_load df
  /\ has_column (columns df') "total_load" = true.
Proof.
  unfold analyze_pincode_variance.
  destruct (_ && _ && _)%bool; [|discriminate].
  pose proof (has_total_load df) as Hc.
  destruct (busiest_district _); [|discriminate].
  destruct (district_rows _ _); intros [= <- _]; now split.
Qed.

Lemma variance_report_cv (df df' : frame) (rep : variance_report) :
  analyze_pincode_variance df = (df', Returned (Some rep)) ->
  exists subset,
    Permutation subset
      (district_rows df' (top_state rep, top_district rep))
    /\ cv rep = coefficient_of_variation
                  (column_values (columns df') "total_load" subset).
Proof.
  unfold analyze_pincode_variance.
  destruct (_ && _ && _)%bool; [|discriminate].
  destruct (busiest_district _) as [top|]; [|discriminate].
  destruct (district_rows (with_total_load df) top) as [|r0 rs] eqn:Hsub;
    [discriminate|].
  intros H. injection H as <- <-. cbn [top_state top_district cv].
  eexists. split; [|reflexivity].
  rewrite <- surjective_pairing, Hsub. apply (sort_by_perm _ (r0 :: rs)).
Qed.

Lemma fold_add_repeat (v : R) (n : nat) :
  fold_right F64.add (Fin 0) (repeat (Fin v) n) = Fin (INR n * v).
Proof.
  induction n as [|n IH].
  - simpl. f_equal. lra.
  - rewrite S_INR. cbn [repeat fold_right]. rewrite IH. simpl. f_equal. lra.
Qed.

Lemma dropna_repeat (v : R) (n : nat) :
  dropna (repeat (Fin v) n) = repeat (Fin v) n.
Proof. induction n as [|n IH]; simpl; [reflexivity | now f_equal]. Qed.

Lemma reals_of_repeat (v : R) (n : nat) :
  reals_of (repeat (Fin v) n) = Some (repeat v n).
Proof. induction n as [|n IH]; simpl; [reflexivity | now rewrite IH]. Qed.

Lemma series_std_repeat (v : R) (n : nat) :
  (2 <= n)%nat -> series_std (repeat v n) = Fin 0.
Proof.
  intros Hn. destruct n as [|[|n]]; try lia.
  set (l := repeat v (S (S n))).
  assert (Hall : forall x, In x l -> x = v) by (intros x; apply repeat_spec).
  assert (Hlen : 2 <= INR (length l)).
  { unfold l. rewrite repeat_length. apply le_INR in Hn.
    replace (INR 2) with 2 in Hn by (simpl; lra). exact Hn. }
  change (series_std l)
    with (Fin (sqrt (sq_dev (Rsum l / INR (length l)) l
                     / (INR (length l) - 1)))).
  rewrite (Rsum_const v l Hall).
  replace (INR (length l) * v / INR (length l)) with v by (field; lra).
  rewrite (sq_dev_const v l Hall).
  replace (0 / (INR (length l) - 1)) with 0 by (field; lra).
  now rewrite sqrt_0.
Qed.

Lemma nan_mean_repeat (v : R) (n : nat) :
  (0 < n)%nat -> nan_mean (repeat (Fin v) n) = Fin v.
Proof.
  intros Hn. unfold nan_mean. rewrite dropna_repeat.
  destruct (repeat (Fin v) n) as [|x l] eqn:E.
  { destruct n; [lia | discriminate]. }
  rewrite <- E, fold_add_repeat, repeat_length.
  assert (Hpos : 0 < INR n) by (apply lt_0_INR; lia).
  rewrite div_fin by lra. f_equal. field. lra.
Qed.

(** A uniform load over at least two pincodes has a zero coefficient of
    variation. *)
Lemma cv_uniform (loads : list f64) (v : R) :
  (2 <= length loads)%nat ->
  (forall x, In x loads -> x = Fin v) ->
  coefficient_of_variation loads = Fin 0.
Proof.
  intros Hn Hall.
  assert (Hrep : loads = repeat (Fin v) (length loads)).
  { apply Forall_eq_repeat. apply Forall_forall. intros x Hx.
    symmetry. now apply Hall. }
  set (n := length loads) in *. rewrite Hrep.
  unfold coefficient_of_variation, nan_std.
  rewrite dropna_repeat, reals_of_repeat, series_std_repeat by assumption.
  rewrite nan_mean_repeat by lia.
  destruct (F64.gtb _ _) eqn:Hg; [|reflexivity].
  apply Rgtb_true in Hg. rewrite div_fin by lra. f_equal. unfold Rdiv. ring.
Qed.

Lemma F64_add_comm (a b : f64) : F64.add a b = F64.add b a.
Proof. destruct a, b; simpl; try reflexivity. f_equal. lra. Qed.

Lemma F64_add_assoc (a b c : f64) :
  F64.add a (F64.add b c) = F64.add (F64.add a b) c.
Proof. destruct a, b, c; simpl; try reflexivity. f_equal. lra. Qed.

Lemma fold_add_perm (l l' : list f64) :
  Permutation l l' ->
  fold_right F64.add (Fin 0) l = fold_right F64.add (Fin 0) l'.
Proof.
  induction 1 as [|x l l' _ IH|x y l|l l' l'' _ IH1 _ IH2]; simpl.
  - reflexivity.
  - now rewrite IH.
  - rewrite !F64_add_assoc. f_equal. apply F64_add_comm.
  - now rewrite IH1.
Qed.

Lemma filter_perm {A : Type} (p : A -> bool) (l l' : list A) :
  Permutation l l' -> Permutation (filter p l) (filter p l').
Proof.
  induction 1 as [|x l l' _ IH|x y l|l l' l'' _ IH1 _ IH2]; simpl.
  - reflexivity.
  - destruct (p x); [now constructor | assumption].
  - destruct (p x), (p y); try reflexivity. apply perm_swap.
  - now rewrite IH1.
Qed.

Lemma Rsum_perm (l l' : list R) : Permutation l l' -> Rsum l = Rsum l'.
Proof.
  induction 1 as [|x l l' _ IH|x y l|l l' l'' _ IH1 _ IH2]; simpl; lra.
Qed.

Lemma series_std_unfold (l : list R) :
  series_std l =
  if (length l <=? 1)%nat then NaN
  else Fin (sqrt (sq_dev (Rsum l / INR (length l)) l / (INR (length l) - 1))).
Proof. destruct l as [|a [|b l]]; reflexivity. Qed.

Lemma series_std_perm (l l' : list R) :
  Permutation l l' -> series_std l = series_std l'.
Proof.
  intros H. rewrite !series_std_unfold.
  rewrite (Permutation_length H), (Rsum_perm _ _ H).
  unfold sq_dev.
  rewrite (Rsum_perm _ _ (Permutation_map _ H)). reflexivity.
Qed.

Lemma reals_of_perm (l l' : list f64) :
  Permutation l l' ->
  match reals_of l, reals_of l' with
  | Some xs, Some xs' => Permutation xs xs'
  | None, None => True
  | _, _ => False
  end.
Proof.
  induction 1 as [|x l l' _ IH|x y l|l l' l'' _ IH1 _ IH2]; simpl.
  - constructor.
  - destruct x; try exact I.
    destruct (reals_of l), (reals_of l'); simpl; try easy. now constructor.
  - destruct x, y; try exact I; destruct (reals_of l); simpl; try exact I.
    apply perm_swap.
  - destruct (reals_of l), (reals_of l'), (reals_of l''); try easy.
    now transitivity l1.
Qed.

Lemma nan_std_perm (l l' : list f64) :
  Permutation l l' -> nan_std l = nan_std l'.
Proof.
  intros H. unfold nan_std.
  pose proof (reals_of_perm _ _ (filter_perm (fun x => negb (F64.isnan x))
                                             _ _ H)) as Hr.
  unfold dropna.
  destruct (reals_of (filter _ l)), (reals_of (filter _ l')); try easy.
  now apply series_std_perm.
Qed.

Lemma nan_mean_perm (l l' : list f64) :
  Permutation l l' -> nan_mean l = nan_mean l'.
Proof.
  intros H. unfold nan_mean.
  pose proof (filter_perm (fun x => negb (F64.isnan x)) _ _ H) as Hd.
  fold (dropna l) in Hd. fold (dropna l') in Hd.
  destruct (dropna l) as [|a xs] eqn:E1, (dropna l') as [|b ys] eqn:E2.
  - reflexivity.
  - now apply Permutation_nil_cons in Hd.
  - symmetry in Hd. now apply Permutation_nil_cons in Hd.
  - rewrite (fold_add_perm _ _ Hd), (Permutation_length Hd). reflexivity.
Qed.

Lemma coefficient_of_variation_perm (l l' : list f64) :
  Permutation l l' ->
  coefficient_of_variation l = coefficient_of_variation l'.
Proof.
  intros H. unfold coefficient_of_variation.
  now rewrite (nan_std_perm _ _ H), (nan_mean_perm _ _ H).
Qed.

(** C9 (amended): the reported coefficient of variation is std/mean of the
    total_load values of the pincodes of the selected district, 0 when that
    mean is 0, and exactly 0 whenever the district has at least two pincodes
    and all of them carry the identical load. *)
Theorem C9_cv_of_selected_district
        (df df' : frame) (rep : variance_report) :
  analyze_pincode_variance df = (df', Returned (Some rep)) ->
  let loads :=
    column_values (columns df') "total_load"
                  (district_rows df' (top_state rep, top_district rep)) in
  cv rep = (if F64.gtb (nan_mean loads) (Fin 0)
            then F64.div (nan_std loads) (nan_mean loads)
            else Fin 0)
  /\ (nan_mean loads = Fin 0 -> cv rep = Fin 0)
  /\ (forall v,
         (2 <= length loads)%nat ->
         (forall x, In x loads -> x = Fin v) ->
         cv rep = Fin 0).
Proof.
  intros Hrun loads.
  destruct (variance_report_cv df df' rep Hrun) as [subset [Hperm Hcv]].
  assert (Hcv' : cv rep = coefficient_of_variation loads).
  { rewrite Hcv. apply coefficient_of_variation_perm.
    unfold column_values, loads. now apply Permutation_flat_map. }
  split; [exact Hcv'|]. split.
  - intros Hmean. rewrite Hcv'. unfold coefficient_of_variation.
    rewrite Hmean. simpl.
    assert (Hg : Rgtb 0 0 = false) by (apply Rgtb_false; lra).
    now rewrite Hg.
  - intros v Hn Hall. rewrite Hcv'. now apply (cv_uniform loads v).
Qed.

Lemma C9_witness :
  exists df' rep,
    analyze_pincode_variance uniform_district_table
    = (df', Returned (Some rep))
    /\ cv rep = Fin 0.
Proof.
  eexists. eexists. split; [reflexivity|].
  eapply (C9_cv_of_selected_district uniform_district_table);
    [reflexivity | |].
  - simpl. lia.
  - intros x Hx. simpl in Hx.
    destruct Hx as [<-|[<-|[]]]; reflexivity.
Defined.
Lemma C9_counterexample :
  exists df' rep,
    analyze_pincode_variance single_pincode_table = (df', Returned (Some rep))
    /\ (forall x,
           In x (column_values (columns df') "total_load"
                   (district_rows df' (top_state rep, top_district rep))) ->
           x = Fin (9 + 0 + 0))
    /\ cv rep = NaN.
Proof.
  eexists. eexists. split; [reflexivity|]. split.
  - intros x [<-|[]]. reflexivity.
  - cbn -[coefficient_of_variation].
    unfold coefficient_of_variation, nan_std, nan_mean.
    cbn -[F64.div F64.gtb INR Rplus].
    rewrite div_fin by (simpl; lra).
    cbn [F64.gtb].
    assert (Hg : Rgtb ((9 + 0 + 0 + 0) / INR 1) 0 = true)
      by (apply Rgtb_true; simpl; lra).
    rewrite Hg. reflexivity.
Qed.

Lemma total_load_defined (cols : list string) (cells : list f64) :
  length cells = length cols ->
  has_column cols "enrol_total_vol" = true ->
  has_column cols "bio_total_vol" = true ->
  has_column cols "demo_total_vol" = true ->
  exists e b d,
    lookup cols cells "enrol_total_vol" = Some e
    /\ lookup cols cells "bio_total_vol" = Some b
    /\ lookup cols cells "demo_total_vol" = Some d
    /\ total_load_of cols cells = Some (F64.add (F64.add e b) d).
Proof.
  intros Hlen He Hb Hd.
  destruct (has_column_lookup cols cells _ Hlen He) as [e He'].
  destruct (has_column_lookup cols cells _ Hlen Hb) as [b Hb'].
  destruct (has_column_lookup cols cells _ Hlen Hd) as [d Hd'].
  exists e, b, d. unfold total_load_of. rewrite He', Hb', Hd'. now repeat split.
Qed.

(** C10: the variance reporter assigns the column [total_load] into the
    table it was passed.  In the table the caller holds after the call every
    row has a [total_load] cell, the sum of its three volume cells; the keys
    and every other column are as before.  [main] hands this same table to
    the health scorer and to the child-gap reporter, which therefore see the
    extra column. *)
Theorem C10_total_load_added_in_place (df : frame) :
  Forall (fun r => length (snd r) = length (columns df)) (rows df) ->
  has_column (columns df) "enrol_total_vol" = true ->
  has_column (columns df) "bio_total_vol" = true ->
  has_column (columns df) "demo_total_vol" = true ->
  let df' := fst (analyze_pincode_variance df) in
  has_column (columns df') "total_load" = true
  /\ (forall c, c <> "total_load"%string ->
                has_column (columns df') c = has_column (columns df) c)
  /\ Forall2
       (fun r r' =>
          fst r' = fst r
          /\ (exists e b d,
                 lookup (columns df) (snd r) "enrol_total_vol" = Some e
                 /\ lookup (columns df) (snd r) "bio_total_vol" = Some b
                 /\ lookup (columns df) (snd r) "demo_total_vol" = Some d
                 /\ lookup (columns df') (snd r') "total_load"
                    = Some (F64.add (F64.add e b) d))
          /\ forall c, c <> "total_load"%string ->
                       lookup (columns df') (snd r') c
                       = lookup (columns df) (snd r) c)
       (rows df) (rows df')
  /\ forall kmeans df_enrol df_bio df_demo r,
       main kmeans df_enrol df_bio df_demo = Returned (Some r) ->
       run_health_input r
       = fst (analyze_pincode_variance
                (load_and_engineer_data df_enrol df_bio df_demo))
       /\ run_gap_input r = run_health_input r
       /\ has_column (columns (run_health_input r)) "total_load" = true.
Proof.
  intros Hwf He Hb Hd df'.
  assert (Hdf' : df' = with_total_load df).
  { unfold df'. rewrite variance_state, He, Hb, Hd. reflexivity. }
  rewrite Hdf'. split; [apply has_total_load|]. split; [|split].
  - intros c Hc. unfold with_total_load. rewrite has_column_assign.
    apply String.eqb_neq in Hc. rewrite String.eqb_sym in Hc. now rewrite Hc.
  - unfold with_total_load, assign. cbn [rows columns].
    induction Hwf as [|r rs Hr _ IH]; [constructor|].
    cbn [map]. constructor; [|exact IH]. cbn [fst snd].
    split; [reflexivity|].
    destruct (total_load_defined _ _ Hr He Hb Hd)
      as [e [b [d [He' [Hb' [Hd' Ht]]]]]].
    split.
    + exists e, b, d. repeat split; try assumption.
      rewrite lookup_set_cell_same by assumption. now rewrite Ht.
    + intros c Hc. now apply lookup_set_cell_other.
  - intros kmeans df_enrol df_bio df_demo r. unfold main.
    destruct (is_empty _); [discriminate|].
    destruct (analyze_pincode_variance
                (load_and_engineer_data df_enrol df_bio df_demo))
      as [df1 [|v]] eqn:Hv; [discriminate|].
    destruct (generate_health_index _ _); [|discriminate].
    destruct (analyze_mbu_gap _); [discriminate|].
    intros [= <-]. cbn [run_health_input run_gap_input fst].
    repeat split. now apply (variance_returned _ _ _ Hv).
Qed.

Lemma C10_witness :
  has_column (columns (fst (analyze_pincode_variance sample_merged)))
             "total_load" = true
  /\ has_column (columns sample_merged) "total_load" = false.
Proof.
  split; [|reflexivity].
  apply (C10_total_load_added_in_place sample_merged).
  - repeat constructor.
  - reflexivity.
  - reflexivity.
  - reflexivity.
Defined.

(** ** Sorting and grouping *)

Section SortFacts.
Context {A : Type} (before : A -> A -> bool).
Hypothesis before_total :
  forall a b, before a b = false -> before b a = true.
Hypothesis before_trans :
  forall a b c, before a b = true -> before b c = true -> before a c = true.

Lemma sort_insert_sorted (x : A) (l : list A) :
  StronglySorted (fun a b => before a b = true) l ->
  StronglySorted (fun a b => before a b = true) (sort_insert before x l).
Proof.
  induction 1 as [|y l Hl IH Hy]; simpl.
  - repeat constructor.
  - destruct (before x y) eqn:Hxy.
    + constructor; [now constructor|].
      constructor; [assumption|].
      rewrite Forall_forall in *. intros z Hz.
      apply (before_trans x y z); [assumption | now apply Hy].
    + constructor; [assumption|].
      rewrite Forall_forall in *. intros z Hz.
      apply (Permutation_in _ (sort_insert_perm before x l)) in Hz.
      destruct Hz as [<-|Hz]; [now apply before_total | now apply Hy].
Qed.

Lemma sort_by_sorted (l : list A) :
  StronglySorted (fun a b => before a b = true) (sort_by before l).
Proof.
  induction l as [|x l IH]; simpl; [constructor|].
  now apply sort_insert_sorted.
Qed.
End SortFacts.

Section GroupFacts.
Context {K V : Type} (cmp : K -> K -> comparison).
Hypothesis cmp_eq : forall a b, cmp a b = Eq <-> a = b.
Hypothesis cmp_antisym : forall a b, cmp a b = CompOpp (cmp b a).
Hypothesis cmp_trans :
  forall a b c, cmp a b = Lt -> cmp b c = Lt -> cmp a c = Lt.

Let keys_lt (g1 g2 : K * list V) : Prop := cmp (fst g1) (fst g2) = Lt.

Lemma cmp_refl (a : K) : cmp a a = Eq.
Proof. now apply cmp_eq. Qed.

Lemma cmp_gt_lt (a b : K) : cmp a b = Gt -> cmp b a = Lt.
Proof. intros H. rewrite cmp_antisym, H. reflexivity. Qed.

Lemma group_insert_keys (k : K) (v : V) (gs : list (K * list V))
      (g : K * list V) :
  In g (group_insert cmp k v gs) ->
  fst g = k \/ In (fst g) (map fst gs).
Proof.
  induction gs as [|[k' vs] gs IH]; simpl.
  - intros [<-|[]]. now left.
  - destruct (cmp k k') eqn:Hc; simpl.
    + intros [<-|H]; [right; now left|]. right; right.
      apply in_map_iff. now exists g.
    + intros [<-|[<-|H]]; [now left | right; now left|].
      right; right. apply in_map_iff. now exists g.
    + intros [<-|H]; [right; now left|].
      destruct (IH H) as [->|H']; [now left | right; now right].
Qed.

Lemma group_insert_sorted (k : K) (v : V) (gs : list (K * list V)) :
  StronglySorted keys_lt gs ->
  StronglySorted keys_lt (group_insert cmp k v gs).
Proof.
  induction 1 as [|[k' vs] gs Hgs IH Hk']; simpl.
  - repeat constructor.
  - destruct (cmp k k') eqn:Hc.
    + apply cmp_eq in Hc. subst k'. constructor; assumption.
    + constructor; [now constructor|].
      constructor; [exact Hc|].
      rewrite Forall_forall in *. intros g Hg. unfold keys_lt in *.
      apply (cmp_trans k k' (fst g)); [assumption | now apply Hk'].
    + constructor; [assumption|].
      rewrite Forall_forall in *. intros g Hg.
      destruct (group_insert_keys _ _ _ _ Hg) as [Hk|Hin].
      * unfold keys_lt. cbn [fst]. rewrite Hk. now apply cmp_gt_lt.
      * apply in_map_iff in Hin. destruct Hin as [g' [Hfst Hg']].
        unfold keys_lt in *. rewrite <- Hfst. now apply Hk'.
Qed.

Lemma groupby_sorted (rows : list (K * V)) :
  StronglySorted keys_lt (groupby cmp rows).
Proof.
  induction rows as [|[k v] rows IH]; simpl; [constructor|].
  now apply group_insert_sorted.
Qed.

Lemma group_of_cons (k : K) (g : K * list V) (gs : list (K * list V)) :
  group_of cmp k (g :: gs) =
  match cmp k (fst g) with
  | Eq => snd g
  | _ => group_of cmp k gs
  end.
Proof. unfold group_of. simpl. now destruct (cmp k (fst g)). Qed.

Lemma group_of_absent (k : K) (gs : list (K * list V)) :
  Forall (fun g => cmp k (fst g) = Lt) gs -> group_of cmp k gs = [].
Proof.
  induction 1 as [|g gs Hg _ IH]; [reflexivity|].
  rewrite group_of_cons, Hg. exact IH.
Qed.

Lemma group_of_insert (k k' : K) (v : V) (gs : list (K * list V)) :
  StronglySorted keys_lt gs ->
  group_of cmp k' (group_insert cmp k v gs) =
  match cmp k' k with
  | Eq => v :: group_of cmp k' gs
  | _ => group_of cmp k' gs
  end.
Proof.
  induction 1 as [|[k0 vs] gs Hgs IH Hk0].
  - cbn [group_insert]. rewrite group_of_cons. cbn [fst snd].
    now destruct (cmp k' k).
  - cbn [group_insert]. destruct (cmp k k0) eqn:Hc.
    + apply cmp_eq in Hc. subst k0. rewrite !group_of_cons. cbn [fst snd].
      now destruct (cmp k' k).
    + rewrite group_of_cons. cbn [fst snd].
      destruct (cmp k' k) eqn:Hk; try reflexivity.
      apply cmp_eq in Hk. subst k'. f_equal. symmetry.
      apply group_of_absent. constructor; [exact Hc|].
      rewrite Forall_forall in *. intros g Hg. unfold keys_lt in Hk0.
      apply (cmp_trans k k0 (fst g)); [assumption | now apply Hk0].
    + rewrite !group_of_cons. cbn [fst snd].
      destruct (cmp k' k0) eqn:Hk0'; try exact IH.
      apply cmp_eq in Hk0'. subst k0.
      rewrite cmp_antisym, Hc. reflexivity.
Qed.

Lemma group_of_groupby (k : K) (rows : list (K * V)) :
  group_of cmp k (groupby cmp rows) =
  map snd (filter (fun kv => match cmp k (fst kv) with
                             | Eq => true
                             | _ => false
                             end) rows).
Proof.
  induction rows as [|[k0 v] rows IH]; [reflexivity|].
  cbn [groupby filter fst]. rewrite group_of_insert by apply groupby_sorted.
  destruct (cmp k k0); cbn [map snd]; now rewrite IH.
Qed.

Lemma group_of_In (k : K) (vs : list V) (gs : list (K * list V)) :
  StronglySorted keys_lt gs -> In (k, vs) gs -> group_of cmp k gs = vs.
Proof.
  induction 1 as [|[k0 vs0] gs Hgs IH Hk0]; [intros []|].
  rewrite group_of_cons. cbn [fst snd]. intros [[= -> ->]|Hin].
  - now rewrite cmp_refl.
  - rewrite Forall_forall in Hk0. specialize (Hk0 _ Hin).
    unfold keys_lt in Hk0. cbn [fst] in Hk0.
    rewrite cmp_antisym, Hk0. cbn [CompOpp]. now apply IH.
Qed.

(** Every group of a group-by holds exactly the rows of its key, in their
    original order. *)
Lemma groupby_In (k : K) (vs : list V) (rows : list (K * V)) :
  In (k, vs) (groupby cmp rows) ->
  vs = map snd (filter (fun kv => match cmp k (fst kv) with
                                  | Eq => true
                                  | _ => false
                                  end) rows).
Proof.
  intros Hin. rewrite <- group_of_groupby. symmetry.
  apply group_of_In; [apply groupby_sorted | assumption].
Qed.
End GroupFacts.

(** ** District health scorer: the ranking of the clusters *)

Lemma Rleb_true (a b : R) : Rleb a b = true <-> a <= b.
Proof. unfold Rleb. destruct (Rle_dec a b); split; intros; easy. Qed.

Lemma Rleb_false (a b : R) : Rleb a b = false <-> b < a.
Proof.
  unfold Rleb. destruct (Rle_dec a b); split; intros; try easy; lra.
Qed.

Lemma strongly_sorted_nth {A : Type} (P : A -> A -> Prop) (l : list A)
      (i j : nat) (a b : A) :
  StronglySorted P l -> (i < j)%nat ->
  nth_error l i = Some a -> nth_error l j = Some b -> P a b.
Proof.
  intros Hs. revert i j. induction Hs as [|x l Hl IH Hx]; intros i j Hij Hi Hj.
  - now destruct i.
  - destruct j as [|j]; [lia|]. destruct i as [|i].
    + injection Hi as <-. simpl in Hj. apply nth_error_In in Hj.
      rewrite Forall_forall in Hx. now apply Hx.
    + simpl in Hi, Hj. apply (IH i j); [lia | assumption | assumption].
Qed.

Lemma nat_compare_eqb (c l : nat) :
  match Nat.compare c l with Eq => true | _ => false end = Nat.eqb l c.
Proof.
  destruct (Nat.compare_spec c l) as [->|H|H].
  - now rewrite Nat.eqb_refl.
  - symmetry. apply Nat.eqb_neq. lia.
  - symmetry. apply Nat.eqb_neq. lia.
Qed.

Lemma cluster_means_In (labels : list nat) (health : list R) (c : nat)
      (m : R) :
  In (c, m) (cluster_means labels health) ->
  let g := map snd (filter (fun kv => Nat.eqb (fst kv) c)
                           (combine labels health)) in
  m = Rsum g / INR (length g).
Proof.
  unfold cluster_means. rewrite in_map_iff. intros [[c' vs] [[= -> <-] Hin]].
  apply (groupby_In Nat.compare) in Hin.
  - cbn zeta. rewrite Hin. cbn [snd].
    assert (Hf : filter (fun kv : nat * R =>
                           match Nat.compare c (fst kv) with
                           | Eq => true | _ => false end)
                        (combine labels health)
                 = filter (fun kv => Nat.eqb (fst kv) c)
                          (combine labels health)).
    { apply filter_ext. intros kv. apply nat_compare_eqb. }
    now rewrite Hf.
  - apply Nat.compare_eq_iff.
  - intros a b. apply Nat.compare_antisym.
  - intros a b d. rewrite !Nat.compare_lt_iff. lia.
Qed.

Lemma scored_rows_cluster (m : list (nat * risk_category)) (c : nat)
      (dist_stats : list district_row) (health : list R) (labels : list nat) :
  length health = length dist_stats ->
  length labels = length dist_stats ->
  map hr_health_index
      (filter (fun r => Nat.eqb (hr_cluster r) c)
              (map (fun '(r, h, c) =>
                      {| hr_stats := r; hr_health_index := h;
                         hr_cluster := c;
                         hr_risk_category := map_label m c |})
                   (combine (combine dist_stats health) labels)))
  = map snd (filter (fun kv => Nat.eqb (fst kv) c) (combine labels health)).
Proof.
  revert health labels.
  induction dist_stats as [|r rs IH]; intros health labels Hh Hl.
  - destruct labels; [reflexivity | discriminate].
  - destruct health as [|h hs]; [discriminate|].
    destruct labels as [|l ls]; [discriminate|].
    injection Hh as Hh. injection Hl as Hl.
    cbn [combine map filter hr_cluster fst].
    destruct (Nat.eqb l c); cbn [map hr_health_index snd];
      now rewrite IH.
Qed.

Lemma cluster_mean_of_perm (out out' : list health_row) (c : nat) :
  Permutation out out' -> cluster_mean_of out c = cluster_mean_of out' c.
Proof.
  intros H. unfold cluster_mean_of.
  pose proof (Permutation_map hr_health_index
                (filter_perm (fun r => Nat.eqb (hr_cluster r) c) _ _ H)) as Hp.
  now rewrite (Rsum_perm _ _ Hp), (Permutation_length Hp).
Qed.

Lemma risk_label_position (cr : list nat) (m : list (nat * risk_category))
      (c : nat) (r : risk_category) :
  rank_map cr = Some m -> map_label m c = Some r ->
  nth_error cr (risk_rank r) = Some c.
Proof.
  destruct cr as [|c0 [|c1 [|c2 rest]]]; try discriminate.
  intros [= <-]. simpl.
  destruct (Nat.eqb c0 c) eqn:H0.
  { intros [= <-]. apply Nat.eqb_eq in H0. now subst. }
  destruct (Nat.eqb c1 c) eqn:H1.
  { intros [= <-]. apply Nat.eqb_eq in H1. now subst. }
  destruct (Nat.eqb c2 c) eqn:H2; [|discriminate].
  intros [= <-]. apply Nat.eqb_eq in H2. now subst.
Qed.

(** Along the ranking the cluster means do not decrease. *)
Lemma cluster_rank_ascending (labels : list nat) (health : list R)
      (i j ci cj : nat) :
  (i < j)%nat ->
  nth_error (cluster_rank labels health) i = Some ci ->
  nth_error (cluster_rank labels health) j = Some cj ->
  exists mi mj,
    In (ci, mi) (cluster_means labels health)
    /\ In (cj, mj) (cluster_means labels health)
    /\ mi <= mj.
Proof.
  unfold cluster_rank. intros Hij Hi Hj.
  rewrite nth_error_map in Hi, Hj.
  set (before := fun a b : nat * R => Rleb (snd a) (snd b)) in *.
  destruct (nth_error (sort_by before _) i) as [[ci' mi]|] eqn:Ei;
    [|discriminate].
  destruct (nth_error (sort_by before _) j) as [[cj' mj]|] eqn:Ej;
    [|discriminate].
  injection Hi as ->. injection Hj as ->.
  exists mi, mj.
  pose proof (sort_by_perm before (cluster_means labels health)) as Hp.
  split; [apply (Permutation_in _ Hp), (nth_error_In _ _ Ei)|].
  split; [apply (Permutation_in _ Hp), (nth_error_In _ _ Ej)|].
  assert (Hs : StronglySorted (fun a b => before a b = true)
                              (sort_by before (cluster_means labels health))).
  { apply sort_by_sorted; unfold before.
    - intros a b H. apply Rleb_false in H. apply Rleb_true. lra.
    - intros a b c Hab Hbc. apply Rleb_true in Hab, Hbc.
      apply Rleb_true. lra. }
  pose proof (strongly_sorted_nth _ _ i j _ _ Hs Hij Ei Ej) as Hle.
  now apply Rleb_true in Hle.
Qed.

(** C6 (amended): for two districts A and B of one run, if the risk category
    of A ranks strictly below that of B in the order Critical Risk,
    Moderate, Healthy, then the mean health_index of A's cluster is less
    than or equal to that of B's cluster.  The categories come from sorting
    the cluster means, and two clusters may share a mean. *)
Theorem C6_rank_respects_cluster_means
        (kmeans : list (R * R * R) -> option (list nat)) (df : frame)
        (out : list health_row) (A B : health_row)
        (ra rb : risk_category) :
  generate_health_index kmeans df = Some out ->
  In A out -> In B out ->
  hr_risk_category A = Some ra ->
  hr_risk_category B = Some rb ->
  (risk_rank ra < risk_rank rb)%nat ->
  cluster_mean_of out (hr_cluster A) <= cluster_mean_of out (hr_cluster B).
Proof.
  intros Hout HA HB Hra Hrb Hrank.
  destruct (generate_health_index_rows kmeans df out Hout)
    as [ds [labels [m [_ [_ [Hlen [Hm Hperm]]]]]]].
  rewrite !(cluster_mean_of_perm _ _ _ Hperm).
  apply (Permutation_in _ Hperm) in HA, HB.
  apply in_map_iff in HA, HB.
  destruct HA as [[[rA hA] cA] [<- _]], HB as [[[rB hB] cB] [<- _]].
  cbn [hr_risk_category hr_cluster] in *.
  pose proof (risk_label_position _ _ _ _ Hm Hra) as HcA.
  pose proof (risk_label_position _ _ _ _ Hm Hrb) as HcB.
  destruct (cluster_rank_ascending _ _ _ _ _ _ Hrank HcA HcB)
    as [mA [mB [HmA [HmB Hle]]]].
  apply cluster_means_In in HmA, HmB. cbn zeta in HmA, HmB.
  unfold cluster_mean_of.
  rewrite !scored_rows_cluster
    by (rewrite ?health_index_length; assumption || reflexivity).
  now rewrite <- HmA, <- HmB.
Qed.

(** ** The scorer on the sample table *)

Lemma fold_left_Rmin_In (l : list R) (a : R) :
  fold_left Rmin l a = a \/ In (fold_left Rmin l a) l.
Proof.
  revert a. induction l as [|y l IH]; intros a; simpl; [now left|].
  assert (Hm : Rmin a y = a \/ Rmin a y = y).
  { unfold Rmin. destruct (Rle_dec a y); auto. }
  destruct (IH (Rmin a y)) as [H|H]; [|right; now right].
  rewrite H. destruct Hm as [->| ->]; [now left | right; now left].
Qed.

Lemma fold_left_Rmax_In (l : list R) (a : R) :
  fold_left Rmax l a = a \/ In (fold_left Rmax l a) l.
Proof.
  revert a. induction l as [|y l IH]; intros a; simpl; [now left|].
  assert (Hm : Rmax a y = a \/ Rmax a y = y).
  { unfold Rmax. destruct (Rle_dec a y); auto. }
  destruct (IH (Rmax a y)) as [H|H]; [|right; now right].
  rewrite H. destruct Hm as [->| ->]; [now left | right; now left].
Qed.

Lemma Rlist_min_In (l : list R) : l <> [] -> In (Rlist_min l) l.
Proof.
  destruct l as [|a l]; [easy|]. intros _. cbn [Rlist_min].
  destruct (fold_left_Rmin_In l a) as [->|H]; [now left | now right].
Qed.

Lemma Rlist_max_In (l : list R) : l <> [] -> In (Rlist_max l) l.
Proof.
  destruct l as [|a l]; [easy|]. intros _. cbn [Rlist_max].
  destruct (fold_left_Rmax_In l a) as [->|H]; [now left | now right].
Qed.

Lemma Rlist_min_eq (l : list R) (mn : R) :
  In mn l -> (forall x, In x l -> mn <= x) -> Rlist_min l = mn.
Proof.
  intros Hin Hlb. apply Rle_antisym; [now apply Rlist_min_le|].
  apply Hlb, Rlist_min_In. intros ->. contradiction.
Qed.

Lemma Rlist_max_eq (l : list R) (mx : R) :
  In mx l -> (forall x, In x l -> x <= mx) -> Rlist_max l = mx.
Proof.
  intros Hin Hub. apply Rle_antisym; [|now apply Rlist_max_ge].
  apply Hub, Rlist_max_In. intros ->. contradiction.
Qed.

(** The scaler on a column that spreads over at least one unit. *)
Lemma fit_transform_wide (col : list R) (mn mx : R) :
  In mn col -> In mx col -> (forall x, In x col -> mn <= x <= mx) ->
  1 <= mx - mn ->
  fit_transform col = map (fun x => (x - mn) / (mx - mn)) col.
Proof.
  intros Hmn Hmx Hb Hw. unfold fit_transform.
  rewrite (Rlist_min_eq col mn), (Rlist_max_eq col mx);
    try assumption; try (intros x Hx; now apply Hb).
  unfold handle_zeros_in_scale.
  assert (Hz : Rgtb (10 * eps) (mx - mn) = false).
  { apply Rgtb_false. pose proof eps_bounds. lra. }
  rewrite Hz. apply map_ext. intros x. field. lra.
Qed.

(** The scaler on a constant column. *)
Lemma fit_transform_constant (col : list R) (v : R) :
  (forall x, In x col -> x = v) ->
  fit_transform col = map (fun _ => 0) col.
Proof.
  intros Hc. destruct col as [|a col]; [reflexivity|].
  set (l := a :: col) in *. unfold fit_transform.
  assert (Ha : In v l) by (rewrite <- (Hc a); now left).
  rewrite (Rlist_min_eq l v), (Rlist_max_eq l v); try assumption;
    try (intros x Hx; rewrite (Hc x Hx); lra).
  unfold handle_zeros_in_scale.
  assert (Hz : Rgtb (10 * eps) (v - v) = true).
  { apply Rgtb_true. pose proof eps_bounds. lra. }
  rewrite Hz. apply map_ext_in. intros x Hx. rewrite (Hc x Hx). field.
Qed.

Ltac in_list :=
  simpl; repeat (first [left; lra | right]).

Ltac real_list_eq :=
  repeat (apply f_equal2; [try field; try lra|]); try reflexivity.

Ltac all_in_list :=
  let x := fresh "x" in
  let H := fresh "H" in
  intros x H; simpl in H;
  repeat (destruct H as [<-|H]; [lra|]); destruct H.

Lemma sample_score_enrol : score_enrol sample_stats = [5 / 10; 0; 0].
Proof.
  unfold score_enrol, sample_stats. cbn [map enrol_total_vol enrol_stability].
  rewrite (fit_transform_wide [9; 1; 1] 1 9);
    [|in_list|in_list|all_in_list|lra].
  rewrite (fit_transform_constant [10; 10; 10] 10) by all_in_list.
  cbn [map combine]. real_list_eq.
Qed.

Lemma sample_score_bio : score_bio sample_stats = [0; 0; 0].
Proof.
  unfold score_bio, sample_stats, mbu_ratio.
  cbn [map enrol_child_sum bio_child_sum].
  rewrite (fit_transform_constant _ 0); [reflexivity|].
  intros x H. simpl in H.
  repeat (destruct H as [<-|H];
          [destruct (Rgtb _ _); lra|]).
  destruct H.
Qed.

Lemma sample_score_demo : score_demo sample_stats = [0; 1; 0].
Proof.
  unfold score_demo, sample_stats. cbn [map demo_total_vol].
  rewrite (fit_transform_wide [0; 4; 0] 0 4);
    [|in_list|in_list|all_in_list|lra].
  cbn [map]. real_list_eq.
Qed.

Lemma sample_score_infra : score_infra sample_stats = [1; 0; 0].
Proof.
  unfold score_infra, sample_stats.
  cbn [map enrol_total_vol bio_total_vol demo_total_vol].
  rewrite (fit_transform_wide _ 5 9);
    [|in_list|in_list|all_in_list|lra].
  cbn [map]. real_list_eq.
Qed.

Lemma sample_health_index : health_index sample_stats = [25; 25; 0].
Proof.
  unfold health_index.
  rewrite sample_score_enrol, sample_score_bio, sample_score_demo,
    sample_score_infra.
  cbn [combine map]. real_list_eq.
Qed.

Ltac decide_Rleb :=
  repeat match goal with
         | |- context [Rleb ?a ?b] =>
             first [ rewrite (proj2 (Rleb_true a b)) by (simpl; lra)
                   | rewrite (proj2 (Rleb_false a b)) by (simpl; lra) ];
             cbn -[Rleb Rdiv Rplus INR]
         end.

Lemma sample_cluster_rank :
  cluster_rank [0; 1; 2]%nat [25; 25; 0] = [2; 0; 1]%nat.
Proof.
  unfold cluster_rank, cluster_means.
  cbn -[Rleb Rdiv Rplus INR]. decide_Rleb. reflexivity.
Qed.

(** On the sample North Goa and South Goa both score 25 and sit alone in
    their clusters; the ranking still places one of them below the other. *)
Lemma C6_counterexample :
  exists out A B,
    generate_health_index singleton_clusters sample_merged = Some out
    /\ In A out /\ In B out
    /\ hr_risk_category A = Some Moderate
    /\ hr_risk_category B = Some Healthy
    /\ ~ cluster_mean_of out (hr_cluster A)
         < cluster_mean_of out (hr_cluster B).
Proof.
  unfold generate_health_index.
  rewrite sample_district_stats. cbn [bind]. unfold sample_stats at 1.
  rewrite sample_health_index, sample_score_enrol, sample_score_bio,
    sample_score_demo.
  unfold singleton_clusters. cbn [combine length seq bind].
  cbn [Nat.eqb negb sample_stats length].
  rewrite sample_cluster_rank. cbn [rank_map bind].
  unfold sample_stats, sort_by.
  cbn -[Rleb Rdiv Rplus INR]. decide_Rleb.
  eexists. eexists. eexists. split; [reflexivity|].
  split; [right; left; reflexivity|].
  split; [right; right; left; reflexivity|].
  split; [reflexivity|]. split; [reflexivity|].
  unfold cluster_mean_of. cbn -[Rdiv Rplus INR]. simpl. lra.
Qed.

Lemma C6_witness :
  exists out A B,
    generate_health_index singleton_clusters sample_merged = Some out
    /\ In A out /\ In B out
    /\ hr_risk_category A = Some Critical_Risk
    /\ hr_risk_category B = Some Healthy
    /\ cluster_mean_of out (hr_cluster A)
       <= cluster_mean_of out (hr_cluster B).
Proof.
  assert (H : exists out A B,
             generate_health_index singleton_clusters sample_merged = Some out
             /\ In A out /\ In B out
             /\ hr_risk_category A = Some Critical_Risk
             /\ hr_risk_category B = Some Healthy).
  { unfold generate_health_index.
    rewrite sample_district_stats. cbn [bind]. unfold sample_stats at 1.
    rewrite sample_health_index, sample_score_enrol, sample_score_bio,
      sample_score_demo.
    unfold singleton_clusters. cbn [combine length seq bind].
    cbn [Nat.eqb negb sample_stats length].
    rewrite sample_cluster_rank. cbn [rank_map bind].
    unfold sample_stats, sort_by.
    cbn -[Rleb Rdiv Rplus INR]. decide_Rleb.
    eexists. eexists. eexists. split; [reflexivity|].
    split; [left; reflexivity|].
    split; [right; right; left; reflexivity|].
    split; reflexivity. }
  destruct H as [out [A [B [Hout [HA [HB [Hra Hrb]]]]]]].
  exists out, A, B. repeat split; try assumption.
  apply (C6_rank_respects_cluster_means singleton_clusters sample_merged
           out A B Critical_Risk Healthy); try assumption.
  simpl. lia.
Defined.


(** ** Order of the keys *)

Section Lexicographic.
Context {A B : Type} (ca : A -> A -> comparison) (cb : B -> B -> comparison).
Hypothesis ca_eq : forall a b, ca a b = Eq <-> a = b.
Hypothesis ca_antisym : forall a b, ca a b = CompOpp (ca b a).
Hypothesis ca_trans : forall a b c, ca a b = Lt -> ca b c = Lt -> ca a c = Lt.
Hypothesis cb_eq : forall a b, cb a b = Eq <-> a = b.
Hypothesis cb_antisym : forall a b, cb a b = CompOpp (cb b a).
Hypothesis cb_trans : forall a b c, cb a b = Lt -> cb b c = Lt -> cb a c = Lt.

Let lex (x y : A * B) : comparison :=
  match ca (fst x) (fst y) with
  | Eq => cb (snd x) (snd y)
  | c => c
  end.

Lemma lex_eq (x y : A * B) : lex x y = Eq <-> x = y.
Proof.
  unfold lex. destruct x as [a b], y as [a' b']. cbn [fst snd].
  destruct (ca a a') eqn:Ha.
  - apply ca_eq in Ha. subst a'. rewrite cb_eq.
    split; [now intros -> | now intros [= ->]].
  - split; [discriminate|]. intros [= -> ->].
    rewrite (proj2 (ca_eq a' a') eq_refl) in Ha. discriminate.
  - split; [discriminate|]. intros [= -> ->].
    rewrite (proj2 (ca_eq a' a') eq_refl) in Ha. discriminate.
Qed.

Lemma lex_antisym (x y : A * B) : lex x y = CompOpp (lex y x).
Proof.
  unfold lex. rewrite (ca_antisym (fst x) (fst y)).
  destruct (ca (fst y) (fst x)); cbn [CompOpp]; try reflexivity.
  apply cb_antisym.
Qed.

Lemma lex_trans (x y z : A * B) : lex x y = Lt -> lex y z = Lt -> lex x z = Lt.
Proof.
  unfold lex. destruct x as [a b], y as [a' b'], z as [a'' b''].
  cbn [fst snd].
  destruct (ca a a') eqn:H1; try discriminate;
    destruct (ca a' a'') eqn:H2; try discriminate; intros Hb Hb'.
  - apply ca_eq in H1, H2. subst.
    rewrite (proj2 (ca_eq a'' a'') eq_refl). now apply (cb_trans b b' b'').
  - apply ca_eq in H1. subst. now rewrite H2.
  - apply ca_eq in H2. subst. now rewrite H1.
  - now rewrite (ca_trans a a' a'').
Qed.
End Lexicographic.

Lemma string_compare_trans (a b c : string) :
  String.compare a b = Lt -> String.compare b c = Lt -> String.compare a c = Lt.
Proof.
  intros H1 H2. apply String_as_OT.cmp_lt.
  apply (String_as_OT.lt_trans a b c); now apply String_as_OT.cmp_lt.
Qed.

Lemma district_compare_eq (a b : district_key) :
  district_compare a b = Eq <-> a = b.
Proof.
  apply (lex_eq String.compare String.compare);
    apply String_as_OT.cmp_eq.
Qed.

Lemma district_compare_antisym (a b : district_key) :
  district_compare a b = CompOpp (district_compare b a).
Proof.
  apply (lex_antisym String.compare String.compare);
    apply String_as_OT.cmp_antisym.
Qed.

Lemma district_compare_trans (a b c : district_key) :
  district_compare a b = Lt -> district_compare b c = Lt ->
  district_compare a c = Lt.
Proof.
  apply (lex_trans String.compare String.compare);
    first [apply String_as_OT.cmp_eq | apply string_compare_trans].
Qed.

Lemma key_compare_lex (a b : key) :
  key_compare a b =
  match district_compare (fst a) (fst b) with
  | Eq => Z.compare (snd a) (snd b)
  | c => c
  end.
Proof.
  destruct a as [[s1 d1] p1], b as [[s2 d2] p2].
  unfold key_compare, district_compare. cbn [fst snd].
  destruct (String.compare s1 s2); reflexivity.
Qed.

Lemma key_compare_eq (a b : key) : key_compare a b = Eq <-> a = b.
Proof.
  rewrite key_compare_lex.
  apply (lex_eq district_compare Z.compare).
  - apply district_compare_eq.
  - apply Z.compare_eq_iff.
Qed.

Lemma key_compare_antisym (a b : key) :
  key_compare a b = CompOpp (key_compare b a).
Proof.
  rewrite !key_compare_lex.
  apply (lex_antisym district_compare Z.compare).
  - apply district_compare_antisym.
  - intros x y. apply Z.compare_antisym.
Qed.

Lemma key_compare_trans (a b c : key) :
  key_compare a b = Lt -> key_compare b c = Lt -> key_compare a c = Lt.
Proof.
  rewrite !key_compare_lex.
  apply (lex_trans district_compare Z.compare).
  - apply district_compare_eq.
  - apply district_compare_trans.
  - intros x y z. rewrite !Z.compare_lt_iff. lia.
Qed.

Lemma key_eqb_eq (a b : key) : key_eqb a b = true <-> a = b.
Proof.
  unfold key_eqb. rewrite <- key_compare_eq.
  destruct (key_compare a b); split; intros; easy.
Qed.

Lemma key_eqb_refl (a : key) : key_eqb a a = true.
Proof. now apply key_eqb_eq. Qed.

Lemma key_eqb_neq (a b : key) : key_eqb a b = false <-> a <> b.
Proof.
  rewrite <- key_eqb_eq. destruct (key_eqb a b); split; intros; easy.
Qed.

Lemma key_lt_irrefl (a : key) : ~ key_lt a a.
Proof.
  unfold key_lt. rewrite (proj2 (key_compare_eq a a) eq_refl). discriminate.
Qed.

(** ** The sorted union of the keys *)

Lemma key_insert_In (k x : key) (ks : list key) :
  In x (key_insert k ks) <-> x = k \/ In x ks.
Proof.
  induction ks as [|k' ks IH]; simpl.
  - intuition.
  - destruct (key_compare k k') eqn:Hc; simpl.
    + apply key_compare_eq in Hc. subst k'. intuition.
    + intuition.
    + rewrite IH. intuition.
Qed.

Lemma key_insert_sorted (k : key) (ks : list key) :
  StronglySorted key_lt ks -> StronglySorted key_lt (key_insert k ks).
Proof.
  induction 1 as [|k' ks Hks IH Hk']; simpl.
  - repeat constructor.
  - destruct (key_compare k k') eqn:Hc.
    + now constructor.
    + constructor; [now constructor|].
      constructor; [exact Hc|].
      rewrite Forall_forall in *. intros x Hx.
      apply (key_compare_trans k k' x); [assumption | now apply Hk'].
    + constructor; [assumption|].
      rewrite Forall_forall in *. intros x Hx.
      apply key_insert_In in Hx. destruct Hx as [->|Hx]; [|now apply Hk'].
      unfold key_lt. rewrite key_compare_antisym, Hc. reflexivity.
Qed.

Lemma sorted_keys_In (x : key) (ks : list key) :
  In x (sorted_keys ks) <-> In x ks.
Proof.
  unfold sorted_keys. induction ks as [|k ks IH]; simpl; [reflexivity|].
  rewrite key_insert_In, IH. intuition.
Qed.

Lemma sorted_keys_sorted (ks : list key) :
  StronglySorted key_lt (sorted_keys ks).
Proof.
  unfold sorted_keys. induction ks as [|k ks IH]; simpl; [constructor|].
  now apply key_insert_sorted.
Qed.

Lemma sorted_head_absent (k : key) (ks : list key) :
  StronglySorted key_lt (k :: ks) -> ~ In k ks.
Proof.
  intros Hs Hin. inversion Hs as [|? ? _ Hall]; subst.
  rewrite Forall_forall in Hall. apply (key_lt_irrefl k). now apply Hall.
Qed.

Lemma sorted_NoDup (ks : list key) : StronglySorted key_lt ks -> NoDup ks.
Proof.
  induction ks as [|k ks IH]; intros Hs; constructor.
  - now apply sorted_head_absent.
  - apply IH. now inversion Hs.
Qed.


(** ** The rows of an outer join *)

Lemma find_key_none (rs : list (key * list f64)) (k : key) :
  ~ In k (map fst rs) -> find (fun r => key_eqb (fst r) k) rs = None.
Proof.
  induction rs as [|r rs IH]; simpl; [reflexivity|]. intros Hn.
  destruct (key_eqb (fst r) k) eqn:He.
  - apply key_eqb_eq in He. destruct Hn. now left.
  - apply IH. intros H. apply Hn. now right.
Qed.

Lemma find_key_some (rs : list (key * list f64)) (k : key) :
  In k (map fst rs) ->
  exists cells, find (fun r => key_eqb (fst r) k) rs = Some (k, cells)
                /\ In (k, cells) rs.
Proof.
  induction rs as [|[k' cells] rs IH]; simpl; [intros []|].
  destruct (key_eqb k' k) eqn:He.
  - apply key_eqb_eq in He. subst k'. intros _. exists cells.
    split; [reflexivity | now left].
  - intros [Hk|Hin].
    + apply key_eqb_neq in He. contradiction.
    + destruct (IH Hin) as [c [Hf Hc]]. exists c. split; [assumption|].
      now right.
Qed.

Lemma filter_key_none (rs : list (key * list f64)) (k : key) :
  ~ In k (map fst rs) -> filter (fun r => key_eqb (fst r) k) rs = [].
Proof.
  induction rs as [|r rs IH]; simpl; [reflexivity|]. intros Hn.
  destruct (key_eqb (fst r) k) eqn:He.
  - apply key_eqb_eq in He. destruct Hn. now left.
  - apply IH. intros H. apply Hn. now right.
Qed.

(** With one row per key a frame contributes exactly one row to the join
    under every key. *)
Lemma side_single (f : frame) (k : key) :
  NoDup (keys_of f) -> side f k = [pad f k].
Proof.
  unfold side, pad, rows_of, keys_of. destruct f as [cols rs]. cbn [rows columns].
  induction rs as [|r rs IH]; intros Hnd; simpl; [reflexivity|].
  inversion Hnd as [|? ? Hr Hnd']; subst.
  destruct (key_eqb (fst r) k) eqn:He.
  - apply key_eqb_eq in He. rewrite He in Hr.
    rewrite (filter_key_none rs k Hr). reflexivity.
  - now apply IH.
Qed.

Lemma flat_map_single {A B : Type} (g : A -> B) (l : list A) :
  flat_map (fun x => [g x]) l = map g l.
Proof. induction l as [|x l IH]; simpl; [reflexivity | now rewrite IH]. Qed.

Lemma merge_outer_rows (a b : frame) :
  NoDup (keys_of a) -> NoDup (keys_of b) ->
  rows (merge_outer a b) =
  map (fun k => (k, pad a k ++ pad b k))
      (sorted_keys (keys_of a ++ keys_of b)).
Proof.
  intros Ha Hb. unfold merge_outer. cbn [rows].
  rewrite <- flat_map_single. apply flat_map_ext. intros k.
  now rewrite (side_single a k Ha), (side_single b k Hb).
Qed.

Lemma merge_outer_keys (a b : frame) :
  NoDup (keys_of a) -> NoDup (keys_of b) ->
  keys_of (merge_outer a b) = sorted_keys (keys_of a ++ keys_of b).
Proof.
  intros Ha Hb. unfold keys_of at 1. rewrite merge_outer_rows by assumption.
  rewrite map_map. cbn [fst]. apply map_id.
Qed.

Lemma find_in_keyed_map (g : key -> list f64) (ks : list key) (k : key) :
  find (fun r => key_eqb (fst r) k) (map (fun k' => (k', g k')) ks) =
  if existsb (fun k' => key_eqb k' k) ks then Some (k, g k) else None.
Proof.
  induction ks as [|k' ks IH]; simpl; [reflexivity|].
  destruct (key_eqb k' k) eqn:He; simpl; [|exact IH].
  apply key_eqb_eq in He. now subst.
Qed.

Lemma existsb_key (ks : list key) (k : key) :
  existsb (fun k' => key_eqb k' k) ks = true <-> In k ks.
Proof.
  rewrite existsb_exists. split.
  - intros [x [Hx He]]. apply key_eqb_eq in He. now subst.
  - intros H. exists k. split; [assumption | apply key_eqb_refl].
Qed.

Lemma pad_absent (f : frame) (k : key) :
  ~ In k (keys_of f) -> pad f k = repeat NaN (length (columns f)).
Proof. intros H. unfold pad. now rewrite find_key_none. Qed.

(** The row an outer join holds, or would hold, under a key is made of the
    rows of its two sides. *)
Lemma pad_merge_outer (a b : frame) (k : key) :
  NoDup (keys_of a) -> NoDup (keys_of b) ->
  pad (merge_outer a b) k = pad a k ++ pad b k.
Proof.
  intros Ha Hb. unfold pad at 1. rewrite merge_outer_rows by assumption.
  rewrite (find_in_keyed_map (fun k => pad a k ++ pad b k)).
  destruct (existsb _ _) eqn:He; [reflexivity|].
  assert (Hn : ~ In k (sorted_keys (keys_of a ++ keys_of b))).
  { intros H. apply existsb_key in H. congruence. }
  rewrite sorted_keys_In, in_app_iff in Hn.
  rewrite !pad_absent by tauto.
  unfold merge_outer. cbn [columns].
  now rewrite length_app, !length_map, repeat_app.
Qed.

(** ** Cells of concatenated rows *)

Lemma has_column_In (cols : list string) (c : string) :
  has_column cols c = true <-> In c cols.
Proof.
  unfold has_column. rewrite existsb_exists. split.
  - intros [x [Hx He]]. apply String.eqb_eq in He. now subst.
  - intros H. exists c. split; [assumption | apply String.eqb_refl].
Qed.

Lemma has_column_false (cols : list string) (c : string) :
  has_column cols c = false <-> ~ In c cols.
Proof.
  rewrite <- has_column_In. destruct (has_column cols c); split; intros; easy.
Qed.

Lemma lookup_In (cols : list string) (cells : list f64) (c : string)
      (v : f64) :
  lookup cols cells c = Some v -> In c cols.
Proof.
  revert cells. induction cols as [|n cols IH]; intros cells; simpl;
    [discriminate|].
  destruct cells as [|x cells]; [discriminate|].
  destruct (String.eqb n c) eqn:He.
  - apply String.eqb_eq in He. now left.
  - intros H. right. now apply (IH cells).
Qed.


Lemma lookup_app (ca cb : list string) (xa xb : list f64) (c : string) :
  length xa = length ca ->
  lookup (ca ++ cb) (xa ++ xb) c =
  match lookup ca xa c with
  | Some v => Some v
  | None => lookup cb xb c
  end.
Proof.
  revert xa. induction ca as [|n ca IH]; intros xa Hlen.
  - destruct xa; [reflexivity | discriminate].
  - destruct xa as [|x xa]; [discriminate|]. injection Hlen as Hlen.
    simpl. destruct (String.eqb n c); [reflexivity | now apply IH].
Qed.

Lemma lookup_map (g : f64 -> f64) (cols : list string) (cells : list f64)
      (c : string) :
  lookup cols (map g cells) c = option_map g (lookup cols cells c).
Proof.
  revert cells. induction cols as [|n cols IH]; intros cells;
    [now destruct cells|].
  destruct cells as [|x cells]; [reflexivity|]. simpl.
  destruct (String.eqb n c); [reflexivity | apply IH].
Qed.

Lemma FOP_app_inv {A : Type} (R : A -> A -> Prop) (l1 l2 : list A) :
  ForallOrdPairs R (l1 ++ l2) ->
  ForallOrdPairs R l1 /\ ForallOrdPairs R l2
  /\ forall x y, In x l1 -> In y l2 -> R x y.
Proof.
  induction l1 as [|a l1 IH]; simpl; intros H.
  - repeat split; [constructor | assumption | intros x y []].
  - inversion H as [|? ? Ha Hrest]; subst.
    destruct (IH Hrest) as [H1 [H2 H12]].
    rewrite Forall_app in Ha. destruct Ha as [Ha1 Ha2].
    repeat split; [now constructor | assumption|].
    intros x y [<-|Hx] Hy; [|now apply H12].
    rewrite Forall_forall in Ha2. now apply Ha2.
Qed.


Lemma FOP_filter {A : Type} (R : A -> A -> Prop) (p : A -> bool)
      (l : list A) :
  ForallOrdPairs R l -> ForallOrdPairs R (filter p l).
Proof.
  induction 1 as [|a l Ha Hl IH]; simpl; [constructor|].
  destruct (p a); [|assumption]. constructor; [|assumption].
  rewrite Forall_forall in *. intros x Hx. apply filter_In in Hx.
  now apply Ha.
Qed.

(** In a row made of blocks with pairwise disjoint column names, a cell is
    found in the block that has its column. *)
Lemma block_lookup (bl : list block) (c : string) (v : f64) :
  Forall (fun b => length (snd b) = length (fst b)) bl ->
  ForallOrdPairs block_disjoint bl ->
  lookup (concat (map fst bl)) (concat (map snd bl)) c = Some v
  <-> exists b, In b bl /\ lookup (fst b) (snd b) c = Some v.
Proof.
  induction bl as [|b bl IH]; intros Hw Hd.
  - simpl. split; [discriminate | intros [b [[] _]]].
  - inversion Hw as [|? ? Hb Hw']; subst.
    inversion Hd as [|? ? Hbd Hd']; subst.
    cbn [map concat]. rewrite lookup_app by assumption.
    destruct (lookup (fst b) (snd b) c) as [v'|] eqn:E.
    + split.
      * intros [= <-]. exists b. split; [now left | assumption].
      * intros [b' [[<-|Hin] Hl]]; [congruence|].
        exfalso. rewrite Forall_forall in Hbd.
        apply (Hbd b' Hin c); [now apply lookup_In in E|].
        now apply lookup_In in Hl.
    + rewrite (IH Hw' Hd'). split.
      * intros [b' [Hin Hl]]. exists b'. split; [now right | assumption].
      * intros [b' [[<-|Hin] Hl]]; [congruence|]. now exists b'.
Qed.




(** ** Successive outer joins *)

Lemma suffixed_id (other cols : list string) (sfx : string) :
  (forall c, In c cols -> ~ In c other) ->
  map (suffixed other sfx) cols = cols.
Proof.
  intros H. rewrite <- (map_id cols) at 2. apply map_ext_in. intros c Hc.
  unfold suffixed. now rewrite (proj2 (has_column_false other c) (H c Hc)).
Qed.

Lemma merge_outer_columns (a b : frame) :
  disjoint_columns a b ->
  columns (merge_outer a b) = columns a ++ columns b.
Proof.
  intros Hd. unfold merge_outer. cbn [columns].
  rewrite !suffixed_id; [reflexivity| |exact Hd].
  intros c Hb Ha. now apply (Hd c).
Qed.

Lemma merge_outer_keys_NoDup (a b : frame) :
  NoDup (keys_of a) -> NoDup (keys_of b) -> NoDup (keys_of (merge_outer a b)).
Proof.
  intros Ha Hb. rewrite merge_outer_keys by assumption.
  apply sorted_NoDup, sorted_keys_sorted.
Qed.

Lemma join_fold (l pre : list frame) (acc : frame) :
  Forall (fun x => NoDup (keys_of x)) l ->
  ForallOrdPairs disjoint_columns (pre ++ l) ->
  NoDup (keys_of acc) ->
  columns acc = concat (map columns pre) ->
  (forall k, pad acc k = concat (map (fun x => pad x k) pre)) ->
  (forall k, In k (keys_of acc) <-> exists x, In x pre /\ In k (keys_of x)) ->
  let f := fold_left merge_outer l acc in
  NoDup (keys_of f)
  /\ columns f = concat (map columns (pre ++ l))
  /\ (forall k, pad f k = concat (map (fun x => pad x k) (pre ++ l)))
  /\ (forall k, In k (keys_of f) <->
                exists x, In x (pre ++ l) /\ In k (keys_of x))
  /\ (l <> [] -> StronglySorted key_lt (keys_of f)).
Proof.
  revert pre acc. induction l as [|y l IH]; intros pre acc Hl Hfop Hnd Hc Hp Hk.
  - cbn zeta. cbn [fold_left]. rewrite app_nil_r.
    do 4 (split; [assumption|]). intros H. now destruct H.
  - inversion Hl as [|? ? Hy Hl']; subst.
    assert (Hdis : disjoint_columns acc y).
    { intros c Hin. rewrite Hc in Hin. apply in_concat in Hin.
      destruct Hin as [cols [Hcols Hin]]. apply in_map_iff in Hcols.
      destruct Hcols as [x [<- Hx]].
      apply FOP_app_inv in Hfop. destruct Hfop as [_ [_ H12]].
      apply (H12 x y Hx (or_introl eq_refl)). exact Hin. }
    assert (Hassoc : pre ++ y :: l = (pre ++ [y]) ++ l)
      by now rewrite <- app_assoc.
    cbn zeta. cbn [fold_left]. rewrite Hassoc.
    specialize (IH (pre ++ [y]) (merge_outer acc y) Hl').
    cbn zeta in IH.
    destruct IH as [H1 [H2 [H3 [H4 H5]]]].
    + now rewrite <- Hassoc.
    + now apply merge_outer_keys_NoDup.
    + rewrite merge_outer_columns by assumption.
      rewrite map_app, concat_app, Hc. cbn [map concat].
      now rewrite app_nil_r.
    + intros k. rewrite pad_merge_outer by assumption.
      rewrite map_app, concat_app, Hp. cbn [map concat].
      now rewrite app_nil_r.
    + intros k. rewrite merge_outer_keys by assumption.
      rewrite sorted_keys_In, in_app_iff, Hk. split.
      * intros [[x [Hx Hin]]|Hin].
        -- exists x. split; [apply in_or_app; now left | assumption].
        -- exists y. split; [apply in_or_app; right; now left | assumption].
      * intros [x [Hx Hin]]. apply in_app_or in Hx.
        destruct Hx as [Hx|[<-|[]]]; [left; now exists x | now right].
    + repeat split; try assumption.
      * apply H4.
      * apply H4.
      * intros _. destruct l as [|z l].
        -- cbn [fold_left]. rewrite merge_outer_keys by assumption.
           apply sorted_keys_sorted.
        -- now apply H5.
Qed.

(** What the successive joins of a list of feature tables hold. *)
Lemma join_all_spec (l : list frame) :
  Forall (fun x => NoDup (keys_of x)) l ->
  ForallOrdPairs disjoint_columns l ->
  NoDup (keys_of (join_all l))
  /\ columns (join_all l) = concat (map columns l)
  /\ (forall k, pad (join_all l) k = concat (map (fun x => pad x k) l))
  /\ (forall k, In k (keys_of (join_all l)) <->
                exists x, In x l /\ In k (keys_of x))
  /\ ((2 <= length l)%nat -> StronglySorted key_lt (keys_of (join_all l))).
Proof.
  destruct l as [|x l]; intros Hnd Hfop.
  - cbn [join_all]. split; [constructor|]. split; [reflexivity|].
    split; [intros k; reflexivity|]. split.
    + intros k. split; [intros [] | intros [x [[] _]]].
    + simpl. lia.
  - inversion Hnd as [|? ? Hx Hl]; subst. cbn [join_all].
    destruct (join_fold l [x] x Hl Hfop Hx) as [H1 [H2 [H3 [H4 H5]]]].
    + cbn. now rewrite app_nil_r.
    + intros k. cbn. now rewrite app_nil_r.
    + intros k. split.
      * intros H. exists x. split; [now left | assumption].
      * intros [x' [[<-|[]] H]]. exact H.
    + repeat split; try assumption.
      * apply H4.
      * apply H4.
      * intros Hlen. apply H5. destruct l; [simpl in Hlen; lia | discriminate].
Qed.

Lemma cell_pad (f : frame) (k : key) (c : string) :
  cell f k c = if existsb (fun k' => key_eqb k' k) (keys_of f)
               then lookup (columns f) (pad f k) c
               else None.
Proof.
  unfold cell, pad, keys_of.
  destruct (existsb _ _) eqn:He.
  - apply existsb_key in He. destruct (find_key_some _ _ He) as [cells [-> _]].
    reflexivity.
  - rewrite find_key_none; [reflexivity|].
    intros H. apply existsb_key in H. congruence.
Qed.

Lemma pad_length (f : frame) (k : key) :
  Forall (fun r => length (snd r) = length (columns f)) (rows f) ->
  length (pad f k) = length (columns f).
Proof.
  intros Hw. unfold pad.
  destruct (find _ _) as [r|] eqn:E; [|apply repeat_length].
  apply find_some in E. rewrite Forall_forall in Hw. now apply Hw.
Qed.



(** ** Suffixed column names *)







(** ** [fillna] and the skipped joins *)

Lemma keys_of_fillna (f : frame) : keys_of (fillna f) = keys_of f.
Proof.
  unfold keys_of, fillna. cbn [rows]. rewrite map_map. reflexivity.
Qed.

Lemma cell_fillna (f : frame) (k : key) (c : string) :
  cell (fillna f) k c = option_map F64.fillna0 (cell f k c).
Proof.
  unfold cell, fillna. cbn [rows columns].
  induction (rows f) as [|r rs IH]; [reflexivity|]. cbn [map find fst].
  destruct (key_eqb (fst r) k); [|exact IH].
  cbn [snd]. apply lookup_map.
Qed.


Lemma key_insert_not_nil (k : key) (ks : list key) : key_insert k ks <> [].
Proof.
  destruct ks as [|k' ks]; simpl; [discriminate|].
  destruct (key_compare k k'); discriminate.
Qed.

Lemma side_not_nil (f : frame) (k : key) : side f k <> [].
Proof. unfold side. destruct (rows_of f k); discriminate. Qed.

Lemma merge_outer_not_empty (a b : frame) :
  is_empty a = false -> is_empty (merge_outer a b) = false.
Proof.
  unfold is_empty, merge_outer. cbn [rows]. unfold keys_of.
  destruct (rows a) as [|r rs]; [discriminate|]. intros _.
  cbn [map app sorted_keys fold_right].
  destruct (key_insert (fst r) _) as [|k ks] eqn:E.
  { now apply key_insert_not_nil in E. }
  cbn [flat_map].
  destruct (side a k) as [|l ls] eqn:Ea; [now apply side_not_nil in Ea|].
  destruct (side b k) as [|l' ls'] eqn:Eb; [now apply side_not_nil in Eb|].
  reflexivity.
Qed.

Lemma empty_is_empty_frame (f : frame) :
  (rows f = [] -> columns f = []) -> is_empty f = true -> f = empty_frame.
Proof.
  destruct f as [cols rs]. unfold is_empty. cbn [rows columns].
  destruct rs; [|discriminate]. intros H _. now rewrite H.
Qed.

(** The merger joins the non-empty tables among its arguments, in their
    order, and fills the missing cells. *)
Lemma merge_features_join (a b c : frame) :
  (rows a = [] -> columns a = []) ->
  (rows b = [] -> columns b = []) ->
  (rows c = [] -> columns c = []) ->
  merge_features a b c
  = fillna (join_all (filter (fun f => negb (is_empty f)) [a; b; c])).
Proof.
  intros Ha Hb Hc. unfold merge_features. cbn [filter].
  destruct (is_empty a) eqn:Ea, (is_empty b) eqn:Eb, (is_empty c) eqn:Ec;
    cbn [negb join_all fold_left];
    rewrite ?Ea, ?Eb, ?Ec; cbn [negb];
    rewrite ?(merge_outer_not_empty a b Ea), ?Ec; cbn [negb];
    try reflexivity.
  now rewrite (empty_is_empty_frame c Hc Ec).
Qed.

(** ** Feature tables are well formed *)

Lemma group_insert_not_nil {K V : Type} (cmp : K -> K -> comparison)
      (k : K) (v : V) (gs : list (K * list V)) :
  group_insert cmp k v gs <> [].
Proof.
  destruct gs as [|[k' vs] gs]; simpl; [discriminate|].
  destruct (cmp k k'); discriminate.
Qed.

Lemma strongly_sorted_map {A B : Type} (P : B -> B -> Prop) (g : A -> B)
      (l : list A) :
  StronglySorted (fun x y => P (g x) (g y)) l -> StronglySorted P (map g l).
Proof.
  induction 1 as [|x l Hl IH Hx]; simpl; constructor; [assumption|].
  apply Forall_map. exact Hx.
Qed.

Lemma domain_features_keys (d : domain) (df : list norm_row) :
  keys_of (domain_features d df)
  = match df with
    | [] => []
    | _ => map fst (groupby key_compare (map (fun r => (nr_key r, r)) df))
    end.
Proof.
  destruct df as [|r0 df]; [reflexivity|].
  unfold keys_of, domain_features, process_domain_features, assign.
  cbn [rows]. rewrite !map_map. reflexivity.
Qed.

Lemma domain_features_well_formed (d : domain) (df : list norm_row) :
  well_formed (domain_features d df).
Proof.
  destruct df as [|r0 df].
  { repeat split; try constructor. }
  set (t := r0 :: df).
  assert (Hne : t <> []) by discriminate.
  split; [|split; [|split]].
  - rewrite domain_features_keys. unfold t at 1.
    apply sorted_NoDup, strongly_sorted_map.
    apply (groupby_sorted key_compare).
    + apply key_compare_eq.
    + apply key_compare_antisym.
    + apply key_compare_trans.
  - rewrite (domain_features_columns d t Hne).
    destruct d; cbn; repeat constructor; simpl; intuition discriminate.
  - apply Forall_forall. intros r Hr.
    rewrite (domain_features_columns d t Hne).
    destruct (domain_features_row d t r Hr)
      as [x1 [x2 [sd1 [sd2 [_ [_ ->]]]]]].
    now destruct d.
  - intros Hrows. exfalso.
    assert (Hk : keys_of (domain_features d t) = [])
      by (unfold keys_of; now rewrite Hrows).
    rewrite domain_features_keys in Hk. unfold t in Hk.
    cbn [map groupby] in Hk. apply map_eq_nil in Hk.
    now apply group_insert_not_nil in Hk.
Qed.

Lemma domain_features_disjoint (d1 d2 : domain) (df1 df2 : list norm_row) :
  d1 <> d2 ->
  disjoint_columns (domain_features d1 df1) (domain_features d2 df2).
Proof.
  intros Hd c H1 H2.
  destruct df1 as [|r1 df1]; [destruct H1|].
  destruct df2 as [|r2 df2]; [destruct H2|].
  rewrite domain_features_columns in H1, H2 by discriminate.
  destruct d1, d2; try contradiction; cbn in H1, H2;
    repeat (destruct H1 as [<-|H1]; [intuition discriminate|]);
    destruct H1.
Qed.

(** ** Order of the joins *)

Lemma pad_of_row (f : frame) (r : key * list f64) :
  NoDup (keys_of f) -> In r (rows f) -> pad f (fst r) = snd r.
Proof.
  unfold pad, keys_of. destruct f as [cols rs]. cbn [rows columns].
  induction rs as [|r0 rs IH]; intros Hnd Hin; [destruct Hin|].
  inversion Hnd as [|? ? Hr0 Hnd']; subst. cbn [find].
  destruct Hin as [->|Hin].
  - now rewrite key_eqb_refl.
  - destruct (key_eqb (fst r0) (fst r)) eqn:He.
    + apply key_eqb_eq in He. exfalso. apply Hr0. rewrite He.
      now apply in_map.
    + now apply IH.
Qed.

Lemma concat_pads_length (l : list frame) (k : key) :
  Forall well_formed l ->
  length (concat (map (fun x => pad x k) l))
  = length (concat (map columns l)).
Proof.
  induction 1 as [|x l Hx _ IH]; [reflexivity|].
  cbn [map concat]. rewrite !length_app, IH. f_equal.
  apply pad_length, Hx.
Qed.

(** The merged table has one row per key and one cell per column. *)
Lemma merge_features_shape (a b c : frame) :
  well_formed a -> well_formed b -> well_formed c ->
  disjoint_columns a b -> disjoint_columns a c -> disjoint_columns b c ->
  NoDup (keys_of (merge_features a b c))
  /\ Forall (fun r => length (snd r)
                      = length (columns (merge_features a b c)))
            (rows (merge_features a b c)).
Proof.
  intros Ha Hb Hc Hab Hac Hbc.
  rewrite merge_features_join by (apply Ha || apply Hb || apply Hc).
  set (l := filter (fun f => negb (is_empty f)) [a; b; c]).
  assert (Hwf : Forall well_formed l).
  { apply Forall_forall. intros x Hx. apply filter_In in Hx.
    destruct Hx as [[<-|[<-|[<-|[]]]] _]; assumption. }
  assert (Hfop : ForallOrdPairs disjoint_columns l).
  { apply FOP_filter. repeat constructor; assumption. }
  assert (Hnd : Forall (fun x => NoDup (keys_of x)) l).
  { revert Hwf. apply Forall_impl. intros x Hx. apply Hx. }
  destruct (join_all_spec l Hnd Hfop) as [H1 [H2 [H3 _]]].
  split; [now rewrite keys_of_fillna|].
  unfold fillna. cbn [rows columns]. apply Forall_map. cbn [snd].
  apply Forall_forall. intros r Hr. rewrite length_map.
  rewrite <- (pad_of_row _ r H1 Hr), H3, H2.
  now apply concat_pads_length.
Qed.




(* ===================================================================== *)
(** * Further properties of the pipeline *)

(** ** Group-by: conservation, keys, congruence *)

Lemma group_insert_sum {K V : Type} (cmp : K -> K -> comparison)
      (f : V -> R) (k : K) (v : V) (gs : list (K * list V)) :
  Rsum (map (fun g => Rsum (map f (snd g))) (group_insert cmp k v gs))
  = f v + Rsum (map (fun g => Rsum (map f (snd g))) gs).
Proof.
  induction gs as [|[k' vs] gs IH]; simpl; [lra|].
  destruct (cmp k k'); simpl; lra.
Qed.

(** Summing a quantity group by group gives the sum over all rows. *)
Lemma groupby_sum {K V : Type} (cmp : K -> K -> comparison) (f : V -> R)
      (rows : list (K * V)) :
  Rsum (map (fun g => Rsum (map f (snd g))) (groupby cmp rows))
  = Rsum (map (fun kv => f (snd kv)) rows).
Proof.
  induction rows as [|[k v] rows IH]; simpl; [reflexivity|].
  now rewrite group_insert_sum, IH.
Qed.

Lemma group_insert_keys_iff {K V : Type} (cmp : K -> K -> comparison)
      (cmp_eq : forall a b, cmp a b = Eq <-> a = b)
      (k x : K) (v : V) (gs : list (K * list V)) :
  In x (map fst (group_insert cmp k v gs)) <-> x = k \/ In x (map fst gs).
Proof.
  induction gs as [|[k' vs] gs IH]; simpl.
  - intuition.
  - destruct (cmp k k') eqn:Hc; simpl.
    + apply cmp_eq in Hc. subst k'. intuition.
    + intuition.
    + rewrite IH. intuition.
Qed.

Lemma groupby_keys_iff {K V : Type} (cmp : K -> K -> comparison)
      (cmp_eq : forall a b, cmp a b = Eq <-> a = b)
      (x : K) (rows : list (K * V)) :
  In x (map fst (groupby cmp rows)) <-> In x (map fst rows).
Proof.
  induction rows as [|[k v] rows IH]; simpl; [reflexivity|].
  rewrite (group_insert_keys_iff cmp cmp_eq), IH. intuition.
Qed.

Lemma group_insert_congr {K V W : Type} (cmp : K -> K -> comparison)
      (P : V -> W -> Prop) (k : K) (v : V) (w : W)
      (gs : list (K * list V)) (hs : list (K * list W)) :
  P v w ->
  Forall2 (fun g h => fst g = fst h /\ Forall2 P (snd g) (snd h)) gs hs ->
  Forall2 (fun g h => fst g = fst h /\ Forall2 P (snd g) (snd h))
          (group_insert cmp k v gs) (group_insert cmp k w hs).
Proof.
  intros Hvw. induction 1 as [|[k1 vs] [k2 ws] gs hs [Hk Hg] Hrest IH];
    simpl.
  - repeat constructor; assumption.
  - cbn [fst snd] in Hk, Hg. subst k2. destruct (cmp k k1).
    + constructor; [|assumption]. split; [reflexivity|]. now constructor.
    + constructor; [split; [reflexivity | now repeat constructor]|].
      constructor; [now split | assumption].
    + constructor; [now split | assumption].
Qed.

(** Tables that agree on the keys and are related row by row are grouped
    alike. *)
Lemma groupby_congr {K V W : Type} (cmp : K -> K -> comparison)
      (P : V -> W -> Prop) (rows : list (K * V)) (rows' : list (K * W)) :
  Forall2 (fun a b => fst a = fst b /\ P (snd a) (snd b)) rows rows' ->
  Forall2 (fun g h => fst g = fst h /\ Forall2 P (snd g) (snd h))
          (groupby cmp rows) (groupby cmp rows').
Proof.
  induction 1 as [|[k v] [k' w] rows rows' [Hk Hp] _ IH]; simpl;
    [constructor|].
  cbn [fst snd] in Hk, Hp. subst k'. now apply group_insert_congr.
Qed.

(** ** National anomaly detector: the daily series *)

Lemma dated_keys (raw_df : list demo_raw) (d : Z) :
  In d (map fst (dated raw_df)) <-> exists r, In r raw_df /\ dr_date r = Some d.
Proof.
  unfold dated. rewrite in_map_iff. split.
  - intros [[d' r] [<- Hin]]. apply in_flat_map in Hin.
    destruct Hin as [r' [Hr' Hin]]. exists r'. split; [assumption|].
    destruct (dr_date r') as [d''|]; [|destruct Hin].
    destruct Hin as [[= <- <-]|[]]. reflexivity.
  - intros [r [Hr Hd]]. exists (d, r). split; [reflexivity|].
    apply in_flat_map. exists r. split; [assumption|]. rewrite Hd. now left.
Qed.

(** X1: the daily national series has exactly one row for every calendar
    date that occurs in a record, the dates in strictly ascending order;
    records whose date did not parse (NaT) give no row. *)
Theorem X1_daily_series_dates (raw_df : list demo_raw) :
  StronglySorted Z.lt (map fst (daily_national_volume raw_df))
  /\ forall d, In d (map fst (daily_national_volume raw_df))
               <-> exists r, In r raw_df /\ dr_date r = Some d.
Proof.
  unfold daily_national_volume. rewrite map_map. cbn [fst]. split.
  - apply strongly_sorted_map.
    pose proof (groupby_sorted (V := demo_raw) Z.compare Z.compare_eq_iff)
      as Hs.
    apply Hs.
    + intros a b. apply Z.compare_antisym.
    + intros a b c. rewrite !Z.compare_lt_iff. lia.
  - intros d. rewrite (groupby_keys_iff Z.compare Z.compare_eq_iff).
    apply dated_keys.
Qed.

(** X2: aggregation to the daily series loses no volume: the daily totals
    add up to the two counters summed over all records with a valid
    date. *)
Theorem X2_daily_series_conserves_volume (raw_df : list demo_raw) :
  Rsum (map snd (daily_national_volume raw_df))
  = Rsum (map (fun r => demo_age_5_17 r + demo_age_17_ r)
              (map snd (dated raw_df))).
Proof.
  unfold daily_national_volume. rewrite !map_map. cbn [snd].
  rewrite <- (groupby_sum Z.compare
                (fun r => demo_age_5_17 r + demo_age_17_ r)).
  f_equal. apply map_ext. intros g.
  induction (snd g) as [|r l IH]; simpl; [lra|]. rewrite <- IH. lra.
Qed.

(** ** National anomaly detector: what a flagged day is *)

Lemma flagged_z_score (vols : list R) (x : R) :
  In x vols ->
  F64.gtb (F64.div (F64.sub (Fin x) (series_mean vols)) (series_std vols))
          (Fin 3) = true ->
  exists m s,
    series_mean vols = Fin m /\ series_std vols = Fin s
    /\ 0 < s /\ m + 3 * s < x.
Proof.
  intros Hx. destruct vols as [|a [|b vols]]; [easy | discriminate |].
  set (l := a :: b :: vols) in *.
  assert (Hn : 2 <= INR (length l)).
  { assert (H2 : (2 <= length l)%nat) by (subst l; simpl; lia).
    apply le_INR in H2. replace (INR 2) with 2 in H2 by (simpl; lra). lra. }
  unfold series_mean, series_std. fold l.
  change (match l with [] | [_] => NaN | _ => ?e end) with e.
  change (match l with [] => NaN | _ => ?e end) with e.
  set (m := Rsum l / INR (length l)).
  set (q := sq_dev m l / (INR (length l) - 1)).
  pose proof (sq_dev_In m x l Hx) as Hdev.
  pose proof (sq_dev_nonneg m l) as Hss.
  assert (Hq : 0 <= q).
  { unfold q. apply Rmult_le_pos; [assumption|].
    apply Rlt_le, Rinv_0_lt_compat. lra. }
  simpl F64.sub. unfold F64.div.
  destruct (Reqb (sqrt q) 0) eqn:Hs0.
  - apply Reqb_true in Hs0. apply sqrt_eq_0 in Hs0; [|assumption].
    assert (Hss0 : sq_dev m l = 0).
    { unfold q in Hs0. unfold Rdiv in Hs0.
      apply Rmult_integral in Hs0. destruct Hs0 as [H|H]; [exact H|].
      exfalso. assert (0 < / (INR (length l) - 1))
        by (apply Rinv_0_lt_compat; lra). lra. }
    assert (Hxm : x + - m = 0) by nra.
    rewrite Hxm. unfold Reqb. destruct (Req_dec_T 0 0); [discriminate | lra].
  - apply Reqb_false in Hs0. simpl. intros Hg. apply Rgtb_true in Hg.
    pose proof (sqrt_pos q) as Hsp.
    exists m, (sqrt q). repeat split; try lra.
    assert (Hs : 0 < sqrt q) by lra.
    apply (Rmult_lt_compat_r (sqrt q)) in Hg; [|assumption].
    unfold Rdiv in Hg. rewrite Rmult_assoc, Rinv_l in Hg by lra. lra.
Qed.

(** X3: a day is flagged only as an upward spike in a series of at least
    eleven days: its volume exceeds the mean of the series by more than
    three sample standard deviations, and that deviation is positive.  A
    drop in volume is never flagged, however deep. *)
Theorem X3_anomaly_is_upward_spike (daily_ts : list (Z * R)) (r : daily_row) :
  In r (detect_anomalies daily_ts) ->
  (11 <= length daily_ts)%nat
  /\ exists m s,
       series_mean (map snd daily_ts) = Fin m
       /\ series_std (map snd daily_ts) = Fin s
       /\ 0 < s /\ m + 3 * s < total_vol r.
Proof.
  intros Hr. split.
  - destruct (le_lt_dec (length daily_ts) 10) as [Hle|Hlt]; [|lia].
    rewrite (short_series_no_anomaly daily_ts Hle) in Hr. destruct Hr.
  - unfold detect_anomalies in Hr. apply filter_In in Hr.
    destruct Hr as [Hin Hg]. apply z_score_shape in Hin.
    destruct Hin as [Hin Hz]. rewrite Hz in Hg.
    now apply flagged_z_score.
Qed.

Lemma eleven_day_mean : series_mean (map snd eleven_day_series) = Fin 1000.
Proof. unfold series_mean. simpl. f_equal. lra. Qed.

Lemma eleven_day_std :
  series_std (map snd eleven_day_series) = Fin (sqrt 8910000).
Proof.
  unfold series_std, sq_dev. cbn [map snd eleven_day_series length].
  f_equal. f_equal. simpl. field.
Qed.

Lemma eleven_day_std_bounds : 0 < sqrt 8910000 < 3000.
Proof.
  split; [apply sqrt_lt_R0; lra|].
  replace 3000 with (sqrt (3000 * 3000)) by (apply sqrt_square; lra).
  apply sqrt_lt_1; lra.
Qed.

Lemma eleven_day_spike_flagged :
  In {| date := 11; total_vol := 10000;
        z_score := F64.div (F64.sub (Fin 10000)
                                    (series_mean (map snd eleven_day_series)))
                           (series_std (map snd eleven_day_series)) |}
     (detect_anomalies eleven_day_series).
Proof.
  unfold detect_anomalies. apply filter_In. split.
  - unfold with_z_score. apply in_map_iff. exists (11%Z, 10000).
    split; [reflexivity|]. unfold eleven_day_series.
    do 10 right. now left.
  - cbn [z_score]. rewrite eleven_day_mean, eleven_day_std.
    pose proof eleven_day_std_bounds as [Hs0 Hs1].
    simpl F64.sub. rewrite div_fin by lra. simpl. apply Rgtb_true.
    apply (Rmult_lt_reg_r (sqrt 8910000)); [assumption|].
    unfold Rdiv. rewrite Rmult_assoc, Rinv_l by lra. lra.
Qed.

Lemma X3_witness :
  (11 <= length eleven_day_series)%nat
  /\ exists m s,
       series_mean (map snd eleven_day_series) = Fin m
       /\ series_std (map snd eleven_day_series) = Fin s
       /\ 0 < s /\ m + 3 * s < 10000.
Proof.
  exact (X3_anomaly_is_upward_spike eleven_day_series _
           eleven_day_spike_flagged).
Defined.

(** ** Pincode feature builder: rows, keys, volume *)

Lemma domain_features_rows (d : domain) (df : list norm_row) :
  df <> [] ->
  rows (domain_features d df)
  = map (fun g => (fst g, feature_cells d (snd g)))
        (groupby key_compare (map (fun r => (nr_key r, r)) df)).
Proof.
  destruct df as [|r0 df]; [easy|]. intros _.
  unfold domain_features, process_domain_features, assign.
  cbn [rows columns]. rewrite !map_map. apply map_ext. intros g.
  cbn [fst snd]. destruct d; reflexivity.
Qed.

Lemma keyed_filter {A K : Type} (key_of : A -> K) (p : K -> bool)
      (l : list A) :
  map snd (filter (fun kv => p (fst kv)) (map (fun r => (key_of r, r)) l))
  = filter (fun r => p (key_of r)) l.
Proof.
  induction l as [|r l IH]; simpl; [reflexivity|].
  destruct (p (key_of r)); simpl; now rewrite IH.
Qed.

Lemma key_compare_eqb (a b : key) :
  match key_compare a b with Eq => true | _ => false end = key_eqb b a.
Proof.
  unfold key_eqb. rewrite (key_compare_antisym b a).
  now destruct (key_compare a b).
Qed.

(** The records behind the feature row of a key. *)
Lemma domain_features_group (d : domain) (df : list norm_row) (k : key)
      (cells : list f64) :
  In (k, cells) (rows (domain_features d df)) ->
  cells = feature_cells d (filter (fun r => key_eqb (nr_key r) k) df).
Proof.
  destruct df as [|r0 df]; [intros []|]. set (t := r0 :: df).
  rewrite domain_features_rows by discriminate.
  rewrite in_map_iff. intros [[k' g] [[= -> <-] Hin]].
  apply (groupby_In key_compare key_compare_eq key_compare_antisym
                    key_compare_trans) in Hin.
  rewrite Hin. f_equal.
  rewrite (keyed_filter nr_key
             (fun k0 => match key_compare k k0 with Eq => true | _ => false end)).
  apply filter_ext. intros r. apply key_compare_eqb.
Qed.

(** On records with full keys the feature table has exactly one row for
    every key that occurs, the keys in strictly ascending order. *)
Lemma feature_keys (d : domain) (df : list norm_row) :
  StronglySorted key_lt (keys_of (domain_features d df))
  /\ forall k, In k (keys_of (domain_features d df))
               <-> exists r, In r df /\ nr_key r = k.
Proof.
  rewrite domain_features_keys. destruct df as [|r0 df].
  - split; [constructor|]. intros k. split; [intros [] | intros [r [[] _]]].
  - set (t := r0 :: df). split.
    + apply strongly_sorted_map.
      apply (groupby_sorted key_compare key_compare_eq key_compare_antisym
                            key_compare_trans).
    + intros k. rewrite (groupby_keys_iff key_compare key_compare_eq).
      rewrite map_map. cbn [fst]. rewrite in_map_iff.
      split; intros [r [H1 H2]]; exists r; tauto.
Qed.

Lemma stability_single_record (v : R) :
  0 < v -> stability (Fin 0) (Fin v) = Fin 10.
Proof.
  intros Hv. unfold stability.
  change (F64.gtb (Fin v) (Fin 0)) with (Rgtb v 0).
  rewrite (proj2 (Rgtb_true v 0) Hv).
  change (F64.add (Fin v) (Fin 1)) with (Fin (v + 1)).
  rewrite div_fin by lra.
  change (F64.add (Fin (0 / (v + 1))) (Fin (1 / 10)))
    with (Fin (0 / (v + 1) + 1 / 10)).
  assert (H0 : 0 / (v + 1) = 0) by (unfold Rdiv; ring).
  rewrite div_fin by (rewrite H0; lra). f_equal. rewrite H0. field.
Qed.

Lemma feature_key_present (d : domain) (df : list norm_row) (r : norm_row) :
  In r df -> In (nr_key r) (keys_of (domain_features d df)).
Proof.
  intros Hr. rewrite domain_features_keys.
  destruct df as [|r0 df]; [destruct Hr|]. set (t := r0 :: df) in *.
  rewrite (groupby_keys_iff key_compare key_compare_eq), map_map. cbn [fst].
  now apply in_map.
Qed.

(** X5: a pincode with a single record has no standard deviation (NaN in
    both [_std] columns) and, when its volume is positive, the maximal
    stability 10. *)
Theorem X5_single_record_stability
        (d : domain) (df : list norm_row) (k : key) (r0 : norm_row) :
  filter (fun r => key_eqb (nr_key r) k) df = [r0] ->
  0 < nr_cell r0 (child_col d) + nr_cell r0 (adult_col d) ->
  cell (domain_features d df) k (prefix_of d ++ "_stability")%string
  = Some (Fin 10)
  /\ cell (domain_features d df) k (child_col d ++ "_std")%string = Some NaN
  /\ cell (domain_features d df) k (adult_col d ++ "_std")%string = Some NaN.
Proof.
  intros Hone Hpos.
  assert (Hne : df <> []) by (intros ->; discriminate).
  assert (Hr0 : In r0 df /\ key_eqb (nr_key r0) k = true).
  { apply (filter_In (fun r => key_eqb (nr_key r) k)). rewrite Hone.
    now left. }
  destruct Hr0 as [Hr0 Hk0]. apply key_eqb_eq in Hk0.
  pose proof (feature_key_present d df r0 Hr0) as Hk. rewrite Hk0 in Hk.
  destruct (find_key_some _ _ Hk) as [cells [Hfind Hin]].
  apply domain_features_group in Hin. rewrite Hone in Hin.
  unfold cell. rewrite Hfind. cbn [snd].
  rewrite (domain_features_columns d df Hne), Hin.
  unfold feature_cells. cbn [map Rsum series_std nansum].
  cbn [F64.add].
  set (v := nr_cell r0 (child_col d) + 0 + (nr_cell r0 (adult_col d) + 0 + 0)).
  rewrite (stability_single_record v) by (unfold v; lra).
  destruct d; repeat split; reflexivity.
Qed.

Lemma X5_witness :
  cell (domain_features Enrol sample_enrol_table)
       ("Goa", "South Goa", 403601%Z)%string "enrol_stability"%string
  = Some (Fin 10).
Proof.
  apply (X5_single_record_stability Enrol sample_enrol_table
           ("Goa", "South Goa", 403601%Z)%string
           (nth 2 sample_enrol_table
                {| nr_state := ""; nr_district := ""; nr_pincode := 0;
                   nr_cell := fun _ => 0 |})).
  - reflexivity.
  - simpl. lra.
Defined.

Lemma nansum_fins (xs : list R) : nansum (map Fin xs) = Fin (Rsum xs).
Proof.
  induction xs as [|x xs IH]; [reflexivity|].
  cbn [map nansum Rsum]. now rewrite IH.
Qed.

Lemma Rsum_map_plus {A : Type} (f g : A -> R) (l : list A) :
  Rsum (map (fun a => f a + g a) l) = Rsum (map f l) + Rsum (map g l).
Proof. induction l as [|a l IH]; simpl; lra. Qed.

(** On records with full keys the total volumes of the feature rows add up
    to the two value columns summed over all records. *)
Lemma feature_volume_conserved (d : domain) (df : list norm_row) :
  nansum (column_values (columns (domain_features d df))
                        (prefix_of d ++ "_total_vol")%string
                        (rows (domain_features d df)))
  = Fin (Rsum (map (fun r => nr_cell r (child_col d) + nr_cell r (adult_col d))
                   df)).
Proof.
  destruct df as [|r0 df]; [reflexivity|]. set (t := r0 :: df).
  assert (Hne : t <> []) by discriminate.
  rewrite (domain_features_columns d t Hne), (domain_features_rows d t Hne).
  set (f := fun r => nr_cell r (child_col d) + nr_cell r (adult_col d)).
  change (fun r => nr_cell r (child_col d) + nr_cell r (adult_col d)) with f.
  replace (Rsum (map f t))
    with (Rsum (map (fun kv : key * norm_row => f (snd kv))
                    (map (fun r => (nr_key r, r)) t)))
    by (now rewrite map_map).
  rewrite <- (groupby_sum key_compare f (map (fun r => (nr_key r, r)) t)).
  rewrite <- nansum_fins. f_equal. unfold column_values.
  induction (groupby key_compare (map (fun r => (nr_key r, r)) t))
    as [|g gs IH]; [reflexivity|].
  cbn [map flat_map]. rewrite IH.
  replace (Rsum (map f (snd g)))
    with (Rsum (map (fun r => nr_cell r (child_col d)) (snd g))
          + (Rsum (map (fun r => nr_cell r (adult_col d)) (snd g)) + 0)).
  - destruct d; reflexivity.
  - unfold f. rewrite Rsum_map_plus. lra.
Qed.

(** X7: the feature table is a function of the keys and of the two value
    columns of the domain alone; no other column of the domain table (the
    infant counter of the enrolment domain, the date) has any influence on
    it. *)
Theorem X7_features_depend_on_value_columns
        (d : domain) (df df' : list norm_row) :
  Forall2 (fun r r' => nr_key r = nr_key r'
                       /\ forall c, In c (val_cols_of d) ->
                                    nr_cell r c = nr_cell r' c) df df' ->
  domain_features d df = domain_features d df'.
Proof.
  intros H.
  destruct df as [|r0 df], df' as [|r0' df']; try (now inversion H).
  set (t := r0 :: df) in *. set (t' := r0' :: df') in *.
  assert (Hc : columns (domain_features d t) = columns (domain_features d t'))
    by (rewrite !domain_features_columns by discriminate; reflexivity).
  assert (Hr : rows (domain_features d t) = rows (domain_features d t')).
  { rewrite !domain_features_rows by discriminate.
    assert (Hg : Forall2
                   (fun g h =>
                      fst g = fst h
                      /\ Forall2 (fun r r' => forall c, In c (val_cols_of d) ->
                                               nr_cell r c = nr_cell r' c)
                                 (snd g) (snd h))
                   (groupby key_compare (map (fun r => (nr_key r, r)) t))
                   (groupby key_compare (map (fun r => (nr_key r, r)) t'))).
    { apply groupby_congr. clear -H.
      induction H as [|r r' l l' [Hk Hc] _ IH]; cbn [map]; constructor;
        [now split | assumption]. }
    induction Hg as [|g h gs hs [Hk Hm] _ IH]; [reflexivity|].
    cbn [map]. rewrite IH, Hk. do 2 f_equal.
    assert (Hcol : forall c, In c (val_cols_of d) ->
                             map (fun r => nr_cell r c) (snd g)
                             = map (fun r => nr_cell r c) (snd h)).
    { intros c Hin. clear -Hm Hin.
      induction Hm as [|r r' l l' Hr _ IH]; [reflexivity|].
      cbn [map]. now rewrite IH, (Hr c Hin). }
    unfold feature_cells.
    rewrite (Hcol (child_col d)) by (destruct d; simpl; tauto).
    rewrite (Hcol (adult_col d)) by (destruct d; simpl; tauto).
    reflexivity. }
  destruct (domain_features d t), (domain_features d t').
  cbn [columns rows] in Hc, Hr. now subst.
Qed.

Lemma X7_witness :
  domain_features Enrol sample_enrol_table
  = domain_features Enrol sample_enrol_table_infants.
Proof.
  apply X7_features_depend_on_value_columns.
  unfold sample_enrol_table_infants, sample_enrol_table. cbn [map].
  repeat constructor; cbn [nr_cell];
    intros c [<-|[<-|[]]]; reflexivity.
Defined.

(** ** Domain merger: what the merged table holds *)

Lemma lookup_repeat_nan (cols : list string) (c : string) :
  In c cols -> lookup cols (repeat NaN (length cols)) c = Some NaN.
Proof.
  induction cols as [|n cols IH]; [intros []|]. intros Hin. simpl.
  destruct (String.eqb n c) eqn:He; [reflexivity|].
  apply IH. destruct Hin as [->|Hin]; [|assumption].
  rewrite String.eqb_refl in He. discriminate.
Qed.

Lemma keys_not_empty (f : frame) (k : key) :
  In k (keys_of f) -> is_empty f = false.
Proof.
  unfold keys_of, is_empty. destruct (rows f); [intros [] | reflexivity].
Qed.

Lemma present_features (a b c : frame) :
  well_formed a -> well_formed b -> well_formed c ->
  disjoint_columns a b -> disjoint_columns a c -> disjoint_columns b c ->
  let l := filter (fun f => negb (is_empty f)) [a; b; c] in
  merge_features a b c = fillna (join_all l)
  /\ Forall well_formed l
  /\ ForallOrdPairs disjoint_columns l
  /\ Forall (fun x => NoDup (keys_of x)) l.
Proof.
  intros Ha Hb Hc Hab Hac Hbc l.
  assert (Hwf : Forall well_formed l).
  { apply Forall_forall. intros x Hx. apply filter_In in Hx.
    destruct Hx as [[<-|[<-|[<-|[]]]] _]; assumption. }
  split; [apply merge_features_join; (apply Ha || apply Hb || apply Hc)|].
  split; [exact Hwf|]. split.
  - apply FOP_filter. repeat constructor; assumption.
  - revert Hwf. apply Forall_impl. intros x Hx. apply Hx.
Qed.

(** A cell of the merged table under a column of one of the joined
    tables. *)
Lemma merge_features_cell (a b c x : frame) (k : key) (col : string) :
  well_formed a -> well_formed b -> well_formed c ->
  disjoint_columns a b -> disjoint_columns a c -> disjoint_columns b c ->
  In x [a; b; c] ->
  In k (keys_of (merge_features a b c)) ->
  In col (columns x) ->
  cell (merge_features a b c) k col
  = option_map F64.fillna0 (lookup (columns x) (pad x k) col).
Proof.
  intros Ha Hb Hc Hab Hac Hbc Hx Hk Hcol.
  destruct (present_features a b c Ha Hb Hc Hab Hac Hbc)
    as [Hj [Hwf [Hfop Hnd]]].
  set (l := filter (fun f => negb (is_empty f)) [a; b; c]) in *.
  rewrite Hj in Hk |- *. rewrite keys_of_fillna in Hk.
  assert (Hxw : well_formed x)
    by (destruct Hx as [<-|[<-|[<-|[]]]]; assumption).
  assert (Hxl : In x l).
  { apply filter_In. split; [assumption|].
    destruct (is_empty x) eqn:E; [|reflexivity]. exfalso.
    unfold is_empty in E. destruct (rows x) eqn:Er; [|discriminate].
    destruct Hxw as [_ [_ [_ H]]]. rewrite (H Er) in Hcol. destruct Hcol. }
  destruct (join_all_spec l Hnd Hfop) as [_ [Hc' [Hpad _]]].
  rewrite cell_fillna, cell_pad.
  rewrite (proj2 (existsb_key _ k) Hk), Hc', Hpad. f_equal.
  destruct (has_column_lookup (columns x) (pad x k) col) as [v Hv].
  { apply pad_length, Hxw. }
  { now apply has_column_In. }
  rewrite Hv.
  pose proof (block_lookup (map (fun y => (columns y, pad y k)) l) col v)
    as Hb'.
  rewrite !map_map in Hb'. cbn [fst snd] in Hb'. apply Hb'.
  - apply Forall_map. cbn [fst snd]. revert Hwf. apply Forall_impl.
    intros y Hy. apply pad_length, Hy.
  - clear -Hfop. induction Hfop as [|y l Hy Hl IH]; cbn [map];
      constructor; [|assumption].
    apply Forall_map. revert Hy. apply Forall_impl. intros z Hz. exact Hz.
  - exists (columns x, pad x k). split; [|exact Hv].
    apply in_map_iff. now exists x.
Qed.

Lemma feature_tables_ready (df_enrol df_bio df_demo : list norm_row) :
  let fe := domain_features Enrol df_enrol in
  let fb := domain_features Bio df_bio in
  let fd := domain_features Demo df_demo in
  well_formed fe /\ well_formed fb /\ well_formed fd
  /\ disjoint_columns fe fb /\ disjoint_columns fe fd
  /\ disjoint_columns fb fd.
Proof.
  cbn zeta. repeat split; try apply domain_features_well_formed;
    apply domain_features_disjoint; discriminate.
Qed.

Lemma feature_table_in (d : domain) (df_enrol df_bio df_demo : list norm_row) :
  In (domain_features d (table_of d df_enrol df_bio df_demo))
     [domain_features Enrol df_enrol; domain_features Bio df_bio;
      domain_features Demo df_demo].
Proof. destruct d; simpl; tauto. Qed.

(** X8: under a column of a domain, the merged table holds the cell of that
    domain's feature table for the pincodes the domain has, missing values
    replaced by 0, and 0 for the pincodes the domain does not have. *)
Theorem X8_merged_cells
        (df_enrol df_bio df_demo : list norm_row) (d : domain)
        (k : key) (c : string) :
  let out := load_and_engineer_data df_enrol df_bio df_demo in
  let fx := domain_features d (table_of d df_enrol df_bio df_demo) in
  In k (keys_of out) ->
  In c (columns fx) ->
  (In k (keys_of fx) -> cell out k c = option_map F64.fillna0 (cell fx k c))
  /\ (~ In k (keys_of fx) -> cell out k c = Some (Fin 0)).
Proof.
  intros out fx Hk Hc. subst out. unfold load_and_engineer_data in *.
  destruct (feature_tables_ready df_enrol df_bio df_demo)
    as [He [Hb [Hd [Heb [Hed Hbd]]]]].
  pose proof (merge_features_cell _ _ _ fx k c He Hb Hd Heb Hed Hbd
                (feature_table_in d df_enrol df_bio df_demo) Hk Hc) as Hcell.
  split; intros Hin; rewrite Hcell.
  - rewrite cell_pad. now rewrite (proj2 (existsb_key _ k) Hin).
  - rewrite pad_absent by assumption. now rewrite lookup_repeat_nan.
Qed.

Lemma X8_witness :
  cell (load_and_engineer_data sample_enrol_table sample_bio_table [])
       ("Goa", "South Goa", 403601%Z)%string "bio_total_vol"%string
  = Some (Fin 0).
Proof.
  apply (X8_merged_cells sample_enrol_table sample_bio_table [] Bio).
  - vm_compute. right. left. reflexivity.
  - vm_compute. tauto.
  - vm_compute. intros [H|[H|[]]]; discriminate H.
Defined.

(** On records with full keys the merged table has exactly one row for
    every key that occurs in any of the three domain tables, and none of its
    cells is missing. *)
Lemma merged_keys_and_cells (df_enrol df_bio df_demo : list norm_row) :
  let out := load_and_engineer_data df_enrol df_bio df_demo in
  NoDup (keys_of out)
  /\ (forall k, In k (keys_of out)
                <-> exists r, In r (df_enrol ++ df_bio ++ df_demo)
                              /\ nr_key r = k)
  /\ forall r x, In r (rows out) -> In x (snd r) -> F64.isnan x = false.
Proof.
  intros out.
  destruct (feature_tables_ready df_enrol df_bio df_demo)
    as [He [Hb [Hd [Heb [Hed Hbd]]]]].
  split; [now apply merge_features_shape|]. split.
  - destruct (present_features _ _ _ He Hb Hd Heb Hed Hbd)
      as [Hj [Hwf [Hfop Hnd]]].
    set (l := filter _ _) in *.
    destruct (join_all_spec l Hnd Hfop) as [_ [_ [_ [Hkeys _]]]].
    intros k. unfold out, load_and_engineer_data.
    rewrite Hj, keys_of_fillna, Hkeys. split.
    + intros [x [Hx Hin]]. apply filter_In in Hx. destruct Hx as [Hx _].
      assert (Hd' : exists d, x = domain_features d
                                    (table_of d df_enrol df_bio df_demo)).
      { destruct Hx as [<-|[<-|[<-|[]]]];
          [now exists Enrol | now exists Bio | now exists Demo]. }
      destruct Hd' as [d' ->].
      rewrite domain_features_keys in Hin.
      destruct (table_of d' df_enrol df_bio df_demo) as [|r0 t] eqn:Et;
        [destruct Hin|].
      rewrite (groupby_keys_iff key_compare key_compare_eq), map_map in Hin.
      cbn [fst] in Hin. apply in_map_iff in Hin.
      destruct Hin as [r [Hr Hin]]. exists r. split; [|assumption].
      rewrite <- Et in Hin. rewrite !in_app_iff.
      destruct d'; cbn [table_of] in Hin; tauto.
    + intros [r [Hr <-]]. rewrite !in_app_iff in Hr.
      assert (Hd' : exists d, In r (table_of d df_enrol df_bio df_demo)).
      { destruct Hr as [H|[H|H]];
          [now exists Enrol | now exists Bio | now exists Demo]. }
      destruct Hd' as [d' Hin].
      pose proof (feature_key_present d' _ r Hin) as Hk.
      eexists. split; [|exact Hk].
      apply filter_In. split; [apply feature_table_in|].
      now rewrite (keys_not_empty _ _ Hk).
  - intros r x Hr Hx. unfold out, load_and_engineer_data, merge_features in Hr.
    unfold fillna in Hr. cbn [rows] in Hr. apply in_map_iff in Hr.
    destruct Hr as [r' [<- _]]. cbn [snd] in Hx. apply in_map_iff in Hx.
    destruct Hx as [y [<- _]]. now destruct y.
Qed.

(** ** The run when a domain is missing *)

Lemma merged_columns_from (df_enrol df_bio df_demo : list norm_row)
      (c : string) :
  In c (columns (load_and_engineer_data df_enrol df_bio df_demo)) ->
  exists d, table_of d df_enrol df_bio df_demo <> []
            /\ In c (columns (domain_features
                                d (table_of d df_enrol df_bio df_demo))).
Proof.
  destruct (feature_tables_ready df_enrol df_bio df_demo)
    as [He [Hb [Hd [Heb [Hed Hbd]]]]].
  destruct (present_features _ _ _ He Hb Hd Heb Hed Hbd)
    as [Hj [Hwf [Hfop Hnd]]].
  set (l := filter _ _) in *.
  destruct (join_all_spec l Hnd Hfop) as [_ [Hcols _]].
  unfold load_and_engineer_data. rewrite Hj.
  change (columns (fillna (join_all l))) with (columns (join_all l)).
  rewrite Hcols. intros Hin. apply in_concat in Hin.
  destruct Hin as [cols [Hcols' Hin]]. apply in_map_iff in Hcols'.
  destruct Hcols' as [x [<- Hx]]. apply filter_In in Hx.
  destruct Hx as [Hx _].
  assert (Hd' : exists d, x = domain_features
                                d (table_of d df_enrol df_bio df_demo)).
  { destruct Hx as [<-|[<-|[<-|[]]]];
      [now exists Enrol | now exists Bio | now exists Demo]. }
  destruct Hd' as [d' ->]. exists d'. split; [|assumption].
  intros Hnil. rewrite Hnil in Hin. destruct Hin.
Qed.

Lemma missing_domain_volume (df_enrol df_bio df_demo : list norm_row)
      (d : domain) :
  table_of d df_enrol df_bio df_demo = [] ->
  has_column (columns (load_and_engineer_data df_enrol df_bio df_demo))
             (prefix_of d ++ "_total_vol")%string = false.
Proof.
  intros Hnil. apply has_column_false. intros Hin.
  apply merged_columns_from in Hin. destruct Hin as [d' [Hne Hin]].
  rewrite domain_features_columns in Hin by assumption.
  destruct d, d'; try contradiction; cbn in Hin;
    repeat (destruct Hin as [Hin|Hin]; [discriminate Hin|]); destruct Hin.
Qed.





(** ** Intra-district variance reporter: the selected district *)

Lemma gtb_trans (a b c : f64) :
  F64.gtb a b = true -> F64.gtb b c = true -> F64.gtb a c = true.
Proof.
  destruct a, b, c; simpl; try discriminate; try reflexivity.
  rewrite !Rgtb_true. lra.
Qed.

Lemma gtb_above (a b c : f64) :
  F64.isnan a = false -> F64.isnan b = false -> F64.isnan c = false ->
  F64.gtb a c = true -> F64.gtb b c = false -> F64.gtb a b = true.
Proof.
  destruct a, b, c; simpl; try discriminate; try reflexivity.
  intros _ _ _. rewrite !Rgtb_true, Rgtb_false. lra.
Qed.

Lemma gtb_irrefl (a : f64) : F64.gtb a a = false.
Proof. destruct a; simpl; try reflexivity. apply Rgtb_false. lra. Qed.

(** [idxmax_from] returns the label of the first greatest cell: the cells
    before it are smaller, the cells after it are not greater. *)
Lemma idxmax_from_spec {K : Type} (l : list (K * f64)) (best : K * f64) :
  Forall (fun kv => F64.isnan (snd kv) = false) (best :: l) ->
  exists pre top post,
    best :: l = pre ++ top :: post
    /\ idxmax_from best l = fst top
    /\ Forall (fun kv => F64.gtb (snd top) (snd kv) = true) pre
    /\ Forall (fun kv => F64.gtb (snd kv) (snd top) = false) post.
Proof.
  revert best. induction l as [|kv l IH]; intros best Hn.
  - exists [], best, []. repeat split; constructor.
  - inversion Hn as [|? ? Hb Hn']; subst.
    inversion Hn' as [|? ? Hkv Hl]; subst.
    cbn [idxmax_from]. destruct (F64.gtb (snd kv) (snd best)) eqn:Hg.
    + destruct (IH kv Hn') as [pre [top [post [Heq [Hres [Hpre Hpost]]]]]].
      exists (best :: pre), top, post. rewrite Heq.
      split; [reflexivity|]. split; [assumption|]. split; [|assumption].
      constructor; [|assumption].
      destruct pre as [|p pre].
      * injection Heq as <- _. exact Hg.
      * injection Heq as <- _. inversion Hpre as [|? ? Hp _]; subst.
        now apply (gtb_trans _ (snd kv)).
    + assert (Hn'' : Forall (fun kv => F64.isnan (snd kv) = false)
                            (best :: l)) by now constructor.
      destruct (IH best Hn'') as [pre [top [post [Heq [Hres [Hpre Hpost]]]]]].
      assert (Htop : F64.isnan (snd top) = false).
      { rewrite Forall_forall in Hn''. apply Hn''. rewrite Heq.
        apply in_or_app. right. now left. }
      destruct pre as [|p pre].
      * injection Heq as <- <-. exists [], best, (kv :: l).
        repeat split; try constructor; assumption.
      * injection Heq as <- Heq. inversion Hpre as [|? ? Hp Hpre']; subst.
        exists (best :: kv :: pre), top, post.
        split; [reflexivity|]. split; [assumption|]. split; [|assumption].
        constructor; [assumption|]. constructor; [|assumption].
        destruct (F64.gtb (snd top) (snd kv)) eqn:Htk; [reflexivity|].
        exfalso.
        pose proof (gtb_above (snd top) (snd kv) (snd best) Htop Hkv Hb Hp Hg)
          as Hc.
        congruence.
Qed.

Lemma idxmax_spec {K : Type} (l : list (K * f64)) (k : K) :
  idxmax l = Some k ->
  exists v, In (k, v) l /\ F64.isnan v = false
            /\ forall kv, In kv l -> F64.gtb (snd kv) v = false.
Proof.
  unfold idxmax.
  destruct (filter _ l) as [|best rest] eqn:Ef; [discriminate|].
  intros [= <-].
  assert (Hn : Forall (fun kv => F64.isnan (snd kv) = false) (best :: rest)).
  { rewrite <- Ef. apply Forall_forall. intros kv Hkv.
    apply filter_In in Hkv. destruct Hkv as [_ H].
    now destruct (F64.isnan (snd kv)). }
  destruct (idxmax_from_spec rest best Hn)
    as [pre [top [post [Heq [Hres [Hpre Hpost]]]]]].
  assert (Htop : In top (best :: rest))
    by (rewrite Heq; apply in_or_app; right; now left).
  assert (Htn : F64.isnan (snd top) = false)
    by (rewrite Forall_forall in Hn; now apply Hn).
  exists (snd top). rewrite Hres. split; [|split; [assumption|]].
  - rewrite <- surjective_pairing. rewrite <- Ef in Htop.
    now apply filter_In in Htop.
  - intros kv Hkv. destruct (F64.isnan (snd kv)) eqn:Hk.
    { destruct (snd kv); try discriminate. reflexivity. }
    assert (Hin : In kv (best :: rest)).
    { rewrite <- Ef. apply filter_In. split; [assumption|]. now rewrite Hk. }
    rewrite Heq in Hin. apply in_app_or in Hin.
    rewrite Forall_forall in Hpre, Hpost.
    destruct Hin as [Hin|[<-|Hin]].
    + specialize (Hpre _ Hin).
      destruct (F64.gtb (snd kv) (snd top)) eqn:E; [|reflexivity].
      pose proof (gtb_trans _ _ _ Hpre E) as Hc.
      rewrite gtb_irrefl in Hc. discriminate.
    + apply gtb_irrefl.
    + now apply Hpost.
Qed.

Lemma district_eqb_eq (a b : district_key) :
  district_eqb a b = true <-> a = b.
Proof.
  unfold district_eqb. destruct a as [s d], b as [s' d']. cbn [fst snd].
  rewrite andb_true_iff, !String.eqb_eq. split.
  - now intros [-> ->].
  - now intros [= -> ->].
Qed.

Lemma district_compare_eqb (a b : district_key) :
  match district_compare a b with Eq => true | _ => false end
  = district_eqb b a.
Proof.
  destruct (district_eqb b a) eqn:E.
  - apply district_eqb_eq in E. subst.
    now rewrite (proj2 (district_compare_eq a a) eq_refl).
  - destruct (district_compare a b) eqn:C; try reflexivity.
    apply district_compare_eq in C. subst.
    rewrite (proj2 (district_eqb_eq b b) eq_refl) in E. discriminate.
Qed.

(** The group of a district in the group-by is the selection of its rows. *)
Lemma by_district_group (df : frame) (d : district_key)
      (g : list (key * list f64)) :
  In (d, g) (by_district df) -> g = district_rows df d.
Proof.
  unfold by_district, district_rows. intros Hin.
  apply (groupby_In district_compare district_compare_eq
                    district_compare_antisym district_compare_trans) in Hin.
  rewrite Hin.
  rewrite (keyed_filter (fun r : key * list f64 => district_of (fst r))
             (fun d0 => match district_compare d d0 with
                        | Eq => true | _ => false end)).
  apply filter_ext. intros r. apply district_compare_eqb.
Qed.

Lemma by_district_present (df : frame) (r : key * list f64) :
  In r (rows df) ->
  exists g, In (district_of (fst r), g) (by_district df).
Proof.
  intros Hr.
  assert (Hk : In (district_of (fst r)) (map fst (by_district df))).
  { unfold by_district.
    rewrite (groupby_keys_iff district_compare district_compare_eq), map_map.
    cbn [fst]. apply in_map_iff. now exists r. }
  apply in_map_iff in Hk. destruct Hk as [[d g] [Hd Hin]].
  cbn [fst] in Hd. subst d. now exists g.
Qed.

(** X12: the district the reporter selects carries the greatest summed
    load: it is the district of some pincode of the table, its load is a
    number, and no district of the table has a greater load. *)
Theorem X12_selected_district_is_busiest
        (df df' : frame) (rep : variance_report) :
  analyze_pincode_variance df = (df', Returned (Some rep)) ->
  let top := (top_state rep, top_district rep) in
  (exists r, In r (rows df') /\ district_of (fst r) = top)
  /\ F64.isnan (district_load df' top) = false
  /\ forall r, In r (rows df') ->
               F64.gtb (district_load df' (district_of (fst r)))
                       (district_load df' top) = false.
Proof.
  unfold analyze_pincode_variance.
  destruct (_ && _ && _)%bool; [|discriminate].
  destruct (busiest_district (with_total_load df)) as [top|] eqn:Hb;
    [|discriminate].
  destruct (district_rows (with_total_load df) top) as [|r0 rs] eqn:Hsub;
    [discriminate|].
  intros H. injection H as <- <-. cbn [top_state top_district].
  rewrite <- surjective_pairing. cbn zeta.
  set (f := with_total_load df) in *.
  unfold busiest_district in Hb. apply idxmax_spec in Hb.
  destruct Hb as [v [Hin [Hnan Hmax]]].
  apply in_map_iff in Hin. destruct Hin as [[d g] [[= -> <-] Hin]].
  pose proof (by_district_group f top g Hin) as Hg. cbn [snd] in *.
  assert (Hload : district_load f top
                  = nansum (column_values (columns f) "total_load" g))
    by (unfold district_load; now rewrite Hg).
  split; [|split].
  - exists r0. assert (Hr0 : In r0 (district_rows f top))
      by (rewrite Hsub; now left).
    unfold district_rows in Hr0. apply filter_In in Hr0.
    destruct Hr0 as [Hr0 He]. apply district_eqb_eq in He. now split.
  - now rewrite Hload.
  - intros r Hr. rewrite Hload.
    destruct (by_district_present f r Hr) as [g' Hg'].
    pose proof (by_district_group f _ g' Hg') as Hgr.
    specialize (Hmax (district_of (fst r),
                      nansum (column_values (columns f) "total_load" g'))).
    cbn [snd] in Hmax. unfold district_load. rewrite <- Hgr. apply Hmax.
    apply in_map_iff. exists (district_of (fst r), g'). now split.
Qed.

Lemma X12_witness :
  exists df' rep,
    analyze_pincode_variance uniform_district_table
    = (df', Returned (Some rep))
    /\ F64.isnan (district_load df' (top_state rep, top_district rep)) = false.
Proof.
  eexists. eexists. split; [reflexivity|].
  eapply (X12_selected_district_is_busiest uniform_district_table).
  reflexivity.
Defined.

Lemma filter_split {A : Type} (p : A -> bool) (l l1 l2 : list A) (x : A) :
  filter p l = l1 ++ x :: l2 ->
  exists m1 m2, l = m1 ++ x :: m2 /\ filter p m1 = l1 /\ filter p m2 = l2.
Proof.
  revert l1. induction l as [|a l IH]; intros l1 H.
  - destruct l1; discriminate.
  - cbn [filter] in H. destruct (p a) eqn:Hp.
    + destruct l1 as [|b l1].
      * injection H as -> H. exists [], l. repeat split. exact H.
      * injection H as -> H. destruct (IH l1 H) as [m1 [m2 [-> [H1 H2]]]].
        exists (b :: m1), m2. repeat split; [|assumption].
        cbn [filter]. now rewrite Hp, H1.
    + destruct (IH l1 H) as [m1 [m2 [-> [H1 H2]]]].
      exists (a :: m1), m2. repeat split; [|assumption].
      cbn [filter]. now rewrite Hp.
Qed.

(** Every cell in front of the one [idxmax] selects is smaller or missing. *)
Lemma idxmax_first {K : Type} (l : list (K * f64)) (k : K) :
  idxmax l = Some k ->
  exists pre v post,
    l = pre ++ (k, v) :: post
    /\ forall kv, In kv pre -> F64.isnan (snd kv) = false ->
                  F64.gtb v (snd kv) = true.
Proof.
  unfold idxmax.
  destruct (filter _ l) as [|best rest] eqn:Ef; [discriminate|].
  intros [= <-].
  assert (Hn : Forall (fun kv => F64.isnan (snd kv) = false) (best :: rest)).
  { rewrite <- Ef. apply Forall_forall. intros kv Hkv.
    apply filter_In in Hkv. destruct Hkv as [_ H].
    now destruct (F64.isnan (snd kv)). }
  destruct (idxmax_from_spec rest best Hn)
    as [pre [top [post [Heq [Hres [Hpre _]]]]]].
  rewrite Heq in Ef. apply filter_split in Ef.
  destruct Ef as [m1 [m2 [-> [H1 _]]]].
  exists m1, (snd top), m2. rewrite Hres, <- surjective_pairing.
  split; [reflexivity|]. intros kv Hkv Hnan.
  rewrite Forall_forall in Hpre. apply Hpre. rewrite <- H1.
  apply filter_In. split; [assumption|]. now rewrite Hnan.
Qed.

Lemma sorted_prefix_below {A : Type} (P : A -> A -> Prop) (pre post : list A)
      (x y : A) :
  StronglySorted P (pre ++ x :: post) -> In y post -> P x y.
Proof.
  induction pre as [|a pre IH]; cbn [app]; intros Hs Hy.
  - inversion Hs as [|? ? _ Hall]; subst. rewrite Forall_forall in Hall.
    now apply Hall.
  - inversion Hs; subst. now apply IH.
Qed.

(** X13: ties are broken towards the first district in ascending
    (state, district) order: every district that comes before the selected
    one in that order and has a load has a strictly smaller load. *)
Theorem X13_first_busiest_district_wins
        (df df' : frame) (rep : variance_report) (r : key * list f64) :
  analyze_pincode_variance df = (df', Returned (Some rep)) ->
  In r (rows df') ->
  district_compare (district_of (fst r)) (top_state rep, top_district rep)
  = Lt ->
  F64.isnan (district_load df' (district_of (fst r))) = false ->
  F64.gtb (district_load df' (top_state rep, top_district rep))
          (district_load df' (district_of (fst r))) = true.
Proof.
  unfold analyze_pincode_variance.
  destruct (_ && _ && _)%bool; [|discriminate].
  destruct (busiest_district (with_total_load df)) as [top|] eqn:Hb;
    [|discriminate].
  destruct (district_rows (with_total_load df) top) as [|r0 rs] eqn:Hsub;
    [discriminate|].
  intros H. injection H as <- <-. cbn [top_state top_district].
  rewrite <- surjective_pairing.
  set (f := with_total_load df) in *. intros Hr Hlt Hnan.
  unfold busiest_district in Hb. apply idxmax_first in Hb.
  destruct Hb as [pre [v [post [Heq Hpre]]]].
  set (h := fun g : district_key * list (key * list f64) =>
              (fst g, nansum (column_values (columns f) "total_load" (snd g))))
    in *.
  assert (Hload : forall d g, In (d, g) (by_district f) ->
                              snd (h (d, g)) = district_load f d).
  { intros d g Hin. unfold h, district_load. cbn [snd].
    now rewrite (by_district_group f d g Hin). }
  destruct (by_district_present f r Hr) as [g Hg].
  set (d := district_of (fst r)) in *.
  assert (Hs : StronglySorted
                 (fun a b : district_key * f64 =>
                    district_compare (fst a) (fst b) = Lt)
                 (map h (by_district f))).
  { apply strongly_sorted_map. unfold h. cbn [fst].
    apply (groupby_sorted district_compare district_compare_eq
                          district_compare_antisym district_compare_trans). }
  assert (Hd : In (h (d, g)) (map h (by_district f))) by now apply in_map.
  assert (Htop : In (top, v) (map h (by_district f))).
  { rewrite Heq. apply in_or_app. right. now left. }
  apply in_map_iff in Htop. destruct Htop as [[top' gt] [Ht Hgt]].
  unfold h in Ht. cbn [fst snd] in Ht. injection Ht as -> Hv.
  assert (Hvload : v = district_load f top).
  { rewrite <- Hv. unfold district_load.
    now rewrite (by_district_group f top gt Hgt). }
  rewrite <- Hvload.
  rewrite <- (Hload d g Hg) in Hnan |- *.
  rewrite Heq in Hd, Hs. apply in_app_or in Hd.
  destruct Hd as [Hd|[Hd|Hd]].
  - now apply Hpre.
  - exfalso. unfold h in Hd. cbn [fst snd] in Hd. injection Hd as Hd _.
    rewrite Hd in Hlt.
    rewrite (proj2 (district_compare_eq d d) eq_refl) in Hlt. discriminate.
  - exfalso.
    pose proof (sorted_prefix_below _ _ _ _ _ Hs Hd) as Hc.
    cbn [fst] in Hc. unfold h in Hc at 1. cbn [fst] in Hc.
    rewrite district_compare_antisym, Hc in Hlt. discriminate.
Qed.

Lemma two_district_busiest :
  busiest_district (with_total_load two_district_table)
  = Some ("Goa", "South Goa")%string.
Proof.
  unfold busiest_district, idxmax.
  cbn -[F64.gtb Rplus].
  cbn [F64.gtb].
  rewrite (proj2 (Rgtb_true (9 + 0 + 0 + 0) (1 + 4 + 0 + 0))) by lra.
  reflexivity.
Qed.

Lemma two_district_run :
  exists rep,
    analyze_pincode_variance two_district_table
    = (with_total_load two_district_table, Returned (Some rep))
    /\ top_state rep = "Goa"%string /\ top_district rep = "South Goa"%string.
Proof.
  unfold analyze_pincode_variance.
  change (has_column (columns two_district_table) "enrol_total_vol"
          && has_column (columns two_district_table) "bio_total_vol"
          && has_column (columns two_district_table) "demo_total_vol")%bool
    with true.
  cbv zeta. cbv iota. rewrite two_district_busiest.
  destruct (district_rows (with_total_load two_district_table)
                          ("Goa", "South Goa")%string) eqn:E.
  - discriminate E.
  - eexists. split; [reflexivity|]. split; reflexivity.
Qed.

Lemma X13_witness :
  exists df' rep r,
    analyze_pincode_variance two_district_table = (df', Returned (Some rep))
    /\ In r (rows df')
    /\ F64.gtb (district_load df' (top_state rep, top_district rep))
               (district_load df' (district_of (fst r))) = true.
Proof.
  destruct two_district_run as [rep [Hrun [Hs Hd]]].
  exists (with_total_load two_district_table), rep,
    (hd (("", "", 0%Z)%string, []) (rows (with_total_load two_district_table))).
  split; [exact Hrun|]. split; [left; reflexivity|].
  apply (X13_first_busiest_district_wins two_district_table _ rep _ Hrun).
  - left. reflexivity.
  - rewrite Hs, Hd. reflexivity.
  - reflexivity.
Defined.

(** ** Intra-district variance reporter: the bars and the assignment *)

Lemma f64_desc_total (a b : f64) : f64_desc a b = false -> f64_desc b a = true.
Proof.
  destruct a, b; simpl; try discriminate; try reflexivity.
  rewrite negb_false_iff, negb_true_iff, Rgtb_true, Rgtb_false. lra.
Qed.

Lemma f64_desc_trans (a b c : f64) :
  f64_desc a b = true -> f64_desc b c = true -> f64_desc a c = true.
Proof.
  destruct a, b, c; simpl; try discriminate; try reflexivity.
  rewrite !negb_true_iff, !Rgtb_false. lra.
Qed.

Lemma in_firstn {A : Type} (n : nat) (l : list A) (x : A) :
  In x (firstn n l) -> In x l.
Proof.
  revert n. induction l as [|y l IH]; intros n H.
  - now rewrite firstn_nil in H.
  - destruct n as [|n]; [destruct H|]. cbn [firstn] in H.
    destruct H as [H|H]; [now left | right; now apply (IH n)].
Qed.

Lemma strongly_sorted_firstn {A : Type} (P : A -> A -> Prop) (n : nat)
      (l : list A) :
  StronglySorted P l -> StronglySorted P (firstn n l).
Proof.
  intros Hs. revert n. induction Hs as [|x l Hl IH Hx]; intros n.
  - rewrite firstn_nil. constructor.
  - destruct n as [|n]; [constructor|]. cbn [firstn].
    constructor; [apply IH|]. rewrite Forall_forall in *.
    intros y Hy. apply Hx. now apply (in_firstn n l).
Qed.

Lemma strongly_sorted_app_inv {A : Type} (P : A -> A -> Prop)
      (l1 l2 : list A) :
  StronglySorted P (l1 ++ l2) ->
  forall a b, In a l1 -> In b l2 -> P a b.
Proof.
  induction l1 as [|x l1 IH]; intros Hs a b Ha Hb; [destruct Ha|].
  cbn [app] in Hs. inversion Hs as [|? ? Hs' Hx]; subst.
  destruct Ha as [<-|Ha].
  - rewrite Forall_forall in Hx. apply Hx, in_or_app. now right.
  - now apply IH.
Qed.

(** X14: the rows the reporter hands to the bar plot, [subset.head(30)],
    are the thirty pincodes of the selected district with the greatest loads,
    or all of its pincodes if there are fewer: they come in descending order
    of [total_load], missing loads last, and no pincode of the district that
    is left out has a greater load than one that is handed over.  In which
    order the plotting library lays the bars out on the axis is not
    stated. *)
Theorem X14_bars_of_selected_district
        (df df' : frame) (rep : variance_report) :
  analyze_pincode_variance df = (df', Returned (Some rep)) ->
  let subset := district_rows df' (top_state rep, top_district rep) in
  let entry := fun r : key * list f64 =>
                 (snd (fst r), row_load (columns df') r) in
  exists rest,
    Permutation (map entry subset) (bars rep ++ rest)
    /\ length (bars rep) = Nat.min 30 (length subset)
    /\ StronglySorted (fun a b => f64_desc (snd a) (snd b) = true)
                       (bars rep)
    /\ forall b r, In b (bars rep) -> In r rest ->
                    f64_desc (snd b) (snd r) = true.
Proof.
  unfold analyze_pincode_variance.
  destruct (_ && _ && _)%bool; [|discriminate].
  cbv zeta. remember (with_total_load df) as f eqn:Hf.
  destruct (busiest_district f) as [top|]; [|discriminate].
  destruct (district_rows f top) as [|r0 rs] eqn:Hsub; [discriminate|].
  set (before := fun a b : key * list f64 =>
                   f64_desc (row_load (columns f) a) (row_load (columns f) b)).
  pose proof (sort_by_perm before (r0 :: rs)) as Hperm.
  assert (Hsorted : StronglySorted (fun a b => before a b = true)
                                   (sort_by before (r0 :: rs))).
  { apply sort_by_sorted; unfold before.
    - intros a b. apply f64_desc_total.
    - intros a b c. apply f64_desc_trans. }
  remember (sort_by before (r0 :: rs)) as sorted eqn:Hs.
  remember (firstn 30 sorted) as shown eqn:Hshown.
  intros H. injection H as <- <-.
  cbv beta iota delta [top_state top_district bars].
  rewrite <- surjective_pairing, Hsub. subst shown.
  set (entry := fun r : key * list f64 =>
                  (snd (fst r), row_load (columns f) r)).
  exists (map entry (skipn 30 sorted)).
  split; [|split; [|split]].
  - rewrite <- map_app, firstn_skipn.
    apply Permutation_map, Permutation_sym, Hperm.
  - rewrite length_map, length_firstn. now rewrite (Permutation_length Hperm).
  - apply strongly_sorted_map. cbn [snd].
    now apply strongly_sorted_firstn.
  - intros b r Hb Hr. apply in_map_iff in Hb, Hr.
    destruct Hb as [x [<- Hx]], Hr as [y [<- Hy]]. cbn [entry snd].
    rewrite <- (firstn_skipn 30 sorted) in Hsorted.
    exact (strongly_sorted_app_inv _ _ _ Hsorted x y Hx Hy).
Qed.

Lemma X14_witness :
  exists df' rep,
    analyze_pincode_variance uniform_district_table
    = (df', Returned (Some rep))
    /\ length (bars rep) = 2%nat.
Proof.
  eexists. eexists. split; [reflexivity|].
  match goal with
  | |- length (bars ?r) = _ =>
      destruct (X14_bars_of_selected_district uniform_district_table _ r
                                              eq_refl) as [rest [_ [H _]]]
  end.
  rewrite H. reflexivity.
Defined.

Lemma set_cell_again (cols : list string) (cells : list f64) (c : string)
      (v : f64) :
  length cells = length cols ->
  set_cell (if has_column cols c then cols else cols ++ [c])
           (set_cell cols cells c v) c v
  = set_cell cols cells c v.
Proof.
  revert cells. induction cols as [|n cols IH]; intros cells Hlen.
  - destruct cells; [|discriminate]. simpl. now rewrite String.eqb_refl.
  - destruct cells as [|x cells]; [discriminate|].
    injection Hlen as Hlen. specialize (IH cells Hlen).
    rewrite has_column_cons. simpl.
    destruct (String.eqb n c) eqn:Hn; simpl.
    + now rewrite Hn.
    + destruct (has_column cols c); simpl; rewrite Hn; f_equal; exact IH.
Qed.

Lemma total_load_of_after (cols : list string) (cells : list f64) (v : f64) :
  length cells = length cols ->
  total_load_of (if has_column cols "total_load" then cols
                 else cols ++ ["total_load"%string])
                (set_cell cols cells "total_load" v)
  = total_load_of cols cells.
Proof.
  intros Hlen. unfold total_load_of.
  now rewrite !lookup_set_cell_other by (discriminate || assumption).
Qed.

(** X15: the assignment of [total_load] is idempotent: a second call of the
    reporter on the same table leaves the table as the first call left
    it. *)
Theorem X15_second_call_changes_nothing (df : frame) :
  Forall (fun r => length (snd r) = length (columns df)) (rows df) ->
  fst (analyze_pincode_variance (fst (analyze_pincode_variance df)))
  = fst (analyze_pincode_variance df).
Proof.
  intros Hw. rewrite (variance_state df).
  destruct (_ && _ && _)%bool eqn:Hc; [|now rewrite variance_state, Hc].
  rewrite variance_state.
  assert (Hidem : with_total_load (with_total_load df) = with_total_load df).
  { unfold with_total_load at 1. unfold assign.
    rewrite has_total_load.
    unfold with_total_load, assign. cbn [rows columns]. f_equal.
    rewrite map_map. apply map_ext_in. intros r Hr. cbn [fst snd]. f_equal.
    rewrite Forall_forall in Hw. specialize (Hw r Hr). cbv beta in Hw.
    rewrite total_load_of_after by assumption.
    now apply set_cell_again. }
  match goal with
  | |- (if ?c then _ else _) = _ => destruct c; [exact Hidem | reflexivity]
  end.
Qed.

Lemma X15_witness :
  fst (analyze_pincode_variance (fst (analyze_pincode_variance sample_merged)))
  = fst (analyze_pincode_variance sample_merged).
Proof.
  apply X15_second_call_changes_nothing. repeat constructor.
Defined.

(** ** District health scorer: the rows it returns *)

Lemma strict_sorted_NoDup {A : Type} (lt : A -> A -> Prop) (l : list A) :
  (forall a, ~ lt a a) -> StronglySorted lt l -> NoDup l.
Proof.
  intros Hirr. induction 1 as [|x l Hl IH Hx]; constructor; [|exact IH].
  intros Hin. rewrite Forall_forall in Hx. exact (Hirr x (Hx x Hin)).
Qed.

Lemma sequence_map {A B C : Type} (f : A -> option B) (g : B -> C)
      (h : A -> C) (l : list A) (out : list B) :
  (forall x y, f x = Some y -> g y = h x) ->
  sequence (map f l) = Some out -> map g out = map h l.
Proof.
  intros Hf. revert out. induction l as [|x l IH]; intros out.
  - intros [= <-]. reflexivity.
  - cbn [map sequence]. destruct (f x) as [y|] eqn:Hy; [|discriminate].
    cbn [bind]. destruct (sequence (map f l)) as [r|]; [|discriminate].
    cbn [bind]. intros [= <-]. cbn [map].
    now rewrite (Hf x y Hy), (IH r eq_refl).
Qed.

(** The aggregated table has one row for each group of the group-by, in the
    order of the groups. *)
Lemma district_stats_keys (df : frame) (dist_stats : list district_row) :
  district_stats df = Some dist_stats ->
  map (fun r => (state r, district r)) dist_stats = map fst (by_district df).
Proof.
  unfold district_stats. destruct (forallb _ _); [|discriminate].
  apply sequence_map. intros g y. cbv zeta.
  repeat (match goal with
          | |- bind ?o _ = Some _ -> _ => destruct o; [|discriminate]
          end; cbn [bind]).
  intros [= <-]. cbn [state district]. now destruct g as [[s d] rs].
Qed.

Lemma by_district_NoDup (df : frame) : NoDup (map fst (by_district df)).
Proof.
  apply (strict_sorted_NoDup (fun a b => district_compare a b = Lt)).
  - intros a H.
    rewrite (proj2 (district_compare_eq a a) eq_refl) in H. discriminate.
  - apply strongly_sorted_map. unfold by_district.
    apply (groupby_sorted district_compare district_compare_eq
                          district_compare_antisym district_compare_trans).
Qed.

Lemma scored_rows_stats (m : list (nat * risk_category))
      (dist_stats : list district_row) (health : list R) (labels : list nat) :
  length health = length dist_stats ->
  length labels = length dist_stats ->
  map hr_stats
      (map (fun '(r, h, c) =>
              {| hr_stats := r; hr_health_index := h; hr_cluster := c;
                 hr_risk_category := map_label m c |})
           (combine (combine dist_stats health) labels))
  = dist_stats.
Proof.
  revert health labels.
  induction dist_stats as [|r rs IH]; intros health labels Hh Hl.
  - reflexivity.
  - destruct health as [|h hs]; [discriminate|].
    destruct labels as [|l ls]; [discriminate|].
    injection Hh as Hh. injection Hl as Hl.
    cbn [combine map hr_stats]. now rewrite IH.
Qed.

Lemma strongly_sorted_impl {A : Type} (P Q : A -> A -> Prop) (l : list A) :
  (forall a b, P a b -> Q a b) -> StronglySorted P l -> StronglySorted Q l.
Proof.
  intros HPQ. induction 1 as [|x l Hl IH Hx]; constructor; [exact IH|].
  rewrite Forall_forall in *. intros y Hy. apply HPQ. now apply Hx.
Qed.

Lemma generate_health_index_sorted
      (kmeans : list (R * R * R) -> option (list nat)) (df : frame)
      (out : list health_row) :
  generate_health_index kmeans df = Some out ->
  StronglySorted (fun a b => hr_health_index a <= hr_health_index b) out.
Proof.
  unfold generate_health_index.
  destruct (district_stats df) as [dist_stats|]; [|discriminate].
  cbn [bind]. destruct dist_stats as [|r0 rs]; [discriminate|].
  destruct (kmeans _) as [labels|]; [|discriminate]. cbn [bind].
  destruct (negb _); [discriminate|].
  destruct (rank_map _) as [m|]; [|discriminate]. cbn [bind].
  intros [= <-].
  set (before := fun a b => Rleb (hr_health_index a) (hr_health_index b)).
  match goal with
  | |- StronglySorted _ (sort_by _ ?l) =>
      assert (Hs : StronglySorted (fun a b => before a b = true)
                                  (sort_by before l))
  end.
  { apply sort_by_sorted; unfold before.
    - intros a b H. apply Rleb_false in H. apply Rleb_true. lra.
    - intros a b c Hab Hbc. apply Rleb_true in Hab, Hbc.
      apply Rleb_true. lra. }
  revert Hs. apply strongly_sorted_impl.
  intros a b H. now apply Rleb_true in H.
Qed.

Lemma sample_scorer_returns :
  exists out,
    generate_health_index singleton_clusters sample_merged = Some out.
Proof.
  unfold generate_health_index.
  rewrite sample_district_stats. cbn [bind]. unfold sample_stats at 1.
  rewrite sample_health_index, sample_score_enrol, sample_score_bio,
    sample_score_demo.
  unfold singleton_clusters. cbn [combine length seq bind].
  cbn [Nat.eqb negb sample_stats length].
  rewrite sample_cluster_rank. cbn [rank_map bind].
  eexists. reflexivity.
Qed.

(** X16: the scorer returns exactly one row for every (state, district)
    pair of the table, in ascending order of health_index. *)
Theorem X16_one_scored_row_per_district
        (kmeans : list (R * R * R) -> option (list nat)) (df : frame)
        (out : list health_row) :
  generate_health_index kmeans df = Some out ->
  let name := fun row => (state (hr_stats row), district (hr_stats row)) in
  StronglySorted (fun a b => hr_health_index a <= hr_health_index b) out
  /\ NoDup (map name out)
  /\ (forall r, In r (rows df) -> In (district_of (fst r)) (map name out))
  /\ (forall row, In row out ->
                  exists r, In r (rows df) /\ district_of (fst r) = name row).
Proof.
  intros Hout name.
  split; [exact (generate_health_index_sorted kmeans df out Hout)|].
  destruct (generate_health_index_rows kmeans df out Hout)
    as [ds [labels [m [Hds [_ [Hlen [_ Hperm]]]]]]].
  assert (Hnames : Permutation (map name out) (map fst (by_district df))).
  { rewrite <- (district_stats_keys df ds Hds).
    rewrite (Permutation_map name Hperm). unfold name.
    rewrite <- (map_map hr_stats (fun r => (state r, district r))).
    rewrite scored_rows_stats; [reflexivity | apply health_index_length
                                | exact Hlen]. }
  split; [|split].
  - apply (Permutation_NoDup (Permutation_sym Hnames)), by_district_NoDup.
  - intros r Hr. apply (Permutation_in _ (Permutation_sym Hnames)).
    destruct (by_district_present df r Hr) as [g Hg].
    apply in_map_iff. now exists (district_of (fst r), g).
  - intros row Hrow.
    assert (Hin : In (name row) (map fst (by_district df))).
    { apply (Permutation_in _ Hnames), in_map_iff. now exists row. }
    unfold by_district in Hin.
    rewrite (groupby_keys_iff district_compare district_compare_eq),
      map_map in Hin.
    cbn [fst] in Hin. apply in_map_iff in Hin.
    destruct Hin as [r [Hr Hin]]. now exists r.
Qed.

Lemma X16_witness :
  exists out,
    generate_health_index singleton_clusters sample_merged = Some out
    /\ StronglySorted (fun a b => hr_health_index a <= hr_health_index b) out
    /\ NoDup (map (fun row => (state (hr_stats row), district (hr_stats row)))
                  out).
Proof.
  destruct sample_scorer_returns as [out Hout]. exists out.
  split; [exact Hout|].
  destruct (X16_one_scored_row_per_district singleton_clusters sample_merged
                                            out Hout) as [Hs [Hn _]].
  split; [exact Hs | exact Hn].
Defined.

Lemma cluster_rank_keys (labels : list nat) (health : list R) :
  Permutation (cluster_rank labels health)
              (map fst (groupby Nat.compare (combine labels health))).
Proof.
  unfold cluster_rank, cluster_means.
  rewrite (Permutation_map fst (sort_by_perm _ _)), map_map.
  reflexivity.
Qed.

Lemma cluster_rank_NoDup (labels : list nat) (health : list R) :
  NoDup (cluster_rank labels health).
Proof.
  apply (Permutation_NoDup (Permutation_sym (cluster_rank_keys _ _))).
  apply (strict_sorted_NoDup (fun a b => Nat.compare a b = Lt)).
  - intros a H. rewrite Nat.compare_refl in H. discriminate.
  - apply strongly_sorted_map.
    apply (groupby_sorted Nat.compare).
    + apply Nat.compare_eq_iff.
    + intros a b. apply Nat.compare_antisym.
    + intros a b d. rewrite !Nat.compare_lt_iff. lia.
Qed.

Lemma cluster_rank_label (labels : list nat) (health : list R) (c : nat) :
  In c (cluster_rank labels health) -> In c labels.
Proof.
  intros H. apply (Permutation_in _ (cluster_rank_keys _ _)) in H.
  rewrite (groupby_keys_iff Nat.compare Nat.compare_eq_iff) in H.
  apply in_map_iff in H. destruct H as [[c' h] [<- Hin]].
  now apply in_combine_l in Hin.
Qed.

Lemma scored_rows_label (m : list (nat * risk_category)) (c : nat)
      (dist_stats : list district_row) (health : list R) (labels : list nat) :
  length health = length dist_stats ->
  length labels = length dist_stats ->
  In c labels ->
  exists row,
    In row (map (fun '(r, h, c) =>
                   {| hr_stats := r; hr_health_index := h; hr_cluster := c;
                      hr_risk_category := map_label m c |})
                (combine (combine dist_stats health) labels))
    /\ hr_risk_category row = map_label m c.
Proof.
  revert health labels.
  induction dist_stats as [|r rs IH]; intros health labels Hh Hl Hc.
  - destruct labels; [destruct Hc | discriminate].
  - destruct health as [|h hs]; [discriminate|].
    destruct labels as [|l ls]; [discriminate|].
    injection Hh as Hh. injection Hl as Hl. cbn [combine map].
    destruct Hc as [->|Hc].
    + eexists. split; [now left | reflexivity].
    + destruct (IH hs ls Hh Hl Hc) as [row [Hrow Hcat]].
      exists row. split; [now right | exact Hcat].
Qed.

Lemma category_among_rows (dist_stats : list district_row)
      (labels : list nat) (m : list (nat * risk_category))
      (cat : risk_category) :
  length labels = length dist_stats ->
  rank_map (cluster_rank labels (health_index dist_stats)) = Some m ->
  exists row,
    In row (map (fun '(r, h, c) =>
                   {| hr_stats := r; hr_health_index := h; hr_cluster := c;
                      hr_risk_category := map_label m c |})
                (combine (combine dist_stats (health_index dist_stats))
                         labels))
    /\ hr_risk_category row = Some cat.
Proof.
  intros Hlen Hm. set (ds := dist_stats) in *.
  pose proof (cluster_rank_NoDup labels (health_index ds)) as Hnd.
  pose proof (cluster_rank_label labels (health_index ds)) as Hlab.
  destruct (cluster_rank labels (health_index ds))
    as [|c0 [|c1 [|c2 rest]]]; try discriminate.
  injection Hm as <-.
  inversion Hnd as [|? ? H0 Hnd1]; subst.
  inversion Hnd1 as [|? ? H1 _]; subst.
  assert (H01 : Nat.eqb c0 c1 = false).
  { apply Nat.eqb_neq. intros ->. apply H0. now left. }
  assert (H02 : Nat.eqb c0 c2 = false).
  { apply Nat.eqb_neq. intros ->. apply H0. right. now left. }
  assert (H12 : Nat.eqb c1 c2 = false).
  { apply Nat.eqb_neq. intros ->. apply H1. now left. }
  set (c := match cat with
            | Critical_Risk => c0 | Moderate => c1 | Healthy => c2
            end).
  assert (Hc : In c labels).
  { apply Hlab. unfold c. destruct cat; cbn; auto. }
  destruct (scored_rows_label
              [(c0, Critical_Risk); (c1, Moderate); (c2, Healthy)] c
              ds (health_index ds) labels (health_index_length ds) Hlen Hc)
    as [row [Hrow Hcat]].
  exists row. split; [exact Hrow|].
  rewrite Hcat. unfold c. destruct cat; cbn [map_label].
  - now rewrite Nat.eqb_refl.
  - now rewrite H01, Nat.eqb_refl.
  - now rewrite H02, H12, Nat.eqb_refl.
Qed.

(** X17: whenever the scorer returns, each of the three risk categories is
    borne by at least one district; a table whose districts fall into
    fewer than three clusters makes the scorer raise instead. *)
Theorem X17_every_risk_category_assigned
        (kmeans : list (R * R * R) -> option (list nat)) (df : frame)
        (out : list health_row) (cat : risk_category) :
  generate_health_index kmeans df = Some out ->
  exists row, In row out /\ hr_risk_category row = Some cat.
Proof.
  intros Hout.
  destruct (generate_health_index_rows kmeans df out Hout)
    as [ds [labels [m [_ [_ [Hlen [Hm Hperm]]]]]]].
  destruct (category_among_rows ds labels m cat Hlen Hm)
    as [row [Hrow Hcat]].
  exists row. split; [|exact Hcat].
  exact (Permutation_in _ (Permutation_sym Hperm) Hrow).
Qed.

Lemma X17_witness :
  exists out row,
    generate_health_index singleton_clusters sample_merged = Some out
    /\ In row out /\ hr_risk_category row = Some Moderate.
Proof.
  destruct sample_scorer_returns as [out Hout].
  destruct (X17_every_risk_category_assigned singleton_clusters sample_merged
                                             out Moderate Hout)
    as [row [Hrow Hcat]].
  exists out, row. split; [exact Hout|]. split; [exact Hrow | exact Hcat].
Defined.

(** ** Child-gap reporter *)

Lemma string_compare_refl (a : string) : String.compare a a = Eq.
Proof. now apply String_as_OT.cmp_eq. Qed.

Lemma string_compare_eqb (a b : string) :
  match String.compare a b with Eq => true | _ => false end = String.eqb b a.
Proof.
  destruct (String.eqb b a) eqn:E.
  - apply String.eqb_eq in E. subst.
    now rewrite string_compare_refl.
  - destruct (String.compare a b) eqn:C; try reflexivity.
    apply String_as_OT.cmp_eq in C. subst.
    rewrite String.eqb_refl in E. discriminate.
Qed.

Lemma NoDup_firstn {A : Type} (n : nat) (l : list A) :
  NoDup l -> NoDup (firstn n l).
Proof.
  intros H. revert n. induction H as [|x l Hx Hl IH]; intros n.
  - rewrite firstn_nil. constructor.
  - destruct n as [|n]; [constructor|]. cbn [firstn].
    constructor; [|apply IH]. intros Hin. apply Hx.
    now apply (in_firstn n l).
Qed.

(** X18: the child-gap chart shows at most ten districts, largest gap
    first, each district name once.  The gap of a name is the sum of the
    child enrolments minus the sum of the child biometric updates over all
    pincodes whose district bears that name, whatever their state. *)
Theorem X18_child_gap_by_district_name
        (df : frame) (shown : list (string * f64)) :
  analyze_mbu_gap df = Returned (Some shown) ->
  (length shown <= 10)%nat
  /\ StronglySorted (fun a b => f64_desc (snd a) (snd b) = true) shown
  /\ NoDup (map fst shown)
  /\ forall d gap,
       In (d, gap) shown ->
       let pins := filter (fun r => String.eqb (snd (district_of (fst r))) d)
                          (rows df) in
       pins <> []
       /\ gap = F64.sub
                  (nansum (column_values (columns df) "enrol_child_sum" pins))
                  (nansum (column_values (columns df) "bio_child_sum" pins)).
Proof.
  unfold analyze_mbu_gap.
  destruct (negb (has_column (columns df) "enrol_child_sum"));
    [discriminate|].
  destruct (negb (has_column (columns df) "bio_child_sum"));
    [discriminate|].
  cbv zeta.
  set (groups := groupby String.compare
                   (map (fun r => (snd (district_of (fst r)), r)) (rows df))).
  set (gap_of := fun g : string * list (key * list f64) =>
                   (fst g,
                    F64.sub
                      (nansum (column_values (columns df) "enrol_child_sum"
                                             (snd g)))
                      (nansum (column_values (columns df) "bio_child_sum"
                                             (snd g))))).
  set (before := fun a b : string * f64 => f64_desc (snd a) (snd b)).
  pose proof (sort_by_perm before (map gap_of groups)) as Hperm.
  assert (Hsorted : StronglySorted (fun a b => before a b = true)
                      (sort_by before (map gap_of groups))).
  { apply sort_by_sorted; unfold before.
    - intros a b. apply f64_desc_total.
    - intros a b c. apply f64_desc_trans. }
  remember (sort_by before (map gap_of groups)) as sorted eqn:Hs.
  remember (firstn 10 sorted) as top eqn:Htop.
  intros H. assert (Hshown : shown = top) by congruence.
  clear H. subst shown top.
  split; [apply firstn_le_length|].
  split; [now apply strongly_sorted_firstn|].
  split.
  - rewrite <- firstn_map. apply NoDup_firstn.
    apply (Permutation_NoDup (Permutation_sym (Permutation_map fst Hperm))).
    rewrite map_map. unfold gap_of. cbn [fst].
    apply (strict_sorted_NoDup (fun a b => String.compare a b = Lt)).
    + intros a H.
      rewrite string_compare_refl in H. discriminate.
    + apply strongly_sorted_map. unfold groups.
      apply (groupby_sorted String.compare String_as_OT.cmp_eq
                            String_as_OT.cmp_antisym string_compare_trans).
  - intros d gap Hin.
    set (pins := filter _ (rows df)).
    apply in_firstn in Hin. apply (Permutation_in _ Hperm) in Hin.
    apply in_map_iff in Hin. destruct Hin as [[d' g] [Heq Hg]].
    unfold gap_of in Heq. cbn [fst snd] in Heq.
    injection Heq as -> <-.
    assert (Hpins : g = pins).
    { unfold groups in Hg.
      apply (groupby_In String.compare String_as_OT.cmp_eq
                        String_as_OT.cmp_antisym string_compare_trans) in Hg.
      rewrite Hg.
      rewrite (keyed_filter (fun r : key * list f64 =>
                               snd (district_of (fst r)))
                 (fun d0 => match String.compare d d0 with
                            | Eq => true | _ => false end)).
      apply filter_ext. intros r. apply string_compare_eqb. }
    subst g. split; [|reflexivity].
    assert (Hd : In d (map fst groups)).
    { apply in_map_iff. now exists (d, pins). }
    unfold groups in Hd.
    rewrite (groupby_keys_iff String.compare String_as_OT.cmp_eq),
      map_map in Hd.
    cbn [fst] in Hd. apply in_map_iff in Hd. destruct Hd as [r [Hr Hin]].
    intros Hnil.
    assert (Hrp : In r pins).
    { apply filter_In. split; [exact Hin|]. now apply String.eqb_eq. }
    rewrite Hnil in Hrp. destruct Hrp.
Qed.

Lemma X18_witness :
  exists shown,
    analyze_mbu_gap sample_merged = Returned (Some shown)
    /\ (length shown <= 10)%nat
    /\ NoDup (map fst shown).
Proof.
  eexists. split; [reflexivity|].
  match goal with
  | |- (length ?s <= _)%nat /\ _ =>
      destruct (X18_child_gap_by_district_name sample_merged s eq_refl)
        as [Hlen [_ [Hnd _]]]
  end.
  split; [exact Hlen | exact Hnd].
Defined.

(** ** State names *)

Ltac by_cases_on_char c :=
  destruct c as [[] [] [] [] [] [] [] []]; vm_compute; try reflexivity;
  try discriminate.

Lemma to_lower_idem (c : ascii) : to_lower (to_lower c) = to_lower c.
Proof. by_cases_on_char c. Qed.

Lemma to_upper_idem (c : ascii) : to_upper (to_upper c) = to_upper c.
Proof. by_cases_on_char c. Qed.

Lemma to_upper_lower (c : ascii) : to_upper (to_lower c) = to_upper c.
Proof. by_cases_on_char c. Qed.

Lemma is_cased_lower (c : ascii) : is_cased (to_lower c) = is_cased c.
Proof. by_cases_on_char c. Qed.

Lemma is_cased_upper (c : ascii) : is_cased (to_upper c) = is_cased c.
Proof. by_cases_on_char c. Qed.

Lemma space_not_cased (c : ascii) : is_space c = true -> is_cased c = false.
Proof. by_cases_on_char c. Qed.

Lemma title_from_idem (b : bool) (s : string) :
  title_from b (title_from b s) = title_from b s.
Proof.
  revert b. induction s as [|c r IH]; intros b; [reflexivity|].
  cbn [title_from]. destruct b.
  - now rewrite to_lower_idem, is_cased_lower, IH.
  - now rewrite to_upper_idem, is_cased_upper, IH.
Qed.

Lemma title_from_lower (b : bool) (s : string) :
  title_from b (lower s) = title_from b s.
Proof.
  revert b. induction s as [|c r IH]; intros b; [reflexivity|].
  cbn [lower title_from]. rewrite is_cased_lower, IH.
  destruct b; now rewrite ?to_lower_idem, ?to_upper_lower.
Qed.

Lemma titled_lstrip (s : string) :
  title_from false s = s -> title_from false (lstrip s) = lstrip s.
Proof.
  induction s as [|c r IH]; [reflexivity|].
  cbn [lstrip]. destruct (is_space c) eqn:Hc; [|easy].
  cbn [title_from]. rewrite (space_not_cased c Hc).
  intros [= _ H]. now apply IH.
Qed.

Lemma titled_rstrip (b : bool) (s : string) :
  title_from b s = s -> title_from b (rstrip s) = rstrip s.
Proof.
  revert b. induction s as [|c r IH]; intros b; [reflexivity|].
  cbn [title_from rstrip]. intros [= Hc Hr].
  specialize (IH _ Hr). destruct (rstrip r) as [|c' r'].
  - destruct (is_space c); [reflexivity|].
    cbn [title_from]. now rewrite Hc.
  - cbn [title_from] in *. now rewrite Hc, IH.
Qed.

Lemma rstrip_idem (s : string) : rstrip (rstrip s) = rstrip s.
Proof.
  induction s as [|c r IH]; [reflexivity|].
  cbn [rstrip]. destruct (rstrip r) as [|c' r'] eqn:Hr.
  - destruct (is_space c) eqn:Hc; [reflexivity|].
    cbn [rstrip]. now rewrite Hc.
  - cbn [rstrip] in *. rewrite IH. reflexivity.
Qed.

Lemma lstrip_rstrip_lstrip (s : string) :
  lstrip (rstrip (lstrip s)) = rstrip (lstrip s).
Proof.
  induction s as [|c r IH]; [reflexivity|].
  cbn [lstrip]. destruct (is_space c) eqn:Hc; [exact IH|].
  cbn [rstrip]. destruct (rstrip r); cbn [lstrip]; rewrite Hc;
    cbn [lstrip]; now rewrite ?Hc.
Qed.

Lemma strip_idem (s : string) : strip (strip s) = strip s.
Proof.
  unfold strip. now rewrite lstrip_rstrip_lstrip, rstrip_idem.
Qed.

Lemma title_strip_title (s : string) :
  title (strip (title s)) = strip (title s).
Proof.
  unfold title, strip. apply titled_rstrip, titled_lstrip, title_from_idem.
Qed.

(** What the three steps leave in the column. *)
Lemma clean_states_In (state : list (option string)) (s : string) :
  In (Some s) (clean_states state) ->
  exists s0 n,
    In (Some s0) state /\ n = strip (title s0) /\ has_digit n = false
    /\ s = replace_value state_map n.
Proof.
  unfold clean_states. intros H. apply in_map_iff in H.
  destruct H as [[n|] [Hs Hn]]; [|discriminate].
  injection Hs as <-. apply filter_In in Hn. destruct Hn as [Hn Hd].
  apply in_map_iff in Hn. destruct Hn as [[s0|] [Hs0 Hin]]; [|discriminate].
  injection Hs0 as Hs0. exists s0, n. repeat split; try easy.
  now apply negb_true_iff.
Qed.

Lemma replace_value_cases (n : string) :
  (replace_value state_map n = n
   /\ ~ In n (map fst state_map))
  \/ In (n, replace_value state_map n) state_map.
Proof.
  unfold replace_value, state_map. cbn [find fst snd map In].
  repeat match goal with
         | |- context [String.eqb ?k n] =>
             let E := fresh "E" in
             destruct (String.eqb k n) eqn:E;
             [apply String.eqb_eq in E; subst n; right; cbn; tauto|
              apply String.eqb_neq in E]
         end.
  left. split; [reflexivity|]. tauto.
Qed.

(** A name the cleaner leaves is one the cleaner does not change, unless it
    is the name given to Delhi. *)
Lemma cleaned_name_normal (state : list (option string)) (s : string) :
  In (Some s) (clean_states state) ->
  has_digit s = false /\ strip s = s
  /\ replace_value state_map s = s
  /\ (s = "NCT Of Delhi"%string \/ title s = s).
Proof.
  intros H. destruct (clean_states_In state s H)
    as [s0 [n [_ [Hn [Hd Hs]]]]].
  destruct (replace_value_cases n) as [[Hrep _]|Hin].
  - rewrite Hrep in Hs. subst s. split; [exact Hd|].
    rewrite Hn at 1 2. rewrite strip_idem, <- Hn.
    split; [reflexivity|]. split; [exact Hrep|]. right.
    rewrite Hn. apply title_strip_title.
  - rewrite <- Hs in Hin. unfold state_map in Hin. cbn [In] in Hin.
    destruct Hin as [Hin|[Hin|[Hin|[Hin|[Hin|[]]]]]];
      injection Hin as _ <-; vm_compute; repeat split; tauto.
Qed.

(** X19: a state name the cleaner leaves in the column holds no digit and
    no leading or trailing whitespace, and it is in title case unless it
    is [NCT Of Delhi], the name the cleaner itself gives to Delhi. *)
Theorem X19_cleaned_state_names
        (state : list (option string)) (s : string) :
  ascii_column state ->
  In (Some s) (clean_states state) ->
  has_digit s = false /\ strip s = s
  /\ (s = "NCT Of Delhi"%string \/ title s = s).
Proof.
  intros _ H. destruct (cleaned_name_normal state s H) as [Hd [Hs [_ Ht]]].
  now repeat split.
Qed.

Lemma X19_witness :
  has_digit "Tamil Nadu" = false /\ strip "Tamil Nadu" = "Tamil Nadu"%string
  /\ ("Tamil Nadu"%string = "NCT Of Delhi"%string
      \/ title "Tamil Nadu" = "Tamil Nadu"%string).
Proof.
  apply (X19_cleaned_state_names
           [Some " tamilnadu "; Some "100000"; None; Some "DELHI"]%string).
  - repeat constructor.
  - vm_compute. tauto.
Defined.

Lemma clean_states_lower (state : list (option string)) :
  clean_states (map (option_map lower) state) = clean_states state.
Proof.
  unfold clean_states. rewrite map_map. do 2 f_equal.
  apply map_ext. intros [s|]; [|reflexivity]. cbn [option_map].
  unfold title. now rewrite title_from_lower.
Qed.

(** X20: the cleaner does not see the case of the letters: two columns that
    differ only in letter case are cleaned to the same column. *)
Theorem X20_state_case_is_ignored (state state' : list (option string)) :
  ascii_column state -> ascii_column state' ->
  map (option_map lower) state = map (option_map lower) state' ->
  clean_states state = clean_states state'.
Proof.
  intros _ _ H.
  now rewrite <- (clean_states_lower state), H, clean_states_lower.
Qed.

Lemma X20_witness :
  clean_states [Some "WEST BENGAL"; Some "orissa"]%string
  = clean_states [Some "west Bengal"; Some "ORISSA"]%string.
Proof.
  apply X20_state_case_is_ignored; [repeat constructor ..|reflexivity].
Defined.

Lemma clean_states_fixed (state : list (option string)) :
  Forall (fun o => match o with
                   | Some s => has_digit s = false /\ strip (title s) = s
                               /\ replace_value state_map s = s
                   | None => True
                   end) state ->
  clean_states state = state.
Proof.
  unfold clean_states.
  induction 1 as [|o l Ho _ IH]; [reflexivity|].
  cbn [map]. destruct o as [s|]; cbn [option_map filter].
  - destruct Ho as [Hd [Hs Hr]]. rewrite Hs, Hd. cbn [negb map option_map].
    now rewrite Hr, IH.
  - cbn [map option_map]. now rewrite IH.
Qed.

(** X21: cleaning a cleaned column changes nothing, unless the column holds
    [NCT Of Delhi]: that name, which the cleaner gives to Delhi, is renamed
    to [Nct Of Delhi] by a second pass. *)
Theorem X21_cleaning_twice (state : list (option string)) :
  ascii_column state ->
  (~ In (Some "NCT Of Delhi"%string) (clean_states state) ->
   clean_states (clean_states state) = clean_states state)
  /\ clean_states (clean_states [Some "Delhi"%string])
     = [Some "Nct Of Delhi"%string].
Proof.
  intros _. split; [|reflexivity].
  intros Hno. apply clean_states_fixed, Forall_forall.
  intros [s|] Hin; [|exact I].
  destruct (cleaned_name_normal state s Hin) as [Hd [Hs [Hr [->|Ht]]]];
    [contradiction|].
  rewrite Ht. now repeat split.
Qed.

Lemma X21_witness :
  clean_states (clean_states [Some " tamilnadu "; Some "100000"; None]%string)
  = clean_states [Some " tamilnadu "; Some "100000"; None]%string.
Proof.
  apply X21_cleaning_twice.
  - repeat constructor.
  - vm_compute. intros [H|[H|[]]]; discriminate H.
Defined.

(** ** The completed run *)

Lemma selection_not_empty (f : frame) (top : district_key) :
  busiest_district f = Some top -> district_rows f top <> [].
Proof.
  intros Hb Hsub. unfold busiest_district in Hb. apply idxmax_spec in Hb.
  destruct Hb as [v [Hin _]]. apply in_map_iff in Hin.
  destruct Hin as [[d g] [[= -> _] Hin]].
  assert (Hk : In top (map fst (by_district f))).
  { apply in_map_iff. now exists (top, g). }
  unfold by_district in Hk.
  rewrite (groupby_keys_iff district_compare district_compare_eq),
    map_map in Hk.
  cbn [fst] in Hk. apply in_map_iff in Hk. destruct Hk as [r [Hr Hrin]].
  assert (Hsel : In r (district_rows f top)).
  { unfold district_rows. apply filter_In. split; [exact Hrin|].
    now apply district_eqb_eq. }
  rewrite Hsub in Hsel. destruct Hsel.
Qed.

(** X22: the early return of the variance reporter on an empty selection
    is never taken: the selected district is the district of some row, so
    the reporter either raises or draws its chart. *)
Theorem X22_variance_selection_not_empty (df : frame) :
  snd (analyze_pincode_variance df) <> Returned None.
Proof.
  unfold analyze_pincode_variance.
  destruct (_ && _ && _)%bool; [|discriminate].
  cbv zeta. remember (with_total_load df) as f eqn:Hf.
  destruct (busiest_district f) as [top|] eqn:Hb; [|discriminate].
  pose proof (selection_not_empty f top Hb) as Hne.
  destruct (district_rows f top) as [|r0 rs]; [contradiction|discriminate].
Qed.

Lemma variance_drawn (df df' : frame) (o : option variance_report) :
  analyze_pincode_variance df = (df', Returned o) -> o <> None.
Proof.
  unfold analyze_pincode_variance.
  destruct (_ && _ && _)%bool; [|discriminate].
  cbv zeta. remember (with_total_load df) as f eqn:Hf.
  destruct (busiest_district f) as [top|] eqn:Hb; [|discriminate].
  pose proof (selection_not_empty f top Hb) as Hne.
  destruct (district_rows f top) as [|r0 rs]; [contradiction|].
  intros H Ho. subst o. discriminate H.
Qed.

Lemma variance_needs_volumes (df df' : frame) (o : option variance_report)
      (c : string) :
  analyze_pincode_variance df = (df', Returned o) ->
  In c ["enrol_total_vol"; "bio_total_vol"; "demo_total_vol"]%string ->
  has_column (columns df) c = true.
Proof.
  unfold analyze_pincode_variance.
  destruct (has_column (columns df) "enrol_total_vol") eqn:He;
    [|discriminate].
  destruct (has_column (columns df) "bio_total_vol") eqn:Hb;
    [|discriminate].
  destruct (has_column (columns df) "demo_total_vol") eqn:Hd;
    [|discriminate].
  intros _ [<-|[<-|[<-|[]]]]; assumption.
Qed.

Lemma merged_columns_of (df_enrol df_bio df_demo : list norm_row)
      (d : domain) (c : string) :
  table_of d df_enrol df_bio df_demo <> [] ->
  In c (columns (domain_features d (table_of d df_enrol df_bio df_demo))) ->
  In c (columns (load_and_engineer_data df_enrol df_bio df_demo)).
Proof.
  intros Hne Hc.
  destruct (feature_tables_ready df_enrol df_bio df_demo)
    as [He [Hb [Hd [Heb [Hed Hbd]]]]].
  destruct (present_features _ _ _ He Hb Hd Heb Hed Hbd)
    as [Hj [Hwf [Hfop Hnd]]].
  set (l := filter _ _) in *.
  destruct (join_all_spec l Hnd Hfop) as [_ [Hcols _]].
  unfold load_and_engineer_data. rewrite Hj.
  change (columns (fillna (join_all l))) with (columns (join_all l)).
  rewrite Hcols. apply in_concat.
  exists (columns (domain_features d (table_of d df_enrol df_bio df_demo))).
  split; [|exact Hc]. apply in_map. apply filter_In.
  split; [apply feature_table_in|].
  destruct (table_of d df_enrol df_bio df_demo) as [|r t] eqn:Et;
    [contradiction|].
  rewrite (keys_not_empty _ (nr_key r)); [reflexivity|].
  apply feature_key_present. now left.
Qed.

Lemma main_returned (kmeans : list (R * R * R) -> option (list nat))
      (df_enrol df_bio df_demo : list norm_row) (r : run) :
  main kmeans df_enrol df_bio df_demo = Returned (Some r) ->
  exists df',
    analyze_pincode_variance
      (load_and_engineer_data df_enrol df_bio df_demo)
    = (df', Returned (run_variance r))
    /\ generate_health_index kmeans df' = Some (run_health r)
    /\ analyze_mbu_gap df' = Returned (run_gap r).
Proof.
  unfold main. destruct (is_empty _); [discriminate|].
  destruct (analyze_pincode_variance
              (load_and_engineer_data df_enrol df_bio df_demo))
    as [df1 [|v]] eqn:Hv; [discriminate|].
  destruct (generate_health_index kmeans df1) as [h|] eqn:Hh;
    [|discriminate].
  destruct (analyze_mbu_gap df1) as [|g] eqn:Hg; [discriminate|].
  intros [= <-]. exists df1. cbn [run_variance run_health run_gap].
  now repeat split.
Qed.

(** X23: a run that completes had data in all three domains, drew the
    variance chart and the child-gap chart (neither reporter took its early
    return), and flagged at least one district as Critical Risk, so the
    audit list of [main] is never empty. *)
Theorem X23_completed_run
        (kmeans : list (R * R * R) -> option (list nat))
        (df_enrol df_bio df_demo : list norm_row) (r : run) :
  main kmeans df_enrol df_bio df_demo = Returned (Some r) ->
  (forall d, table_of d df_enrol df_bio df_demo <> [])
  /\ run_variance r <> None
  /\ run_gap r <> None
  /\ exists row, In row (run_health r)
                 /\ hr_risk_category row = Some Critical_Risk.
Proof.
  intros Hmain.
  destruct (main_returned _ _ _ _ _ Hmain) as [df' [Hv [Hh Hg]]].
  set (m := load_and_engineer_data df_enrol df_bio df_demo) in *.
  assert (Hall : forall d, table_of d df_enrol df_bio df_demo <> []).
  { intros d Hnil.
    pose proof (missing_domain_volume _ _ _ d Hnil) as Hmiss. fold m in Hmiss.
    rewrite (variance_needs_volumes m df' _ _ Hv) in Hmiss; [discriminate|].
    destruct d; cbn; tauto. }
  split; [exact Hall|]. split; [|split].
  - exact (variance_drawn m df' _ Hv).
  - intros Hnone. rewrite Hnone in Hg.
    destruct (variance_returned _ _ _ Hv) as [-> _].
    assert (Hc : has_column (columns (with_total_load m)) "enrol_child_sum"
                 = true).
    { unfold with_total_load. rewrite has_column_assign.
      apply orb_true_iff. right. apply has_column_In.
      apply (merged_columns_of _ _ _ Enrol); [apply (Hall Enrol)|].
      rewrite domain_features_columns by apply (Hall Enrol).
      cbn. tauto. }
    unfold analyze_mbu_gap in Hg. rewrite Hc in Hg. cbn [negb] in Hg.
    destruct (negb _) in Hg; discriminate Hg.
  - destruct (generate_health_index_rows kmeans df' _ Hh)
      as [ds [labels [cats [_ [_ [Hlen [Hm Hperm]]]]]]].
    destruct (category_among_rows ds labels cats Critical_Risk Hlen Hm)
      as [row [Hrow Hcat]].
    exists row. split; [|exact Hcat].
    exact (Permutation_in _ (Permutation_sym Hperm) Hrow).
Qed.

Ltac cells_eq :=
  repeat match goal with
         | |- Fin _ = Fin _ => apply f_equal; lra
         | |- _ :: _ = _ :: _ => apply f_equal2
         | |- (_, _) = (_, _) => apply f_equal2
         end; try reflexivity.

Lemma sample_run_merged :
  load_and_engineer_data run_enrol_table run_bio_table run_demo_table
  = sample_merged.
Proof.
  cbv -[Rplus Rdiv Rmult Rgtb Rinv IZR Rminus Ropp stability].
  rewrite !stability_single_record by lra. cbv iota.
  apply f_equal. cells_eq.
Qed.

Lemma sample_busiest :
  busiest_district (with_total_load sample_merged)
  = Some ("Goa", "North Goa")%string.
Proof.
  unfold busiest_district, idxmax.
  cbn -[F64.gtb Rplus].
  cbn [F64.gtb].
  rewrite !(proj2 (Rgtb_false _ _)) by lra.
  reflexivity.
Qed.

Lemma sample_variance_run :
  exists rep,
    analyze_pincode_variance sample_merged
    = (with_total_load sample_merged, Returned (Some rep)).
Proof.
  unfold analyze_pincode_variance.
  change (has_column (columns sample_merged) "enrol_total_vol"
          && has_column (columns sample_merged) "bio_total_vol"
          && has_column (columns sample_merged) "demo_total_vol")%bool
    with true.
  cbv zeta. cbv iota. rewrite sample_busiest.
  destruct (district_rows (with_total_load sample_merged)
                          ("Goa", "North Goa")%string) eqn:E.
  - discriminate E.
  - eexists. reflexivity.
Qed.

Lemma sample_loaded_stats :
  district_stats (with_total_load sample_merged) = Some sample_stats.
Proof.
  unfold district_stats, sample_stats.
  cbn -[as_real F64.div Rplus INR].
  unfold nan_mean. cbn -[as_real F64.div Rplus INR].
  rewrite !div_fin by (simpl; lra).
  cbn [as_real bind sequence].
  repeat f_equal; simpl; try field; try lra.
Qed.

Lemma sample_loaded_scored :
  exists out,
    generate_health_index singleton_clusters (with_total_load sample_merged)
    = Some out.
Proof.
  unfold generate_health_index.
  rewrite sample_loaded_stats. cbn [bind]. unfold sample_stats at 1.
  rewrite sample_health_index, sample_score_enrol, sample_score_bio,
    sample_score_demo.
  unfold singleton_clusters. cbn [combine length seq bind].
  cbn [Nat.eqb negb sample_stats length].
  rewrite sample_cluster_rank. cbn [rank_map bind].
  eexists. reflexivity.
Qed.

Lemma sample_run_completes :
  exists r,
    main singleton_clusters run_enrol_table run_bio_table run_demo_table
    = Returned (Some r).
Proof.
  unfold main. rewrite sample_run_merged.
  change (is_empty sample_merged) with false. cbv iota.
  destruct sample_variance_run as [rep ->].
  destruct sample_loaded_scored as [out ->].
  destruct (analyze_mbu_gap (with_total_load sample_merged)) as [|g] eqn:Hg.
  - discriminate Hg.
  - eexists. reflexivity.
Qed.

Lemma X23_witness :
  exists r row,
    main singleton_clusters run_enrol_table run_bio_table run_demo_table
    = Returned (Some r)
    /\ run_variance r <> None /\ run_gap r <> None
    /\ In row (run_health r)
    /\ hr_risk_category row = Some Critical_Risk.
Proof.
  destruct sample_run_completes as [r Hr].
  destruct (X23_completed_run singleton_clusters run_enrol_table
                              run_bio_table run_demo_table r Hr)
    as [_ [Hv [Hg [row [Hrow Hcat]]]]].
  exists r, row. repeat split; assumption.
Defined.

(** ** Too few districts *)

Lemma scored_length
      (kmeans : list (R * R * R) -> option (list nat)) (df : frame)
      (out : list health_row) :
  generate_health_index kmeans df = Some out ->
  length out = length (by_district df).
Proof.
  intros Hout.
  destruct (generate_health_index_rows kmeans df out Hout)
    as [ds [labels [m [Hds [_ [Hlen [_ Hperm]]]]]]].
  rewrite (Permutation_length Hperm).
  rewrite <- (length_map hr_stats).
  rewrite scored_rows_stats by (apply health_index_length || exact Hlen).
  rewrite <- (length_map fst (by_district df)).
  rewrite <- (district_stats_keys df ds Hds). now rewrite length_map.
Qed.

Lemma three_distinct_members {A B : Type} (f : A -> B) (l : list A)
      (a b c : A) :
  In a l -> In b l -> In c l ->
  f a <> f b -> f a <> f c -> f b <> f c -> (3 <= length l)%nat.
Proof.
  intros Ha Hb Hc Hab Hac Hbc.
  assert (Hincl : incl [f a; f b; f c] (map f l)).
  { intros x [<-|[<-|[<-|[]]]]; now apply in_map. }
  assert (Hnd : NoDup [f a; f b; f c]).
  { repeat constructor; cbn; intuition congruence. }
  pose proof (NoDup_incl_length Hnd Hincl) as Hle.
  now rewrite length_map in Hle.
Qed.

(** X24: on a table with fewer than three (state, district) pairs the
    scorer raises, whatever the clustering returns: the three risk
    categories cannot be told apart. *)
Theorem X24_scorer_needs_three_districts
        (kmeans : list (R * R * R) -> option (list nat)) (df : frame) :
  (length (by_district df) < 3)%nat ->
  generate_health_index kmeans df = None.
Proof.
  intros Hlt.
  destruct (generate_health_index kmeans df) as [out|] eqn:Hout;
    [|reflexivity].
  exfalso.
  destruct (generate_health_index_rows kmeans df out Hout)
    as [ds [labels [m [_ [_ [Hlen [Hm Hperm]]]]]]].
  destruct (category_among_rows ds labels m Critical_Risk Hlen Hm)
    as [a [Ha Hca]].
  destruct (category_among_rows ds labels m Moderate Hlen Hm)
    as [b [Hb Hcb]].
  destruct (category_among_rows ds labels m Healthy Hlen Hm)
    as [c [Hc Hcc]].
  apply (Permutation_in _ (Permutation_sym Hperm)) in Ha, Hb, Hc.
  assert (H3 : (3 <= length out)%nat).
  { apply (three_distinct_members hr_risk_category out a b c);
      try assumption; rewrite ?Hca, ?Hcb, ?Hcc; discriminate. }
  rewrite (scored_length kmeans df out Hout) in H3. lia.
Qed.

Lemma X24_witness :
  generate_health_index singleton_clusters two_district_table = None.
Proof.
  apply X24_scorer_needs_three_districts. vm_compute. lia.
Defined.

(** ** Records with a missing key *)

Lemma process_domain_features_stats (df : list norm_row) (prefix : string)
      (val_cols : list string) :
  df <> [] ->
  process_domain_features df prefix val_cols
  = pincode_stats df prefix val_cols.
Proof. destruct df; [contradiction | reflexivity]. Qed.

(** The feature table of a cleaned table has the rows of the feature table
    of the records with a full key, and it is that table when there is such
    a record. *)
Lemma missing_keys_features (d : domain) (df : list clean_row) :
  rows (WithMissingKeys.domain_features d df)
  = rows (domain_features d (grouped_records df))
  /\ (is_empty (WithMissingKeys.domain_features d df) = false ->
      WithMissingKeys.domain_features d df
      = domain_features d (grouped_records df)).
Proof.
  unfold WithMissingKeys.domain_features,
    WithMissingKeys.process_domain_features.
  destruct df as [|r0 df]; [now split|].
  destruct (grouped_records (r0 :: df)) as [|n ns] eqn:Hg.
  - split; [reflexivity|]. intros H. discriminate H.
  - unfold domain_features.
    rewrite process_domain_features_stats by discriminate. now split.
Qed.

Lemma grouped_records_app (df df' : list clean_row) :
  grouped_records (df ++ df') = grouped_records df ++ grouped_records df'.
Proof. unfold grouped_records. apply flat_map_app. Qed.

Lemma grouped_records_key (df : list clean_row) (k : key) :
  (exists n, In n (grouped_records df) /\ nr_key n = k)
  <-> exists r, In r df /\ cr_key r = Some k.
Proof.
  unfold grouped_records. split.
  - intros [n [Hn Hk]]. apply in_flat_map in Hn. destruct Hn as [r [Hr Hn]].
    exists r. split; [exact Hr|].
    destruct (cr_key r) as [[[s d] p]|]; [|destruct Hn].
    destruct Hn as [<-|[]]. now rewrite <- Hk.
  - intros [r [Hr Hk]]. destruct k as [[s d] p].
    exists {| nr_state := s; nr_district := d; nr_pincode := p;
              nr_cell := cr_cell r |}.
    split; [|reflexivity]. apply in_flat_map. exists r.
    split; [exact Hr|]. rewrite Hk. now left.
Qed.

Lemma grouped_records_volume (d : domain) (df : list clean_row) :
  Rsum (map (fun n => nr_cell n (child_col d) + nr_cell n (adult_col d))
            (grouped_records df))
  = Rsum (map (grouped_volume d) df).
Proof.
  induction df as [|r df IH]; [reflexivity|].
  cbn [map Rsum]. rewrite <- IH.
  unfold grouped_records, grouped_volume. cbn [flat_map].
  destruct (cr_key r) as [[[s dd] p]|]; cbn [app map Rsum nr_cell]; lra.
Qed.

(** The merger looks at a table without rows only to see that it has
    none. *)
Lemma merge_features_rows (a a' b b' c c' : frame) :
  rows a = rows a' -> (is_empty a = false -> a = a') ->
  rows b = rows b' -> (is_empty b = false -> b = b') ->
  rows c = rows c' -> (is_empty c = false -> c = c') ->
  rows (merge_features a b c) = rows (merge_features a' b' c').
Proof.
  intros Ha Ha' Hb Hb' Hc Hc'.
  assert (Ea : is_empty a' = is_empty a) by (unfold is_empty; now rewrite Ha).
  assert (Eb : is_empty b' = is_empty b) by (unfold is_empty; now rewrite Hb).
  assert (Ec : is_empty c' = is_empty c) by (unfold is_empty; now rewrite Hc).
  unfold merge_features. cbv zeta.
  destruct (is_empty a) eqn:Ia; [|rewrite <- (Ha' eq_refl) in *];
    (destruct (is_empty b) eqn:Ib; [|rewrite <- (Hb' eq_refl) in *]);
    (destruct (is_empty c) eqn:Ic; [|rewrite <- (Hc' eq_refl) in *]);
    repeat (rewrite ?Ea, ?Eb, ?Ec, ?Ia, ?Ib, ?Ic; cbn [negb]);
    unfold fillna; cbn [rows];
    repeat match goal with
           | |- context [if ?t then _ else _] => destruct t
           end;
    now rewrite ?Hc, ?Hb, ?Ha.
Qed.

Lemma missing_keys_merged (df_enrol df_bio df_demo : list clean_row) :
  rows (WithMissingKeys.load_and_engineer_data df_enrol df_bio df_demo)
  = rows (load_and_engineer_data (grouped_records df_enrol)
                                 (grouped_records df_bio)
                                 (grouped_records df_demo)).
Proof.
  unfold WithMissingKeys.load_and_engineer_data, load_and_engineer_data.
  apply merge_features_rows; apply missing_keys_features.
Qed.

(** X4: the feature table has exactly one row for every key
    (state, district, pincode) that occurs in a record of the domain table
    with none of the three components missing, the keys in strictly
    ascending order; a record with a missing state, district or pincode
    gives no row. *)
Theorem X4_feature_keys (d : domain) (df : list clean_row) :
  StronglySorted key_lt (keys_of (WithMissingKeys.domain_features d df))
  /\ forall k, In k (keys_of (WithMissingKeys.domain_features d df))
               <-> exists r, In r df /\ cr_key r = Some k.
Proof.
  destruct (missing_keys_features d df) as [Hrows _].
  destruct (feature_keys d (grouped_records df)) as [Hsorted Hkeys].
  unfold keys_of in *. rewrite Hrows. split; [exact Hsorted|].
  intros k. rewrite Hkeys. apply grouped_records_key.
Qed.

(** X6: the feature builder conserves the volume of the records with a
    full key: the total volumes of the feature rows add up to the two value
    columns summed over these records.  The volume of a record with a
    missing state, district or pincode is left out. *)
Theorem X6_feature_volume_conserved (d : domain) (df : list clean_row) :
  nansum (column_values (columns (WithMissingKeys.domain_features d df))
                        (prefix_of d ++ "_total_vol")%string
                        (rows (WithMissingKeys.domain_features d df)))
  = Fin (Rsum (map (grouped_volume d) df)).
Proof.
  rewrite <- grouped_records_volume.
  rewrite <- (feature_volume_conserved d (grouped_records df)).
  destruct (missing_keys_features d df) as [Hrows Hsame].
  destruct (is_empty (WithMissingKeys.domain_features d df)) eqn:He.
  - rewrite <- Hrows. unfold is_empty in He.
    destruct (rows (WithMissingKeys.domain_features d df));
      [reflexivity | discriminate He].
  - now rewrite (Hsame eq_refl).
Qed.

(** X9: the merged table has exactly one row for every key that occurs, with
    none of its components missing, in a record of any of the three domain
    tables, and none of its cells is missing.  Records with a missing
    state, district or pincode reach no row of the merged table. *)
Theorem X9_merged_keys_and_cells
        (df_enrol df_bio df_demo : list clean_row) :
  let out :=
    WithMissingKeys.load_and_engineer_data df_enrol df_bio df_demo in
  NoDup (keys_of out)
  /\ (forall k, In k (keys_of out)
                <-> exists r, In r (df_enrol ++ df_bio ++ df_demo)
                              /\ cr_key r = Some k)
  /\ forall r x, In r (rows out) -> In x (snd r) -> F64.isnan x = false.
Proof.
  intros out.
  pose proof (missing_keys_merged df_enrol df_bio df_demo) as Hrows.
  fold out in Hrows.
  destruct (merged_keys_and_cells (grouped_records df_enrol)
              (grouped_records df_bio) (grouped_records df_demo))
    as [Hnd [Hkeys Hcells]].
  unfold keys_of in *. rewrite Hrows. split; [exact Hnd|]. split.
  - intros k. rewrite Hkeys, <- !grouped_records_app.
    apply grouped_records_key.
  - exact Hcells.
Qed.

Example stateless_record_dropped :
  keys_of (WithMissingKeys.domain_features Enrol stateless_enrol_table)
  = [("Goa", "North Goa", 403001%Z)%string]
  /\ Rsum (map (grouped_volume Enrol) stateless_enrol_table) = 9.
Proof.
  split; [reflexivity|]. cbn. lra.
Qed.
